(** * A page cache with a free-list allocator and online compaction

    Shallow embedding of the memory manager of [CacheServerDefrag]
    (cache_server_defrag.h, cache_server_defrag_impl1.cpp): the free list of
    extents, best-fit search, block splitting, sorted insertion with
    coalescing, the compacting defragmenter and the allocation path.

    Conventions of the embedding.
    - [size_t] values are integers in [0, 2^64); additions and subtractions
      that the source performs on [size_t] are written with [wrap].
    - The doubly linked list hanging off [free_list_head] is the list of its
      nodes in [next] order; a [FreeBlock*] is the position of the node in
      that list and [nullptr] is [None].
    - [std::vector<Page> cache] is a list of pages; the source indexes it
      with [operator[]], which is undefined out of range, so the theorems
      that look at pages assume the indices are in range.
    - [std::unordered_map<std::string, CacheEntry> entries] is a [gmap].
    - Console output is not modelled. *)

From stdpp Require Import gmap strings list fin_maps sorting.
From Stdlib Require Import ZArith Lia.

Local Open Scope Z_scope.

(** ** Constants *)

Definition SIZE_MAX : Z := 18446744073709551615.
Definition CACHE_SIZE : Z := 100 * 1024 * 1024.
Definition PAGE_SIZE : Z := 40 * 1024.
Definition TOTAL_PAGES : Z := CACHE_SIZE / PAGE_SIZE.

(** Arithmetic on [size_t] is modulo [SIZE_MAX + 1]. *)
Definition wrap (x : Z) : Z := x mod (SIZE_MAX + 1).

(** ** Data *)

Inductive EvictionPolicy := LRU | FIFO | SIEVE | CLOCK.

Module FreeBlock.
Record t := mk { start_page : Z; num_pages : Z }.
End FreeBlock.

Module Page.
(** [data] is the byte array of the page, indexed by offset. *)
Record t := mk { data : Z → Byte.byte; is_free : bool; block_start : Z }.
End Page.

Module CacheEntry.
Record t := mk {
    key : string;
    client_id : string;
    start_page : Z;
    num_pages : Z;
    data_size : Z;
    lru_iter : nat;
    insertion_order : Z;
    visited : bool;
    reference_bit : bool;
    clock_position : Z
  }.

Definition with_start_page (e : t) (s : Z) : t :=
    mk (key e) (client_id e) s (num_pages e) (data_size e) (lru_iter e)
       (insertion_order e) (visited e) (reference_bit e) (clock_position e).
End CacheEntry.

Module CacheStats.
Record t := mk {
    total_requests : Z; hits : Z; misses : Z; evictions : Z; adds : Z;
    updates : Z; deletes : Z; defragmentations : Z; coalesces : Z
  }.

Definition incr_coalesces (s : t) : t :=
    mk (total_requests s) (hits s) (misses s) (evictions s) (adds s)
       (updates s) (deletes s) (defragmentations s) (wrap (coalesces s + 1)).

Definition incr_defragmentations (s : t) : t :=
    mk (total_requests s) (hits s) (misses s) (evictions s) (adds s)
       (updates s) (deletes s) (wrap (defragmentations s + 1)) (coalesces s).

Definition incr_evictions (s : t) : t :=
    mk (total_requests s) (hits s) (misses s) (wrap (evictions s + 1)) (adds s)
       (updates s) (deletes s) (defragmentations s) (coalesces s).

Definition zero : t := mk 0 0 0 0 0 0 0 0 0.
End CacheStats.

Module FragmentationStats.
(** The [double] ratio of the source is left out. *)
Record t := mk {
    total_free_pages : Z; largest_free_block : Z; num_free_blocks : Z
  }.
End FragmentationStats.

(** The members of [CacheServerDefrag] that the memory manager and the
    eviction policies read or write. *)
Record State := mkState {
  cache : list Page.t;
  entries : gmap string CacheEntry.t;
  free_list_head : list FreeBlock.t;
  total_free_pages : Z;
  policy : EvictionPolicy;
  lru_list : list string;
  fifo_queue : list string;
  fifo_counter : Z;
  sieve_list : list string;
  sieve_hand : nat;
  clock_list : list string;
  clock_hand : Z;
  stats : CacheStats.t
}.

Definition set_cache (st : State) (c : list Page.t) : State :=
  mkState c (entries st) (free_list_head st) (total_free_pages st) (policy st)
    (lru_list st) (fifo_queue st) (fifo_counter st) (sieve_list st)
    (sieve_hand st) (clock_list st) (clock_hand st) (stats st).

Definition set_entries (st : State) (m : gmap string CacheEntry.t) : State :=
  mkState (cache st) m (free_list_head st) (total_free_pages st) (policy st)
    (lru_list st) (fifo_queue st) (fifo_counter st) (sieve_list st)
    (sieve_hand st) (clock_list st) (clock_hand st) (stats st).

Definition set_free_list (st : State) (l : list FreeBlock.t) (total : Z) : State :=
  mkState (cache st) (entries st) l total (policy st)
    (lru_list st) (fifo_queue st) (fifo_counter st) (sieve_list st)
    (sieve_hand st) (clock_list st) (clock_hand st) (stats st).

Definition set_fifo_counter (st : State) (c : Z) : State :=
  mkState (cache st) (entries st) (free_list_head st) (total_free_pages st)
    (policy st) (lru_list st) (fifo_queue st) c (sieve_list st)
    (sieve_hand st) (clock_list st) (clock_hand st) (stats st).

Definition set_stats (st : State) (s : CacheStats.t) : State :=
  mkState (cache st) (entries st) (free_list_head st) (total_free_pages st)
    (policy st) (lru_list st) (fifo_queue st) (fifo_counter st) (sieve_list st)
    (sieve_hand st) (clock_list st) (clock_hand st) s.

(** ** Free list management *)

(** The loop of [findBestFitBlock]. [idx] is the position of [current];
    the second component of the result counts the nodes the loop looked at,
    so that leaving the loop early is visible. *)
Fixpoint findBestFit_scan (num_pages : Z) (current : list FreeBlock.t)
    (idx : nat) (best_fit : option nat) (best_size : Z) : option nat * nat :=
  match current with
  | [] => (best_fit, idx)
  | blk :: next =>
      if (num_pages <=? FreeBlock.num_pages blk)
         && (FreeBlock.num_pages blk <? best_size)
      then
        if FreeBlock.num_pages blk =? num_pages
        then (Some idx, S idx)
        else findBestFit_scan num_pages next (S idx) (Some idx)
               (FreeBlock.num_pages blk)
      else findBestFit_scan num_pages next (S idx) best_fit best_size
  end.

Definition findBestFitBlock (num_pages : Z) (fl : list FreeBlock.t) : option nat :=
  fst (findBestFit_scan num_pages fl 0 None SIZE_MAX).

Definition findBestFit_visited (num_pages : Z) (fl : list FreeBlock.t) : nat :=
  snd (findBestFit_scan num_pages fl 0 None SIZE_MAX).

Fixpoint findFirstFit_scan (num_pages : Z) (current : list FreeBlock.t)
    (idx : nat) : option nat :=
  match current with
  | [] => None
  | blk :: next =>
      if num_pages <=? FreeBlock.num_pages blk then Some idx
      else findFirstFit_scan num_pages next (S idx)
  end.

Definition findFirstFitBlock (num_pages : Z) (fl : list FreeBlock.t) : option nat :=
  findFirstFit_scan num_pages fl 0.

(** [removeFromFreeList]: unlink the node and give its pages up in the
    counter. A position that is not in the list stands for a pointer that
    is not a node of the list, which the source never passes. *)
Definition removeFromFreeList (block : nat) (st : State) : State :=
  match free_list_head st !! block with
  | Some b =>
      set_free_list st (delete block (free_list_head st))
        (wrap (total_free_pages st - FreeBlock.num_pages b))
  | None => st
  end.

(** [splitBlock]: an exact fit is unlinked, a larger block is shortened in
    place from its low end. *)
Definition splitBlock (block : nat) (num_pages : Z) (st : State) : State :=
  match free_list_head st !! block with
  | Some b =>
      if FreeBlock.num_pages b =? num_pages
      then removeFromFreeList block st
      else
        set_free_list st
          (<[block := FreeBlock.mk (wrap (FreeBlock.start_page b + num_pages))
                        (wrap (FreeBlock.num_pages b - num_pages))]>
             (free_list_head st))
          (total_free_pages st)
  | None => st
  end.

(** The first half of [coalesceAdjacentBlocks]: merge [block] with its
    successor when they touch. *)
Definition coalesce_next (block : nat) (fl : list FreeBlock.t) : list FreeBlock.t :=
  match fl !! block, fl !! S block with
  | Some b, Some next_block =>
      if wrap (FreeBlock.start_page b + FreeBlock.num_pages b)
         =? FreeBlock.start_page next_block
      then <[block := FreeBlock.mk (FreeBlock.start_page b)
                        (wrap (FreeBlock.num_pages b + FreeBlock.num_pages next_block))]>
             (delete (S block) fl)
      else fl
  | _, _ => fl
  end.

(** The second half: merge [block] into its predecessor when they touch. *)
Definition coalesce_prev (block : nat) (fl : list FreeBlock.t) : list FreeBlock.t :=
  match block with
  | O => fl
  | S p =>
      match fl !! p, fl !! block with
      | Some prev_block, Some b =>
          if wrap (FreeBlock.start_page prev_block + FreeBlock.num_pages prev_block)
             =? FreeBlock.start_page b
          then <[p := FreeBlock.mk (FreeBlock.start_page prev_block)
                        (wrap (FreeBlock.num_pages prev_block + FreeBlock.num_pages b))]>
                 (delete block fl)
          else fl
      | _, _ => fl
      end
  end.

Definition coalesceAdjacentBlocks (block : nat) (st : State) : State :=
  let st := set_stats st (CacheStats.incr_coalesces (stats st)) in
  set_free_list st
    (coalesce_prev block (coalesce_next block (free_list_head st)))
    (total_free_pages st).

(** The [while] loop of [addToFreeList]: [idx] is the position of [current]
    and [next] the nodes after it; the result is the position of [current]
    when the loop stops. *)
Fixpoint insert_after_scan (start_page : Z) (next : list FreeBlock.t) (idx : nat) : nat :=
  match next with
  | nb :: rest =>
      if FreeBlock.start_page nb <? start_page
      then insert_after_scan start_page rest (S idx)
      else idx
  | [] => idx
  end.

(** Position at which [addToFreeList] links the new node. *)
Definition insert_position (start_page : Z) (fl : list FreeBlock.t) : nat :=
  match fl with
  | [] => O
  | head :: rest =>
      if start_page <? FreeBlock.start_page head then O
      else S (insert_after_scan start_page rest O)
  end.

Definition link_at (pos : nat) (new_block : FreeBlock.t) (fl : list FreeBlock.t)
    : list FreeBlock.t :=
  take pos fl ++ new_block :: drop pos fl.

Definition addToFreeList (start_page num_pages : Z) (st : State) : State :=
  let new_block := FreeBlock.mk start_page num_pages in
  let pos := insert_position start_page (free_list_head st) in
  let st := set_free_list st (link_at pos new_block (free_list_head st))
              (wrap (total_free_pages st + num_pages)) in
  coalesceAdjacentBlocks pos st.

(** ** Fragmentation statistics *)

Fixpoint fragStats_scan (current : list FreeBlock.t) (num_free_blocks largest : Z)
    : Z * Z :=
  match current with
  | [] => (num_free_blocks, largest)
  | b :: next =>
      fragStats_scan next (wrap (num_free_blocks + 1))
        (if largest <? FreeBlock.num_pages b then FreeBlock.num_pages b else largest)
  end.

Definition getFragmentationStats (st : State) : FragmentationStats.t :=
  let r := fragStats_scan (free_list_head st) 0 0 in
  FragmentationStats.mk (total_free_pages st) r.2 r.1.

(** ** Page data *)

(** Byte [i] of the run of pages that starts at [start_page]. *)
Definition page_byte (c : list Page.t) (start_page i : Z) : Byte.byte :=
  match c !! Z.to_nat (start_page + i / PAGE_SIZE) with
  | Some p => Page.data p (i mod PAGE_SIZE)
  | None => Byte.x00
  end.

(** Modelled from the spec: the body of [readFromPages] is not among the
    source files. Section 4.A: [read(start_page, data_size)] returns exactly
    [data_size] bytes beginning at [start_page]. *)
Definition readFromPages (st : State) (start_page data_size : Z) : list Byte.byte :=
  (λ i : nat, page_byte (cache st) start_page (Z.of_nat i))
    <$> seq 0 (Z.to_nat data_size).

Definition write_page (start_page : Z) (bytes : list Byte.byte) (i : nat)
    (p : Page.t) : Page.t :=
  Page.mk
    (λ off,
       let j := (Z.of_nat i - start_page) * PAGE_SIZE + off in
       if (start_page <=? Z.of_nat i) && (0 <=? off) && (off <? PAGE_SIZE)
          && (j <? Z.of_nat (length bytes))
       then default Byte.x00 (bytes !! Z.to_nat j)
       else Page.data p off)
    (Page.is_free p) (Page.block_start p).

(** Modelled from the spec: the body of [writeToPages] is not among the
    source files. Section 4.A: [write(start_page, bytes)] copies [bytes]
    into the run starting at [start_page]; bytes of the last page beyond the
    data keep whatever they held. The [bool] it returns is ignored by the
    only caller in the source and is left out. *)
Definition writeToPages (st : State) (start_page : Z) (bytes : list Byte.byte) : State :=
  set_cache st (imap (write_page start_page bytes) (cache st)).

(** [for (i = first; i < limit; ++i) { cache[i].is_free = false;
    cache[i].block_start = first; }] *)
Definition mark_used (first limit : Z) (c : list Page.t) : list Page.t :=
  imap (λ i p,
          if (first <=? Z.of_nat i) && (Z.of_nat i <? limit)
          then Page.mk (Page.data p) false first
          else p) c.

(** [for (i = first; i < limit; ++i) cache[i].is_free = true;] *)
Definition mark_free (first limit : Z) (c : list Page.t) : list Page.t :=
  imap (λ i p,
          if (first <=? Z.of_nat i) && (Z.of_nat i <? limit)
          then Page.mk (Page.data p) true (Page.block_start p)
          else p) c.

(** ** Compaction *)

(** The comparator handed to [std::sort] is [a.start_page < b.start_page];
    a sequence is in an order [std::sort] may produce when no element is
    followed by one that the comparator puts before it. *)
Definition start_le (a b : string * CacheEntry.t) : Prop :=
  CacheEntry.start_page a.2 ≤ CacheEntry.start_page b.2.

#[global] Instance start_le_dec a b : Decision (start_le a b).
Proof. unfold start_le. apply _. Defined.

(** One iteration of the relocation loop of [compactMemory]. *)
Definition compact_step (st : State) (next_free_page : Z)
    (kv : string * CacheEntry.t) : State * Z :=
  let key := kv.1 in
  let entry := kv.2 in
  let old_start := CacheEntry.start_page entry in
  let num_pages := CacheEntry.num_pages entry in
  let st :=
    if old_start =? next_free_page then st
    else
      let data := readFromPages st old_start (CacheEntry.data_size entry) in
      let st := writeToPages st next_free_page data in
      set_entries st
        (<[key := CacheEntry.with_start_page entry next_free_page]> (entries st)) in
  (set_cache st (mark_used next_free_page (wrap (next_free_page + num_pages)) (cache st)),
   wrap (next_free_page + num_pages)).

Fixpoint compact_loop (entries_to_move : list (string * CacheEntry.t))
    (st : State) (next_free_page : Z) : State * Z :=
  match entries_to_move with
  | [] => (st, next_free_page)
  | kv :: rest =>
      let r := compact_step st next_free_page kv in
      compact_loop rest r.1 r.2
  end.

(** The tail of [compactMemory]: one free block from the cursor to the end. *)
Definition compact_finish (st : State) (next_free_page : Z) : State :=
  if next_free_page <? TOTAL_PAGES
  then
    set_free_list
      (set_cache st (mark_free next_free_page TOTAL_PAGES (cache st)))
      [FreeBlock.mk next_free_page (TOTAL_PAGES - next_free_page)]
      (TOTAL_PAGES - next_free_page)
  else st.

(** [compactMemory] for a given processing order [entries_to_move]. *)
Definition compactMemory_with (entries_to_move : list (string * CacheEntry.t))
    (st : State) : State :=
  let st := set_free_list st [] 0 in
  let r := compact_loop entries_to_move st 0 in
  compact_finish r.1 r.2.

(** The iteration order of the hash table and the order [std::sort] gives
    to entries with equal [start_page] are not fixed by the source; the
    executable model takes the key order of the map and a stable sort. *)
Definition compactMemory (st : State) : State :=
  compactMemory_with (merge_sort start_le (map_to_list (entries st))) st.

Definition defragment (required_pages : Z) (st : State) : bool * State :=
  let st := set_stats st (CacheStats.incr_defragmentations (stats st)) in
  let st := compactMemory st in
  let after := getFragmentationStats st in
  (required_pages <=? FragmentationStats.largest_free_block after, st).

(** ** Allocation *)

Definition calculateRequiredPages (data_size : Z) : Z :=
  wrap (data_size + PAGE_SIZE - 1) / PAGE_SIZE.

(** The part of [allocatePages] after a block has been found. *)
Definition commit_allocation (block : nat) (key : string) (data_size : Z)
    (client_id : string) (required_pages : Z) (st : State) : State :=
  match free_list_head st !! block with
  | None => st
  | Some b =>
      let start_page := FreeBlock.start_page b in
      let st := splitBlock block required_pages st in
      let st := set_cache st
                  (mark_used start_page (wrap (start_page + required_pages)) (cache st)) in
      let entry :=
        CacheEntry.mk key client_id start_page required_pages data_size
          O (fifo_counter st) false false 0 in
      let st := set_fifo_counter st (wrap (fifo_counter st + 1)) in
      set_entries st (<[key := entry]> (entries st))
  end.

Section Admission.

(** The body of [evict] is not among the source files; the allocation path
    is modelled for an arbitrary one. *)
Variable evict : Z → State → bool * State.

Definition allocate_retry (key : string) (data_size : Z) (client_id : string)
    (required_pages : Z) (st : State) : bool * State :=
  match findBestFitBlock required_pages (free_list_head st) with
  | None => (false, st)
  | Some block =>
      (true, commit_allocation block key data_size client_id required_pages st)
  end.

Definition allocatePages (key : string) (data_size : Z) (client_id : string)
    (st : State) : bool * State :=
  let required_pages := calculateRequiredPages data_size in
  match findBestFitBlock required_pages (free_list_head st) with
  | Some block =>
      (true, commit_allocation block key data_size client_id required_pages st)
  | None =>
      if required_pages <=? total_free_pages st then
        let d := defragment required_pages st in
        if d.1 then allocate_retry key data_size client_id required_pages d.2
        else
          let e := evict required_pages d.2 in
          if e.1 then allocate_retry key data_size client_id required_pages e.2
          else (false, e.2)
      else
        let e := evict required_pages st in
        if e.1 then allocate_retry key data_size client_id required_pages e.2
        else (false, e.2)
  end.

End Admission.

Definition freePages (key : string) (st : State) : State :=
  match entries st !! key with
  | None => st
  | Some e =>
      let start_page := CacheEntry.start_page e in
      let num_pages := CacheEntry.num_pages e in
      let st := set_cache st
                  (mark_free start_page (wrap (start_page + num_pages)) (cache st)) in
      addToFreeList start_page num_pages st
  end.

(** The state after the constructor and [initializeCache]. The source
    leaves the bytes of a fresh page uninitialised; the model takes zero. *)
Definition initializeCache (eviction_policy : EvictionPolicy) : State :=
  mkState
    (replicate (Z.to_nat TOTAL_PAGES) (Page.mk (λ _, Byte.x00) true 0))
    ∅ [FreeBlock.mk 0 TOTAL_PAGES] TOTAL_PAGES eviction_policy
    [] [] 0 [] O [] 0 CacheStats.zero.

(** ** Predicates on free lists *)

Definition block_end (b : FreeBlock.t) : Z :=
  FreeBlock.start_page b + FreeBlock.num_pages b.

(** An extent is a non-empty run [[start, start + len)] of page numbers
    representable in [size_t]. *)
Definition extent_ok (b : FreeBlock.t) : Prop :=
  0 ≤ FreeBlock.start_page b ∧ 1 ≤ FreeBlock.num_pages b ∧ block_end b ≤ SIZE_MAX.

(** Sorted by address with a gap between neighbours: for adjacent nodes
    [a] then [b], [a.start + a.len < b.start]. *)
Fixpoint sorted_coalesced (l : list FreeBlock.t) : Prop :=
  match l with
  | [] => True
  | a :: tl =>
      match tl with
      | [] => True
      | b :: _ => block_end a < FreeBlock.start_page b
      end ∧ sorted_coalesced tl
  end.

#[global] Instance sorted_coalesced_dec l : Decision (sorted_coalesced l).
Proof.
  induction l as [|a [|b tl] IH]; simpl; [left; exact I | apply _ | apply _].
Defined.

(** Page [p] lies in some extent of the list. *)
Definition covers (l : list FreeBlock.t) (p : Z) : Prop :=
  Exists (λ b, FreeBlock.start_page b ≤ p < block_end b) l.

(** The run [[start, start + len)] meets no extent of the list. *)
Definition run_disjoint (start len : Z) (l : list FreeBlock.t) : Prop :=
  Forall (λ b, start + len ≤ FreeBlock.start_page b ∨ block_end b ≤ start) l.

#[global] Instance extent_ok_dec b : Decision (extent_ok b).
Proof. unfold extent_ok. apply _. Defined.

#[global] Instance run_disjoint_dec start len l : Decision (run_disjoint start len l).
Proof. unfold run_disjoint. apply _. Defined.

(** ** Quantities of the specification *)

(** Length of the largest extent of a free list, 0 when there is none. *)
Definition largest_extent (l : list FreeBlock.t) : Z :=
  foldr Z.max 0 (FreeBlock.num_pages <$> l).

(** Sum of the lengths of the extents. *)
Definition sum_extents (l : list FreeBlock.t) : Z :=
  foldr Z.add 0 (FreeBlock.num_pages <$> l).

(** Sum of [num_pages] over the entries of the table. *)
Definition sum_entry_pages (m : gmap string CacheEntry.t) : Z :=
  foldr Z.add 0 ((λ kv, CacheEntry.num_pages kv.2) <$> map_to_list m).

(** [ceil(a / b)] for [b > 0]. *)
Definition ceil_div (a b : Z) : Z :=
  a / b + (if a mod b =? 0 then 0 else 1).

(** ** Well-formed arenas *)

(** The invariants of section 3 of the specification for one entry: its run
    is non-empty, lies inside the arena and can hold the value. *)
Definition entry_ok (e : CacheEntry.t) : Prop :=
  0 ≤ CacheEntry.start_page e
  ∧ 1 ≤ CacheEntry.num_pages e
  ∧ CacheEntry.start_page e + CacheEntry.num_pages e ≤ TOTAL_PAGES
  ∧ 0 ≤ CacheEntry.data_size e ≤ CacheEntry.num_pages e * PAGE_SIZE.

#[global] Instance entry_ok_dec e : Decision (entry_ok e).
Proof. unfold entry_ok. apply _. Defined.

(** Two entries under different keys own disjoint runs of pages. *)
Definition runs_apart (a b : string * CacheEntry.t) : Prop :=
  a.1 = b.1
  ∨ CacheEntry.start_page a.2 + CacheEntry.num_pages a.2 ≤ CacheEntry.start_page b.2
  ∨ CacheEntry.start_page b.2 + CacheEntry.num_pages b.2 ≤ CacheEntry.start_page a.2.

#[global] Instance runs_apart_dec a b : Decision (runs_apart a b).
Proof. unfold runs_apart. apply _. Defined.

Definition entries_disjoint (l : list (string * CacheEntry.t)) : Prop :=
  Forall (λ a, Forall (runs_apart a) l) l.

(** The arena has [TOTAL_PAGES] pages and the live entries are well formed
    and pairwise disjoint. *)
Definition arena_ok (st : State) : Prop :=
  length (cache st) = Z.to_nat TOTAL_PAGES
  ∧ Forall (λ kv, entry_ok kv.2) (map_to_list (entries st))
  ∧ entries_disjoint (map_to_list (entries st)).

#[global] Instance arena_ok_dec st : Decision (arena_ok st).
Proof. unfold arena_ok, entries_disjoint. apply _. Defined.

(** The sequences in which [compactMemory] may process the entries of a
    state: all entries of the table, none followed by one with a smaller
    [start_page]. *)
Definition compaction_order (st : State) (order : list (string * CacheEntry.t)) : Prop :=
  order ≡ₚ map_to_list (entries st) ∧ Sorted start_le order.

(** Pages owned by the entries of a sequence. *)
Definition sum_pages (l : list (string * CacheEntry.t)) : Z :=
  foldr Z.add 0 ((λ kv, CacheEntry.num_pages kv.2) <$> l).

(** Byte [off] of page [i] of the arena. *)
Definition byte_of (c : list Page.t) (i : nat) (off : Z) : Byte.byte :=
  match c !! i with
  | Some p => Page.data p off
  | None => Byte.x00
  end.

(** Entries in address order, each starting at or after the end of the one
    before, the first at or after [lo]. *)
Fixpoint chained (lo : Z) (l : list (string * CacheEntry.t)) : Prop :=
  match l with
  | [] => lo ≤ TOTAL_PAGES
  | kv :: rest =>
      lo ≤ CacheEntry.start_page kv.2
      ∧ entry_ok kv.2
      ∧ chained (CacheEntry.start_page kv.2 + CacheEntry.num_pages kv.2) rest
  end.

(** Two entries agree on everything but [start_page]: key, owner,
    [num_pages], [data_size] and the policy fields. *)
Definition same_metadata (e e' : CacheEntry.t) : Prop :=
  CacheEntry.key e' = CacheEntry.key e
  ∧ CacheEntry.client_id e' = CacheEntry.client_id e
  ∧ CacheEntry.num_pages e' = CacheEntry.num_pages e
  ∧ CacheEntry.data_size e' = CacheEntry.data_size e
  ∧ CacheEntry.lru_iter e' = CacheEntry.lru_iter e
  ∧ CacheEntry.insertion_order e' = CacheEntry.insertion_order e
  ∧ CacheEntry.visited e' = CacheEntry.visited e
  ∧ CacheEntry.reference_bit e' = CacheEntry.reference_bit e
  ∧ CacheEntry.clock_position e' = CacheEntry.clock_position e.

(** Every entry of the table has the page count that its size asks for. *)
Definition pages_match_size (st : State) : Prop :=
  map_Forall
    (λ _ e, CacheEntry.num_pages e = calculateRequiredPages (CacheEntry.data_size e))
    (entries st).

#[global] Instance pages_match_size_dec st : Decision (pages_match_size st).
Proof. unfold pages_match_size. apply _. Defined.

(** ** The admission sequence in the words of the specification *)

(** The fields of an extent are [size_t] values and its end is one too. *)
Definition extent_representable (b : FreeBlock.t) : Prop :=
  0 ≤ FreeBlock.start_page b ∧ 0 ≤ FreeBlock.num_pages b ∧ block_end b ≤ SIZE_MAX.

#[global] Instance extent_representable_dec b : Decision (extent_representable b).
Proof. unfold extent_representable. apply _. Defined.

(** Section 4.B, [split(extent, n)] with [extent.len ≥ n]: if equal, the
    extent is removed; otherwise it is changed in place,
    [extent.start += n; extent.len -= n]. Written over the integers. *)
Definition split_by_spec (ext : nat) (n : Z) (fl : list FreeBlock.t)
    : list FreeBlock.t :=
  match fl !! ext with
  | Some b =>
      if FreeBlock.num_pages b =? n then delete ext fl
      else <[ext := FreeBlock.mk (FreeBlock.start_page b + n)
                      (FreeBlock.num_pages b - n)]> fl
  | None => fl
  end.

(** Section 4.F, step 2 and the paragraph on commit: [s'] is [s] after the
    extent [ext] has been split by [n] and the entry committed. The free
    list is the one [split] leaves; the pages [[ext.start, ext.start + n)]
    are marked used with [block_start] the start of the run, every other
    page and all bytes are as before; the entry table maps the key to the
    new entry, which starts where the extent started, has [n] pages, a
    fresh [insertion_order] (the counter, which moves on) and cleared
    policy bits. The counter of free pages is the subject of C1 and is
    left open here, as are the policy indexes, which the callers keep. *)
Definition committed_by_spec (ext : nat) (key : string) (data_size : Z)
    (client_id : string) (n : Z) (s s' : State) : Prop :=
  ∃ b, free_list_head s !! ext = Some b
    ∧ free_list_head s' = split_by_spec ext n (free_list_head s)
    ∧ entries s'
      = <[key := CacheEntry.mk key client_id (FreeBlock.start_page b) n data_size
                   O (fifo_counter s) false false 0]> (entries s)
    ∧ fifo_counter s' = wrap (fifo_counter s + 1)
    ∧ length (cache s') = length (cache s)
    ∧ ∀ (i : nat) p, cache s !! i = Some p →
        cache s' !! i
        = Some (if bool_decide (FreeBlock.start_page b ≤ Z.of_nat i
                                < FreeBlock.start_page b + n)
                then Page.mk (Page.data p) false (FreeBlock.start_page b)
                else p).

Section AdmissionSpec.

Variable evict : Z → State → bool * State.

(** The retry of steps 3 and 4: search again and commit, or report
    [OutOfCapacity] (the result [false], the state as it is) when there is
    still no extent. [r] is the result of the whole call. *)
Definition retry_by_spec (key : string) (data_size : Z) (client_id : string)
    (n : Z) (s : State) (r : bool * State) : Prop :=
  match findBestFitBlock n (free_list_head s) with
  | Some ext => r.1 = true ∧ committed_by_spec ext key data_size client_id n s r.2
  | None => r = (false, s)
  end.

(** Step 4 of section 4.F: call [evict(n)]; if eviction fails the request
    fails; otherwise retry the best-fit search and commit, or fail if there
    is still no extent. *)
Definition admission_step4 (key : string) (data_size : Z) (client_id : string)
    (n : Z) (st : State) (r : bool * State) : Prop :=
  let e := evict n st in
  if e.1 then retry_by_spec key data_size client_id n e.2 r
  else r = (false, e.2).

(** Steps 2 to 4 of section 4.F for [n] required pages: best fit, split and
    commit; else, if [total_free_pages ≥ n], defragment with target [n],
    retry the search and fall through to step 4 if it still finds nothing;
    else step 4. [r] is the result of the whole call. *)
Definition admission_by_spec (key : string) (data_size : Z) (client_id : string)
    (n : Z) (st : State) (r : bool * State) : Prop :=
  match findBestFitBlock n (free_list_head st) with
  | Some ext => r.1 = true ∧ committed_by_spec ext key data_size client_id n st r.2
  | None =>
      if n <=? total_free_pages st then
        let d := defragment n st in
        match findBestFitBlock n (free_list_head d.2) with
        | Some ext =>
            r.1 = true ∧ committed_by_spec ext key data_size client_id n d.2 r.2
        | None => admission_step4 key data_size client_id n d.2 r
        end
      else admission_step4 key data_size client_id n st r
  end.

End AdmissionSpec.

(** The state that [allocatePages] hands to [evict] when the first search
    finds nothing and defragmentation, if it is tried, does not help. *)
Definition state_before_eviction (n : Z) (st : State) : State :=
  if n <=? total_free_pages st then (defragment n st).2 else st.

(** ** A model of deletion and eviction *)

(** Modelled from the spec: the body of [deleteKey] is not among the source
    files. Section 3: an entry dies in [delete] or on eviction; its pages
    go back to the allocator and it leaves the entry table. *)
Definition release_entry (key : string) (st : State) : State :=
  let st := freePages key st in
  set_entries st (delete key (entries st)).

Definition insertion_le (a b : string * CacheEntry.t) : Prop :=
  CacheEntry.insertion_order a.2 ≤ CacheEntry.insertion_order b.2.

#[global] Instance insertion_le_dec a b : Decision (insertion_le a b).
Proof. unfold insertion_le. apply _. Defined.

(** The live entry with the smallest [insertion_order]. *)
Definition fifo_victim (m : gmap string CacheEntry.t) : option string :=
  fst <$> head (merge_sort insertion_le (map_to_list m)).

(** Modelled from the spec: the bodies of [evict] and of the policy functions
    are not among the source files. Section 4.D: [evict(required)] removes
    live entries until [total_free_pages ≥ required], or reports failure when
    no entry is live; under FIFO the victim is the entry with the smallest
    [insertion_order]; the pages of a victim are freed and it leaves the
    entry table. [fuel] bounds the number of victims by the number of
    entries. *)
Fixpoint evict_fifo (fuel : nat) (required_pages : Z) (st : State) : bool * State :=
  if required_pages <=? total_free_pages st then (true, st)
  else
    match fuel with
    | O => (false, st)
    | S fuel =>
        match fifo_victim (entries st) with
        | None => (false, st)
        | Some k =>
            let st := release_entry k st in
            let st := set_stats st (CacheStats.incr_evictions (stats st)) in
            evict_fifo fuel required_pages st
        end
    end.

Definition evict_model (required_pages : Z) (st : State) : bool * State :=
  evict_fifo (size (entries st)) required_pages st.

(** ** Tactics *)

(** Closed decidable facts are settled by evaluation. *)
Ltac by_compute :=
  match goal with
  | |- ?P => apply (@bool_decide_unpack P _); vm_compute; exact I
  end.

(** ** Example states *)

(** An arena whose free list is [(0,2); (5,3)]: pages 2 to 4 are in use. *)
Definition hole_state : State :=
  set_free_list (initializeCache LRU) [FreeBlock.mk 0 2; FreeBlock.mk 5 3] 5.

(** One value of one byte stored under the key [k] in a fresh cache. *)
Definition one_entry_state : State :=
  (allocatePages evict_model "k" 1 "c" (initializeCache FIFO)).2.

(** A fragmented arena: A took pages 0 to 3 and was deleted, B owns page 4
    behind the hole and its value is the three bytes 1, 2, 3. *)
Definition fragmented_state : State :=
  let s := (allocatePages evict_model "A" (4 * PAGE_SIZE) "c" (initializeCache FIFO)).2 in
  let s := (allocatePages evict_model "B" 3 "c" s).2 in
  let s := writeToPages s 4 [Byte.x01; Byte.x02; Byte.x03] in
  release_entry "A" s.

(** The entry of B in [fragmented_state]. *)
Definition entry_B : CacheEntry.t :=
  CacheEntry.mk "B" "c" 4 1 3 O 1 false false 0.

(** The fourth scenario of the specification on the full arena: A, B and C
    fill the arena, then A and C are deleted, which leaves the extents
    [(0,4)] and [(5,2555)] around B. *)
Definition scenario_state : State :=
  let s := (allocatePages evict_model "A" (4 * PAGE_SIZE) "c" (initializeCache FIFO)).2 in
  let s := (allocatePages evict_model "B" 3 "c" s).2 in
  let s := (allocatePages evict_model "C" (2555 * PAGE_SIZE) "c" s).2 in
  release_entry "C" (release_entry "A" s).

(** A value of zero bytes stored under the key [z] in a fresh cache: the
    entry has no page and the free list is still the whole arena. *)
Definition zero_page_state : State :=
  (allocatePages evict_model "z" 0 "c" (initializeCache FIFO)).2.


(** A full arena: after [k], a value of [TOTAL_PAGES] pages stored under
    [big], for which [k] had to be evicted. *)
Definition full_state : State :=
  (allocatePages evict_model "big" (TOTAL_PAGES * PAGE_SIZE) "c" one_entry_state).2.

(** The counter of free pages is the sum of the lengths of the extents. *)
Definition counter_exact (st : State) : Prop :=
  total_free_pages st = sum_extents (free_list_head st).

#[global] Instance counter_exact_dec st : Decision (counter_exact st).
Proof. unfold counter_exact. apply _. Defined.

(** ** Well-formed states *)

(** The invariants of the allocator taken together: the arena is well
    formed, the free list is sorted and coalesced, its extents are
    non-empty and lie inside the arena, and no extent meets the run of a
    live entry. *)
Definition well_formed (st : State) : Prop :=
  arena_ok st
  ∧ sorted_coalesced (free_list_head st)
  ∧ Forall extent_ok (free_list_head st)
  ∧ Forall (λ b, block_end b ≤ TOTAL_PAGES) (free_list_head st)
  ∧ Forall (λ kv, run_disjoint (CacheEntry.start_page kv.2) (CacheEntry.num_pages kv.2)
                    (free_list_head st))
      (map_to_list (entries st)).

#[global] Instance well_formed_dec st : Decision (well_formed st).
Proof. unfold well_formed. apply _. Defined.

(** * Properties *)

(** ** Best-fit search *)

Section BestFit.

Implicit Types (fl l : list FreeBlock.t) (n : Z).

(** What the scan returns from a node on, given the best candidate so far. *)
Lemma findBestFit_scan_spec n l idx best bs :
  (findBestFit_scan n l idx best bs = (best, (idx + length l)%nat)
   ∧ ∀ b, b ∈ l → ¬ (n ≤ FreeBlock.num_pages b < bs))
  ∨ ∃ j b,
      findBestFit_scan n l idx best bs =
        (Some (idx + j)%nat,
         if FreeBlock.num_pages b =? n then S (idx + j) else (idx + length l)%nat)
      ∧ l !! j = Some b
      ∧ n ≤ FreeBlock.num_pages b < bs
      ∧ (∀ j' b', l !! j' = Some b' → n ≤ FreeBlock.num_pages b' →
           FreeBlock.num_pages b ≤ FreeBlock.num_pages b'
           ∧ (FreeBlock.num_pages b' = FreeBlock.num_pages b → (j ≤ j')%nat)).
Proof.
  revert idx best bs. induction l as [|blk next IH]; intros idx best bs.
  - left. simpl. split; [by rewrite Nat.add_0_r | intros b Hb; by apply elem_of_nil in Hb].
  - simpl.
    destruct (n <=? FreeBlock.num_pages blk) eqn:Hge; simpl.
    2:{ (* too small: skipped *)
      apply Z.leb_gt in Hge.
      destruct (IH (S idx) best bs) as [[Heq Hnone] | (j & b & Heq & Hj & Hb & Hmin)].
      - left. rewrite Heq. split; [f_equal; lia |].
        intros b [-> | Hb]%elem_of_cons; [lia | by apply Hnone].
      - right. exists (S j), b. rewrite Heq.
        split; [f_equal; [f_equal; lia | destruct (_ =? _); lia] |].
        split; [done |]. split; [done |].
        intros [|j'] b' Hj' Hn'; simpl in Hj'.
        + simplify_eq. lia.
        + destruct (Hmin j' b' Hj' Hn'). split; [done | lia]. }
    apply Z.leb_le in Hge.
    destruct (FreeBlock.num_pages blk <? bs) eqn:Hlt; simpl.
    2:{ (* not better than the candidate: skipped *)
      apply Z.ltb_ge in Hlt.
      destruct (IH (S idx) best bs) as [[Heq Hnone] | (j & b & Heq & Hj & Hb & Hmin)].
      - left. rewrite Heq. split; [f_equal; lia |].
        intros b [-> | Hb]%elem_of_cons; [lia | by apply Hnone].
      - right. exists (S j), b. rewrite Heq.
        split; [f_equal; [f_equal; lia | destruct (_ =? _); lia] |].
        split; [done |]. split; [done |].
        intros [|j'] b' Hj' Hn'; simpl in Hj'.
        + simplify_eq. lia.
        + destruct (Hmin j' b' Hj' Hn'). split; [done | lia]. }
    apply Z.ltb_lt in Hlt.
    destruct (FreeBlock.num_pages blk =? n) eqn:Hex.
    + (* exact fit: the loop is left *)
      apply Z.eqb_eq in Hex. right. exists O, blk.
      rewrite (proj2 (Z.eqb_eq _ _) Hex).
      split; [f_equal; [f_equal; lia | lia] |].
      split; [done |]. split; [lia |].
      intros j' b' _ Hn'. split; lia.
    + (* a better candidate *)
      apply Z.eqb_neq in Hex.
      destruct (IH (S idx) (Some idx) (FreeBlock.num_pages blk))
        as [[Heq Hnone] | (j & b & Heq & Hj & Hb & Hmin)].
      * right. exists O, blk. rewrite Heq.
        rewrite (proj2 (Z.eqb_neq _ _) Hex).
        split; [f_equal; [f_equal; lia | lia] |].
        split; [done |]. split; [lia |].
        intros [|j'] b' Hj' Hn'; simpl in Hj'.
        -- simplify_eq. lia.
        -- assert (b' ∈ next) as Hin by (by eapply list_elem_of_lookup_2).
           specialize (Hnone b' Hin). split; lia.
      * right. exists (S j), b. rewrite Heq.
        split; [f_equal; [f_equal; lia | destruct (_ =? _); lia] |].
        split; [done |]. split; [lia |].
        intros [|j'] b' Hj' Hn'; simpl in Hj'.
        -- simplify_eq. lia.
        -- destruct (Hmin j' b' Hj' Hn'). split; [done | lia].
Qed.

(** C3. On a free list whose extents are shorter than [SIZE_MAX] pages (every
    extent of the arena is), [findBestFitBlock n] returns no block exactly
    when no extent has [n] pages or more; a block it returns has at least [n]
    pages, no extent with at least [n] pages is shorter, and among the
    extents of that length it is the first of the list. When the block is
    an exact fit the scan stopped at it, and a list without an exact fit is
    scanned to its end. *)
Theorem findBestFitBlock_smallest_fit fl n :
  Forall (λ b, FreeBlock.num_pages b < SIZE_MAX) fl →
  (findBestFitBlock n fl = None ↔ ∀ b, b ∈ fl → FreeBlock.num_pages b < n)
  ∧ (∀ i, findBestFitBlock n fl = Some i →
       ∃ b, fl !! i = Some b
         ∧ n ≤ FreeBlock.num_pages b
         ∧ (∀ j b', fl !! j = Some b' → n ≤ FreeBlock.num_pages b' →
              FreeBlock.num_pages b ≤ FreeBlock.num_pages b'
              ∧ (FreeBlock.num_pages b' = FreeBlock.num_pages b → (i ≤ j)%nat))
         ∧ (FreeBlock.num_pages b = n → findBestFit_visited n fl = S i))
  ∧ ((∀ b, b ∈ fl → FreeBlock.num_pages b ≠ n) →
       findBestFit_visited n fl = length fl).
Proof.
  intros Hmax. unfold findBestFitBlock, findBestFit_visited.
  rewrite Forall_forall in Hmax.
  destruct (findBestFit_scan_spec n fl O None SIZE_MAX)
    as [[Heq Hnone] | (j & b & Heq & Hj & Hb & Hmin)]; rewrite Heq; simpl.
  - split; [| split].
    + split; [| done]. intros _ b Hb.
      specialize (Hnone b Hb). specialize (Hmax b Hb). simpl in Hmax. lia.
    + intros i Hi. discriminate.
    + done.
  - split; [| split].
    + split; [discriminate |]. intros Hall.
      assert (b ∈ fl) as Hin by (by eapply list_elem_of_lookup_2).
      specialize (Hall b Hin). lia.
    + intros i Hi. injection Hi as <-. exists b.
      split; [done |]. split; [lia |]. split; [done |].
      intros Hex. by rewrite (proj2 (Z.eqb_eq _ _) Hex).
    + intros Hnoex.
      assert (b ∈ fl) as Hin by (by eapply list_elem_of_lookup_2).
      specialize (Hnoex b Hin). by rewrite (proj2 (Z.eqb_neq _ _) Hnoex).
Qed.

(** The first scenario of the specification: in [(0,2); (3,5); (9,1)] a
    request for two pages takes the extent at page 0 and looks no further. *)
Lemma findBestFitBlock_smallest_fit_witness :
  findBestFitBlock 2 [FreeBlock.mk 0 2; FreeBlock.mk 3 5; FreeBlock.mk 9 1] = Some O
  ∧ ∃ b, [FreeBlock.mk 0 2; FreeBlock.mk 3 5; FreeBlock.mk 9 1] !! O = Some b
      ∧ FreeBlock.num_pages b = 2
      ∧ findBestFit_visited 2 [FreeBlock.mk 0 2; FreeBlock.mk 3 5; FreeBlock.mk 9 1] = 1%nat.
Proof.
  split; [reflexivity |].
  destruct (findBestFitBlock_smallest_fit
              [FreeBlock.mk 0 2; FreeBlock.mk 3 5; FreeBlock.mk 9 1] 2)
    as (_ & Hsome & _).
  { repeat constructor. }
  destruct (Hsome O eq_refl) as (b & Hb & Hn & Hmin & Hvis).
  exists b. injection Hb as <-. split; [reflexivity |].
  split; [reflexivity |]. apply Hvis. reflexivity.
Defined.

End BestFit.

(** ** Sorted insertion with coalescing *)

Section Insertion.

Implicit Types (fl l pre post : list FreeBlock.t) (a b : FreeBlock.t).

Lemma wrap_small x : 0 ≤ x ≤ SIZE_MAX → wrap x = x.
Proof. intros H. unfold wrap. apply Z.mod_small. unfold SIZE_MAX in *. lia. Qed.

Lemma sorted_coalesced_app l1 l2 :
  sorted_coalesced (l1 ++ l2) ↔
    sorted_coalesced l1 ∧ sorted_coalesced l2
    ∧ (∀ a b, last l1 = Some a → head l2 = Some b →
         block_end a < FreeBlock.start_page b).
Proof.
  induction l1 as [|x l1 IH].
  - simpl. split; [intros H; split_and!; [done | done | intros ?? [=]] | tauto].
  - destruct l1 as [|y l1].
    + destruct l2 as [|z l2]; simpl.
      * split; [intros _; split_and!; [done | done | done | intros ??? [=]] | tauto].
      * split.
        -- intros [Hx Hs]. split_and!; [done | done | tauto | tauto |].
           by intros a b [= <-] [= <-].
        -- intros (_ & Hs & Hl). split; [by apply Hl | done].
    + change (sorted_coalesced ((x :: y :: l1) ++ l2))
        with (block_end x < FreeBlock.start_page y
              ∧ sorted_coalesced ((y :: l1) ++ l2)).
      change (sorted_coalesced (x :: y :: l1))
        with (block_end x < FreeBlock.start_page y ∧ sorted_coalesced (y :: l1)).
      change (last (x :: y :: l1)) with (last (y :: l1)).
      rewrite IH. tauto.
Qed.

Lemma covers_app l1 l2 p : covers (l1 ++ l2) p ↔ covers l1 p ∨ covers l2 p.
Proof. apply Exists_app. Qed.

Lemma covers_cons b l p :
  covers (b :: l) p ↔ FreeBlock.start_page b ≤ p < block_end b ∨ covers l p.
Proof. apply Exists_cons. Qed.

Lemma covers_nil p : covers [] p ↔ False.
Proof. apply Exists_nil. Qed.

(** The nodes before the insertion point start no later than the new run,
    the node at the insertion point starts no earlier. *)
Lemma insert_after_scan_spec start rest idx :
  ∃ k, insert_after_scan start rest idx = (idx + k)%nat
     ∧ (k ≤ length rest)%nat
     ∧ Forall (λ b, FreeBlock.start_page b < start) (take k rest)
     ∧ (∀ b, head (drop k rest) = Some b → start ≤ FreeBlock.start_page b).
Proof.
  revert idx. induction rest as [|nb rest IH]; intros idx; simpl.
  - exists O. split_and!; [lia | simpl; lia | constructor | intros ? [=]].
  - destruct (FreeBlock.start_page nb <? start) eqn:Hlt.
    + apply Z.ltb_lt in Hlt. destruct (IH (S idx)) as (k & Hk & Hlen & Hpre & Hpost).
      exists (S k). split_and!; [lia | simpl; lia | by constructor | done].
    + apply Z.ltb_ge in Hlt. exists O.
      split_and!; [lia | simpl; lia | constructor |].
      intros b [= <-]. done.
Qed.

Lemma insert_position_spec start fl :
  (insert_position start fl ≤ length fl)%nat
  ∧ Forall (λ b, FreeBlock.start_page b ≤ start) (take (insert_position start fl) fl)
  ∧ (∀ b, head (drop (insert_position start fl) fl) = Some b →
       start ≤ FreeBlock.start_page b).
Proof.
  destruct fl as [|hd rest]; simpl.
  - split_and!; [lia | constructor | intros ? [=]].
  - destruct (start <? FreeBlock.start_page hd) eqn:Hlt.
    + apply Z.ltb_lt in Hlt. split_and!; [lia | constructor |].
      intros b [= <-]. lia.
    + apply Z.ltb_ge in Hlt.
      destruct (insert_after_scan_spec start rest O) as (k & -> & Hlen & Hpre & Hpost).
      simpl. split_and!; [lia | | done].
      constructor; [done |]. eapply Forall_impl; [exact Hpre |]. simpl. lia.
Qed.

Lemma coalesce_next_cons i a l :
  coalesce_next (S i) (a :: l) = a :: coalesce_next i l.
Proof.
  unfold coalesce_next. simpl.
  destruct (l !! i) as [b|]; [| done].
  destruct (l !! S i) as [nb|]; [| done].
  by destruct (_ =? _).
Qed.

Lemma coalesce_next_middle pre b post :
  coalesce_next (length pre) (pre ++ b :: post) =
    pre ++
      match post with
      | nb :: post' =>
          if wrap (block_end b) =? FreeBlock.start_page nb
          then FreeBlock.mk (FreeBlock.start_page b)
                 (wrap (FreeBlock.num_pages b + FreeBlock.num_pages nb)) :: post'
          else b :: post
      | [] => [b]
      end.
Proof.
  induction pre as [|x pre IH]; simpl.
  - unfold coalesce_next. simpl. destruct post as [|nb post']; simpl; [done |].
    unfold block_end. by destruct (_ =? _).
  - by rewrite coalesce_next_cons, IH.
Qed.

Lemma coalesce_prev_cons p a l :
  coalesce_prev (S (S p)) (a :: l) = a :: coalesce_prev (S p) l.
Proof.
  simpl. destruct (l !! p) as [pb|]; [| done].
  destruct (l !! S p) as [b|]; [| done].
  by destruct (_ =? _).
Qed.

Lemma coalesce_prev_middle pre a b post :
  coalesce_prev (S (length pre)) (pre ++ a :: b :: post) =
    pre ++
      (if wrap (block_end a) =? FreeBlock.start_page b
       then FreeBlock.mk (FreeBlock.start_page a)
              (wrap (FreeBlock.num_pages a + FreeBlock.num_pages b)) :: post
       else a :: b :: post).
Proof.
  induction pre as [|x pre IH].
  - simpl. unfold block_end. by destruct (_ =? _).
  - change (length (x :: pre)) with (S (length pre)).
    rewrite <- !app_comm_cons. by rewrite coalesce_prev_cons, IH.
Qed.

Lemma sorted_coalesced_tail a l : sorted_coalesced (a :: l) → sorted_coalesced l.
Proof. simpl. tauto. Qed.

(** Merging the new run with its successor. *)
Lemma coalesce_next_ok start len post :
  0 ≤ start → 1 ≤ len → start + len ≤ SIZE_MAX →
  sorted_coalesced post → Forall extent_ok post →
  (∀ b, head post = Some b → start + len ≤ FreeBlock.start_page b) →
  ∃ m post',
    match post with
    | nb :: rest =>
        if wrap (block_end (FreeBlock.mk start len)) =? FreeBlock.start_page nb
        then FreeBlock.mk start (wrap (len + FreeBlock.num_pages nb)) :: rest
        else FreeBlock.mk start len :: post
    | [] => [FreeBlock.mk start len]
    end = m :: post'
    ∧ FreeBlock.start_page m = start
    ∧ extent_ok m
    ∧ sorted_coalesced (m :: post')
    ∧ Forall extent_ok post'
    ∧ (∀ p, covers (m :: post') p ↔ start ≤ p < start + len ∨ covers post p).
Proof.
  intros Hs Hl Hmax Hsc Hok Hhd.
  destruct post as [|nb rest].
  - eexists _, _. split; [reflexivity |]. split; [done |].
    split; [unfold extent_ok, block_end; simpl; lia |].
    split; [done |]. split; [done |].
    intros p. rewrite covers_cons, covers_nil. unfold block_end. simpl. tauto.
  - specialize (Hhd nb eq_refl).
    apply Forall_cons in Hok as [(Hnb0 & Hnb1 & Hnb2) Hok]. unfold block_end in *.
    simpl. rewrite wrap_small by lia.
    destruct (start + len =? FreeBlock.start_page nb) eqn:Hadj.
    + apply Z.eqb_eq in Hadj.
      eexists _, _. split; [reflexivity |]. rewrite wrap_small by lia.
      split; [done |].
      split; [unfold extent_ok, block_end; simpl; lia |].
      split; [| split; [done |]].
      * destruct rest as [|c rest]; [done |]. simpl in *. unfold block_end in *.
        simpl. split; [lia | tauto].
      * intros p. rewrite !covers_cons. unfold block_end. simpl.
        split; [intros [H|H] | intros [H|[H|H]]]; auto; try lia.
    + apply Z.eqb_neq in Hadj.
      eexists _, _. split; [reflexivity |]. split; [done |].
      split; [unfold extent_ok, block_end; simpl; lia |].
      split; [| split; [by constructor |]].
      * split; [unfold block_end; simpl; lia | done].
      * intros p. rewrite !covers_cons. unfold block_end. simpl. tauto.
Qed.

(** Merging the run, already merged with its successor, into its
    predecessor. *)
Lemma coalesce_prev_ok pre a m post :
  sorted_coalesced (pre ++ [a]) → Forall extent_ok (pre ++ [a]) →
  extent_ok m → sorted_coalesced (m :: post) → Forall extent_ok post →
  block_end a ≤ FreeBlock.start_page m →
  let r :=
    pre ++
      (if wrap (block_end a) =? FreeBlock.start_page m
       then FreeBlock.mk (FreeBlock.start_page a)
              (wrap (FreeBlock.num_pages a + FreeBlock.num_pages m)) :: post
       else a :: m :: post) in
  sorted_coalesced r ∧ Forall extent_ok r
  ∧ (∀ p, covers r p ↔ covers (pre ++ [a]) p ∨ covers (m :: post) p).
Proof.
  intros Hsc Hok (Hm0 & Hm1 & Hm2) Hscm Hokp Hle r. subst r.
  apply Forall_app in Hok as [Hokpre Hoka].
  apply Forall_cons in Hoka as [(Ha0 & Ha1 & Ha2) _].
  apply sorted_coalesced_app in Hsc as (Hscpre & _ & Hlast).
  unfold block_end in *. rewrite wrap_small by lia.
  destruct (_ =? _) eqn:Hadj.
  - apply Z.eqb_eq in Hadj. rewrite wrap_small by lia.
    split; [| split].
    + apply sorted_coalesced_app. split; [done |]. split.
      * destruct post as [|c post]; [done |]. simpl in *. unfold block_end in *.
        simpl. split; [lia | tauto].
      * intros x y Hx [= <-]. simpl. by apply (Hlast x a).
    + apply Forall_app. split; [done |]. constructor; [| done].
      unfold extent_ok, block_end. simpl. lia.
    + intros p. rewrite !covers_app, !covers_cons, covers_nil.
      unfold block_end. simpl.
      split; [intros [H|[H|H]] | intros [[H|[H|[]]]|[H|H]]]; auto; try (right; left; lia).
      destruct (decide (p < FreeBlock.start_page m));
        [left; right; left; lia | right; left; lia].
  - apply Z.eqb_neq in Hadj.
    split; [| split].
    + apply sorted_coalesced_app. split; [done |]. split.
      * split; [unfold block_end; lia | done].
      * intros x y Hx [= <-]. by apply (Hlast x a).
    + apply Forall_app. split; [done |]. constructor; [done |].
      constructor; [done | done].
    + intros p. rewrite !covers_app, !covers_cons, covers_nil. tauto.
Qed.

(** The free list that [addToFreeList] leaves. *)
Lemma addToFreeList_free_list start len st :
  free_list_head (addToFreeList start len st) =
    coalesce_prev (insert_position start (free_list_head st))
      (coalesce_next (insert_position start (free_list_head st))
         (link_at (insert_position start (free_list_head st))
            (FreeBlock.mk start len) (free_list_head st))).
Proof. reflexivity. Qed.

Lemma insert_free_ok start len fl :
  sorted_coalesced fl → Forall extent_ok fl →
  0 ≤ start → 1 ≤ len → start + len ≤ SIZE_MAX →
  run_disjoint start len fl →
  let r := coalesce_prev (insert_position start fl)
             (coalesce_next (insert_position start fl)
                (link_at (insert_position start fl) (FreeBlock.mk start len) fl)) in
  sorted_coalesced r ∧ Forall extent_ok r
  ∧ (∀ p, covers r p ↔ covers fl p ∨ start ≤ p < start + len).
Proof.
  intros Hsc Hok Hs Hl Hmax Hdis r. subst r.
  destruct (insert_position_spec start fl) as (Hpos & Hpre & Hpost).
  set (pos := insert_position start fl) in *.
  unfold link_at.
  assert (length (take pos fl) = pos) as Hlen by (rewrite length_take; lia).
  pose proof (take_drop pos fl) as Hfl.
  set (pre := take pos fl) in *. set (post := drop pos fl) in *.
  rewrite <- Hfl in Hsc, Hok, Hdis |- *. clear Hfl Hpos.
  clearbody pre post pos. subst pos.
  apply sorted_coalesced_app in Hsc as (Hscpre & Hscpost & Hmid).
  apply Forall_app in Hok as [Hokpre Hokpost].
  apply Forall_app in Hdis as [Hdispre Hdispost].
  rewrite coalesce_next_middle.
  cbn [FreeBlock.start_page FreeBlock.num_pages].
  (* the node after the new one lies above the run *)
  assert (∀ b, head post = Some b → start + len ≤ FreeBlock.start_page b) as Hhd.
  { intros b Hb. specialize (Hpost b Hb). destruct post as [|nb rest]; [done |].
    injection Hb as ->.
    apply Forall_cons in Hdispost as [Hd _]. apply Forall_cons in Hokpost as [Ho _].
    destruct Ho as (? & ? & ?). unfold block_end in *. lia. }
  destruct (coalesce_next_ok start len post Hs Hl Hmax Hscpost Hokpost Hhd)
    as (m & post' & -> & Hms & Hmok & Hscm & Hokp' & Hcovm).
  destruct pre as [|a pre' _] using rev_ind.
  - (* inserted at the head: there is no predecessor *)
    simpl.
    split; [done |]. split; [by constructor |].
    intros p. rewrite Hcovm. tauto.
  - assert (block_end a ≤ FreeBlock.start_page m) as Hle.
    { rewrite Hms.
      apply Forall_app in Hpre as [_ [Ha _]%Forall_cons].
      apply Forall_app in Hdispre as [_ [Hd _]%Forall_cons].
      apply Forall_app in Hokpre as [_ [(? & ? & ?) _]%Forall_cons].
      unfold block_end in *. lia. }
    rewrite length_app. cbn [length]. rewrite Nat.add_1_r.
    rewrite <- app_assoc. cbn [app].
    rewrite coalesce_prev_middle.
    destruct (coalesce_prev_ok pre' a m post' Hscpre Hokpre Hmok Hscm Hokp' Hle)
      as (Hr1 & Hr2 & Hr3).
    split; [done |]. split; [done |].
    intros p. rewrite Hr3, Hcovm, !covers_app. tauto.
Qed.

(** C7. If the free list is sorted and coalesced (for adjacent extents [a]
    then [b], [a.start + a.len < b.start]) and consists of non-empty
    extents, then after [addToFreeList start len] of a non-empty run that
    meets none of them the free list is again sorted and coalesced, consists
    of non-empty extents, and covers exactly the pages it covered before
    together with the pages of the run: the run was linked at its sorted
    position and merged with the successor and the predecessor it touches.
    For a run of length 0 the invariant is lost. *)
Theorem addToFreeList_sorted_coalesced st start len :
  sorted_coalesced (free_list_head st) →
  Forall extent_ok (free_list_head st) →
  0 ≤ start → 1 ≤ len → start + len ≤ SIZE_MAX →
  run_disjoint start len (free_list_head st) →
  sorted_coalesced (free_list_head (addToFreeList start len st))
  ∧ Forall extent_ok (free_list_head (addToFreeList start len st))
  ∧ (∀ p, covers (free_list_head (addToFreeList start len st)) p
          ↔ covers (free_list_head st) p ∨ start ≤ p < start + len).
Proof.
  intros Hsc Hok Hs Hl Hmax Hdis. rewrite addToFreeList_free_list.
  by apply insert_free_ok.
Qed.

(** Freeing pages 2 to 4 of [hole_state] closes the hole between the two
    extents: both neighbours are merged into one extent [(0,8)]. *)
Lemma addToFreeList_sorted_coalesced_witness :
  sorted_coalesced (free_list_head hole_state)
  ∧ free_list_head (addToFreeList 2 3 hole_state) = [FreeBlock.mk 0 8]
  ∧ sorted_coalesced (free_list_head (addToFreeList 2 3 hole_state))
  ∧ (covers (free_list_head (addToFreeList 2 3 hole_state)) 3
     ↔ covers (free_list_head hole_state) 3 ∨ 2 ≤ 3 < 2 + 3).
Proof.
  assert (sorted_coalesced (free_list_head hole_state)) as Hsc by by_compute.
  destruct (addToFreeList_sorted_coalesced hole_state 2 3) as (H1 & H2 & H3);
    [by_compute .. |].
  split; [exact Hsc |]. split; [vm_compute; reflexivity |].
  split; [exact H1 | exact (H3 3)].
Defined.

(** In [zero_page_state] the free list is the whole arena as one extent,
    sorted and coalesced, and the entry of [z] has no page. [freePages]
    of [z] calls [addToFreeList(0, 0)]; the run of length 0 meets no
    extent, is linked behind the extent that starts at the same page and
    merged with nothing: the list is no longer sorted and coalesced. *)
Lemma zero_length_run_breaks_order :
  sorted_coalesced (free_list_head zero_page_state)
  ∧ Forall extent_ok (free_list_head zero_page_state)
  ∧ run_disjoint 0 0 (free_list_head zero_page_state)
  ∧ (∃ e, entries zero_page_state !! "z" = Some e
        ∧ CacheEntry.start_page e = 0 ∧ CacheEntry.num_pages e = 0)
  ∧ free_list_head (freePages "z" zero_page_state)
    = free_list_head (addToFreeList 0 0 zero_page_state)
  ∧ free_list_head (addToFreeList 0 0 zero_page_state)
    = [FreeBlock.mk 0 TOTAL_PAGES; FreeBlock.mk 0 0]
  ∧ ¬ sorted_coalesced (free_list_head (addToFreeList 0 0 zero_page_state)).
Proof.
  split; [by_compute |]. split; [by_compute |]. split; [by_compute |].
  split; [eexists; split; [vm_compute; reflexivity | split; reflexivity] |].
  split; [vm_compute; reflexivity |]. split; [vm_compute; reflexivity |].
  by_compute.
Qed.

End Insertion.

(** ** The outcome of defragmentation *)

Section Defragment.

Implicit Types (l : list FreeBlock.t) (st : State).

Lemma largest_extent_cons b l :
  largest_extent (b :: l) = Z.max (FreeBlock.num_pages b) (largest_extent l).
Proof. reflexivity. Qed.

Lemma largest_extent_nonneg l : 0 ≤ largest_extent l.
Proof. induction l as [|b l IH]; [done |]. rewrite largest_extent_cons. lia. Qed.

Lemma fragStats_scan_largest l count largest :
  0 ≤ largest →
  (fragStats_scan l count largest).2 = Z.max largest (largest_extent l).
Proof.
  revert count largest. induction l as [|b l IH]; intros count largest Hpos; simpl.
  - change (largest_extent []) with 0. lia.
  - rewrite largest_extent_cons.
    destruct (largest <? FreeBlock.num_pages b) eqn:Hlt;
      [apply Z.ltb_lt in Hlt | apply Z.ltb_ge in Hlt];
      rewrite IH by lia; lia.
Qed.

Lemma largest_extent_upper l b :
  b ∈ l → FreeBlock.num_pages b ≤ largest_extent l.
Proof.
  induction l as [|x l IH].
  - intros H. by apply elem_of_nil in H.
  - rewrite largest_extent_cons.
    intros [-> | H]%elem_of_cons; [lia |]. specialize (IH H). lia.
Qed.

Lemma largest_extent_attained l :
  largest_extent l = 0 ∨ ∃ b, b ∈ l ∧ FreeBlock.num_pages b = largest_extent l.
Proof.
  induction l as [|x l IH]; [by left |]. rewrite largest_extent_cons.
  destruct (Z.max_spec (FreeBlock.num_pages x) (largest_extent l))
    as [[Hlt ->] | [Hle ->]].
  - destruct IH as [IH | (b & Hb & Hn)]; [by left |].
    right. exists b. split; [by apply elem_of_cons; right | done].
  - right. exists x. split; [apply elem_of_cons; by left | done].
Qed.

Lemma getFragmentationStats_largest st :
  FragmentationStats.largest_free_block (getFragmentationStats st)
  = largest_extent (free_list_head st).
Proof.
  unfold getFragmentationStats. simpl. rewrite fragStats_scan_largest by lia.
  pose proof (largest_extent_nonneg (free_list_head st)). lia.
Qed.

(** C6. [defragment n] compacts the arena (after counting the run in the
    statistics) and returns true exactly when the largest free extent of the
    compacted state has at least [n] pages. *)
Theorem defragment_success_criterion n st :
  (defragment n st).2
    = compactMemory (set_stats st (CacheStats.incr_defragmentations (stats st)))
  ∧ ((defragment n st).1 = true
     ↔ n ≤ largest_extent (free_list_head (defragment n st).2)).
Proof.
  split; [reflexivity |].
  unfold defragment. cbn [fst snd].
  rewrite getFragmentationStats_largest. apply Z.leb_le.
Qed.

End Defragment.

(** ** Accounting of free pages *)

Section Accounting.

Implicit Types (st : State).

(** Shortening a block in place leaves the counter of free pages as it
    was, although the block has lost [n] pages. *)
Lemma splitBlock_larger_counter block n st b :
  free_list_head st !! block = Some b →
  FreeBlock.num_pages b ≠ n →
  total_free_pages (splitBlock block n st) = total_free_pages st
  ∧ free_list_head (splitBlock block n st)
    = <[block := FreeBlock.mk (wrap (FreeBlock.start_page b + n))
                   (wrap (FreeBlock.num_pages b - n))]> (free_list_head st).
Proof.
  intros Hb Hne. unfold splitBlock. rewrite Hb.
  by rewrite (proj2 (Z.eqb_neq _ _) Hne).
Qed.

(** C1. The first allocation in a fresh cache, one byte, takes one page from
    the extent of [TOTAL_PAGES] pages by shortening it: the free list then
    holds [TOTAL_PAGES - 1] pages, but the counter still says [TOTAL_PAGES],
    so the counter is not the sum of the extent lengths, it was not
    decreased by the allocated page, and counter plus allocated pages
    exceeds [TOTAL_PAGES]. *)
Theorem allocatePages_split_counter_stale
    (evict : Z → State → bool * State) (p : EvictionPolicy) :
  let r := allocatePages evict "k" 1 "c" (initializeCache p) in
  r.1 = true
  ∧ free_list_head r.2 = [FreeBlock.mk 1 (TOTAL_PAGES - 1)]
  ∧ sum_extents (free_list_head r.2) = TOTAL_PAGES - 1
  ∧ total_free_pages r.2 = TOTAL_PAGES
  ∧ total_free_pages r.2 ≠ total_free_pages (initializeCache p) - 1
  ∧ sum_entry_pages (entries r.2) = 1
  ∧ total_free_pages r.2 + sum_entry_pages (entries r.2) = TOTAL_PAGES + 1.
Proof. vm_compute. repeat split; discriminate. Qed.

End Accounting.

(** ** Freeing the pages of an entry *)

Section FreePages.

Implicit Types (st : State).

Lemma TOTAL_PAGES_value : TOTAL_PAGES = 2560.
Proof. reflexivity. Qed.

Lemma wrap_arena x : 0 ≤ x ≤ TOTAL_PAGES → wrap x = x.
Proof.
  intros H. apply wrap_small. rewrite TOTAL_PAGES_value in H.
  unfold SIZE_MAX. lia.
Qed.

Lemma mark_free_lookup first limit (c : list Page.t) (i : nat) :
  mark_free first limit c !! i
  = (λ p, if (first <=? Z.of_nat i) && (Z.of_nat i <? limit)
          then Page.mk (Page.data p) true (Page.block_start p) else p)
      <$> c !! i.
Proof. unfold mark_free. apply list_lookup_imap. Qed.

(** C10. [freePages] of a key that is not in the entry table returns the
    state as it was. For a key that is there, with its run inside the arena,
    the entry table is unchanged (the entry is still in it), the free list
    is the one [addToFreeList] builds from the run, the counter grows by
    the length of the run, and a page is marked free when it lies in
    [[start_page, start_page + num_pages)] and is otherwise unchanged; the
    bytes and [block_start] of every page stay. *)
Theorem freePages_frame key st :
  (entries st !! key = None → freePages key st = st)
  ∧ (∀ e, entries st !! key = Some e →
       0 ≤ CacheEntry.start_page e → 0 ≤ CacheEntry.num_pages e →
       CacheEntry.start_page e + CacheEntry.num_pages e ≤ TOTAL_PAGES →
       entries (freePages key st) = entries st
       ∧ free_list_head (freePages key st)
         = free_list_head
             (addToFreeList (CacheEntry.start_page e) (CacheEntry.num_pages e) st)
       ∧ total_free_pages (freePages key st)
         = wrap (total_free_pages st + CacheEntry.num_pages e)
       ∧ length (cache (freePages key st)) = length (cache st)
       ∧ ∀ (i : nat) p, cache st !! i = Some p →
           cache (freePages key st) !! i
           = Some (if bool_decide
                        (CacheEntry.start_page e ≤ Z.of_nat i
                         < CacheEntry.start_page e + CacheEntry.num_pages e)
                   then Page.mk (Page.data p) true (Page.block_start p)
                   else p)).
Proof.
  split.
  - intros Hnone. unfold freePages. by rewrite Hnone.
  - intros e He Hs Hn Hend. unfold freePages. rewrite He.
    split; [reflexivity |]. split; [reflexivity |]. split; [reflexivity |].
    split.
    + cbn. unfold mark_free. apply length_imap.
    + intros i p Hp.
      change (cache (addToFreeList ?s ?n ?st')) with (cache st').
      cbn [cache set_cache]. rewrite mark_free_lookup, Hp. simpl. f_equal.
      rewrite wrap_arena by lia.
      case_bool_decide as Hin.
      * rewrite (proj2 (Z.leb_le _ _)) by lia.
        rewrite (proj2 (Z.ltb_lt _ _)) by lia. done.
      * destruct (CacheEntry.start_page e <=? Z.of_nat i) eqn:H1; [| done].
        destruct (Z.of_nat i <? CacheEntry.start_page e + CacheEntry.num_pages e) eqn:H2;
          [| done].
        apply Z.leb_le in H1. apply Z.ltb_lt in H2. lia.
Qed.

(** In [one_entry_state] the key [k] owns page 0 and no key [x] exists. *)
Lemma freePages_frame_witness :
  freePages "x" one_entry_state = one_entry_state
  ∧ entries (freePages "k" one_entry_state) = entries one_entry_state
  ∧ free_list_head (freePages "k" one_entry_state) = [FreeBlock.mk 0 TOTAL_PAGES]
  ∧ Page.is_free <$> cache (freePages "k" one_entry_state) !! O = Some true.
Proof.
  destruct (freePages_frame "x" one_entry_state) as [Habsent _].
  split; [apply Habsent; vm_compute; reflexivity |].
  destruct (freePages_frame "k" one_entry_state) as [_ Hpresent].
  assert (∃ e, entries one_entry_state !! "k" = Some e
               ∧ CacheEntry.start_page e = 0 ∧ CacheEntry.num_pages e = 1)
    as (e & He & Hs & Hn) by (eexists; vm_compute; split_and!; reflexivity).
  destruct (Hpresent e He) as (H1 & H2 & H3 & H4 & H5).
  - rewrite Hs. lia.
  - rewrite Hn. lia.
  - rewrite Hs, Hn. by_compute.
  - split; [exact H1 |]. split; [vm_compute; reflexivity |].
    assert (∃ p, cache one_entry_state !! O = Some p) as [p Hp]
      by (eexists; vm_compute; reflexivity).
    rewrite (H5 O p Hp), Hs, Hn. reflexivity.
Defined.

End FreePages.

(** ** Compaction *)

Section Compaction.

Implicit Types (st s : State) (c : list Page.t) (e : CacheEntry.t)
  (l order : list (string * CacheEntry.t)).

Lemma PAGE_SIZE_value : PAGE_SIZE = 40960.
Proof. reflexivity. Qed.

Lemma page_byte_byte_of c start i :
  page_byte c start i = byte_of c (Z.to_nat (start + i / PAGE_SIZE)) (i mod PAGE_SIZE).
Proof. reflexivity. Qed.

Lemma byte_of_mark_used first limit c i off :
  byte_of (mark_used first limit c) i off = byte_of c i off.
Proof.
  unfold byte_of, mark_used. rewrite list_lookup_imap.
  destruct (c !! i) as [p|]; simpl; [| done]. by destruct (_ && _).
Qed.

Lemma byte_of_mark_free first limit c i off :
  byte_of (mark_free first limit c) i off = byte_of c i off.
Proof.
  unfold byte_of, mark_free. rewrite list_lookup_imap.
  destruct (c !! i) as [p|]; simpl; [| done]. by destruct (_ && _).
Qed.

(** Pages outside the run written to keep their bytes. *)
Lemma byte_of_write_outside start bytes n c i off :
  0 ≤ n → Z.of_nat (length bytes) ≤ n * PAGE_SIZE →
  Z.of_nat i < start ∨ start + n ≤ Z.of_nat i →
  byte_of (imap (write_page start bytes) c) i off = byte_of c i off.
Proof.
  intros Hn Hlen Hout. unfold byte_of. rewrite list_lookup_imap.
  destruct (c !! i) as [p|]; simpl; [| done].
  destruct (start <=? Z.of_nat i) eqn:H1; simpl; [| done].
  destruct (0 <=? off) eqn:H2; simpl; [| done].
  destruct (off <? PAGE_SIZE) eqn:H3; simpl; [| done].
  destruct (_ <? Z.of_nat (length bytes)) eqn:H4; [| done].
  apply Z.leb_le in H1, H2. apply Z.ltb_lt in H3, H4.
  rewrite PAGE_SIZE_value in *. nia.
Qed.

(** A byte of the data written is found where the run holds it. *)
Lemma page_byte_write start bytes c j :
  0 ≤ start → 0 ≤ j < Z.of_nat (length bytes) →
  (Z.to_nat (start + j / PAGE_SIZE) < length c)%nat →
  page_byte (imap (write_page start bytes) c) start j
  = default Byte.x00 (bytes !! Z.to_nat j).
Proof.
  intros Hs Hj Hin. rewrite page_byte_byte_of. unfold byte_of.
  rewrite list_lookup_imap.
  destruct (lookup_lt_is_Some_2 c _ Hin) as [p ->]. simpl.
  pose proof (Z.div_mod j PAGE_SIZE) as Hdm.
  pose proof (Z.mod_pos_bound j PAGE_SIZE) as Hmod.
  pose proof (Z.div_pos j PAGE_SIZE) as Hdiv.
  rewrite PAGE_SIZE_value in *.
  specialize (Hdm ltac:(lia)). specialize (Hmod ltac:(lia)).
  specialize (Hdiv ltac:(lia) ltac:(lia)).
  rewrite Z2Nat.id by lia.
  replace ((start + j / 40960 - start) * 40960 + j mod 40960) with j by lia.
  rewrite (proj2 (Z.leb_le _ _)) by lia.
  rewrite (proj2 (Z.leb_le _ _)) by lia.
  rewrite (proj2 (Z.ltb_lt _ _)) by lia.
  rewrite (proj2 (Z.ltb_lt _ _)) by lia.
  done.
Qed.

Lemma readFromPages_length st start size :
  length (readFromPages st start size) = Z.to_nat size.
Proof. unfold readFromPages. by rewrite length_fmap, length_seq. Qed.

Lemma readFromPages_lookup st start size (j : nat) :
  (j < Z.to_nat size)%nat →
  readFromPages st start size !! j = Some (page_byte (cache st) start (Z.of_nat j)).
Proof.
  intros Hj. unfold readFromPages. rewrite list_lookup_fmap.
  by rewrite lookup_seq_lt.
Qed.

(** Two reads agree when the pages they touch agree byte for byte. *)
Lemma readFromPages_ext st1 st2 start1 start2 size :
  (∀ j, 0 ≤ j < size →
     page_byte (cache st1) start1 j = page_byte (cache st2) start2 j) →
  readFromPages st1 start1 size = readFromPages st2 start2 size.
Proof.
  intros Hext. unfold readFromPages. apply list_fmap_ext.
  intros i j Hj. apply lookup_seq in Hj as [-> Hlt]. apply Hext. lia.
Qed.

Lemma with_start_page_same e :
  CacheEntry.with_start_page e (CacheEntry.start_page e) = e.
Proof. by destruct e. Qed.

Lemma sum_pages_cons kv l :
  sum_pages (kv :: l) = CacheEntry.num_pages kv.2 + sum_pages l.
Proof. reflexivity. Qed.

Lemma chained_weaken lo lo' l : lo' ≤ lo → chained lo l → chained lo' l.
Proof. destruct l as [|kv l]; simpl; [lia | intros ? (? & ? & ?); split_and!; [lia | done | done]]. Qed.

(** Entries processed in a chained order never overtake their old place:
    the pages packed before an entry fit below its old start. *)
Lemma chained_prefix_le lo l i k e :
  chained lo l → l !! i = Some (k, e) →
  lo + sum_pages (take i l) ≤ CacheEntry.start_page e.
Proof.
  revert lo i. induction l as [|kv l IH]; intros lo i Hch Hi; [done |].
  destruct Hch as (Hlo & Hok & Hch). destruct i as [|i]; simpl in Hi.
  - injection Hi as ->. simpl in *. unfold sum_pages. simpl. lia.
  - simpl. rewrite sum_pages_cons. specialize (IH _ _ Hch Hi). lia.
Qed.

Lemma chained_total lo l : chained lo l → lo + sum_pages l ≤ TOTAL_PAGES.
Proof.
  revert lo. induction l as [|kv l IH]; intros lo Hch; simpl in *.
  - unfold sum_pages. simpl. lia.
  - destruct Hch as (Hlo & Hok & Hch). rewrite sum_pages_cons.
    specialize (IH _ Hch). lia.
Qed.

(** One entry handled by the loop of [compactMemory], with the cursor at or
    below the entry. *)
Lemma compact_step_spec s cur k e :
  0 ≤ cur ≤ CacheEntry.start_page e → entry_ok e →
  length (cache s) = Z.to_nat TOTAL_PAGES →
  let r := compact_step s cur (k, e) in
  r.2 = cur + CacheEntry.num_pages e
  ∧ length (cache r.1) = length (cache s)
  ∧ entries r.1 =
      (if CacheEntry.start_page e =? cur then entries s
       else <[k := CacheEntry.with_start_page e cur]> (entries s))
  ∧ (∀ i off, Z.of_nat i < cur ∨ cur + CacheEntry.num_pages e ≤ Z.of_nat i →
       byte_of (cache r.1) i off = byte_of (cache s) i off)
  ∧ readFromPages r.1 cur (CacheEntry.data_size e)
    = readFromPages s (CacheEntry.start_page e) (CacheEntry.data_size e)
  ∧ free_list_head r.1 = free_list_head s
  ∧ total_free_pages r.1 = total_free_pages s.
Proof.
  intros Hcur (Hs & Hn & Hend & Hds) Hlen r. subst r.
  unfold compact_step. cbn [fst snd].
  split; [apply wrap_arena; lia |].
  destruct (CacheEntry.start_page e =? cur) eqn:Hmove.
  - (* already in place *)
    apply Z.eqb_eq in Hmove. subst cur.
    split; [cbn; unfold mark_used; by rewrite length_imap |].
    split; [reflexivity |].
    split; [intros i off _; cbn; apply byte_of_mark_used |].
    split; [| split; reflexivity].
    apply readFromPages_ext. intros j Hj. cbn [cache set_cache].
    rewrite !page_byte_byte_of. apply byte_of_mark_used.
  - (* moved to the cursor *)
    apply Z.eqb_neq in Hmove.
    split; [cbn; unfold mark_used; by rewrite !length_imap |].
    split; [reflexivity |].
    split.
    + intros i off Hout. cbn [cache set_cache set_entries writeToPages].
      rewrite byte_of_mark_used.
      apply (byte_of_write_outside _ _ (CacheEntry.num_pages e)); [lia | | done].
      rewrite readFromPages_length. lia.
    + split; [| split; reflexivity].
      apply readFromPages_ext. intros j Hj. cbn [cache set_cache set_entries writeToPages].
      rewrite page_byte_byte_of, byte_of_mark_used, <- page_byte_byte_of.
      rewrite page_byte_write.
      * rewrite readFromPages_lookup by lia. simpl. by rewrite Z2Nat.id by lia.
      * lia.
      * rewrite readFromPages_length. lia.
      * rewrite Hlen.
        assert (j / PAGE_SIZE < CacheEntry.num_pages e).
        { apply Z.div_lt_upper_bound; rewrite PAGE_SIZE_value in *; lia. }
        assert (0 ≤ j / PAGE_SIZE).
        { apply Z.div_pos; [lia | by rewrite PAGE_SIZE_value]. }
        lia.
Qed.

Lemma chained_lookup lo l i k e :
  chained lo l → l !! i = Some (k, e) →
  lo ≤ CacheEntry.start_page e ∧ entry_ok e.
Proof.
  revert lo i. induction l as [|kv l IH]; intros lo i Hch Hi; [done |].
  destruct Hch as (Hlo & Hok & Hch). destruct i as [|i]; simpl in Hi.
  - injection Hi as ->. done.
  - destruct (IH _ _ Hch Hi) as [Hle He]. split; [| done].
    destruct Hok as (? & ? & ? & ?). lia.
Qed.

(** A read below [hi] sees the same bytes in two arenas that agree on the
    pages below [hi]. *)
Lemma readFromPages_below s1 s2 start size hi :
  0 ≤ start →
  (∀ i off, Z.of_nat i < hi → byte_of (cache s1) i off = byte_of (cache s2) i off) →
  size ≤ (hi - start) * PAGE_SIZE →
  readFromPages s1 start size = readFromPages s2 start size.
Proof.
  intros Hs Hsame Hsize. apply readFromPages_ext. intros j Hj.
  rewrite !page_byte_byte_of. apply Hsame.
  assert (0 ≤ j / PAGE_SIZE) by (apply Z.div_pos; [lia | by rewrite PAGE_SIZE_value]).
  assert (j / PAGE_SIZE < hi - start).
  { apply Z.div_lt_upper_bound; [by rewrite PAGE_SIZE_value | lia]. }
  lia.
Qed.

(** A read at or above [lo] sees the same bytes in two arenas that agree on
    the pages from [lo] on. *)
Lemma readFromPages_above s1 s2 start size lo :
  0 ≤ lo ≤ start →
  (∀ i off, lo ≤ Z.of_nat i → byte_of (cache s1) i off = byte_of (cache s2) i off) →
  readFromPages s1 start size = readFromPages s2 start size.
Proof.
  intros Hs Hsame. apply readFromPages_ext. intros j Hj.
  rewrite !page_byte_byte_of. apply Hsame.
  assert (0 ≤ j / PAGE_SIZE) by (apply Z.div_pos; [lia | by rewrite PAGE_SIZE_value]).
  lia.
Qed.

(** The relocation loop on a chained sequence of entries of the table. *)
Lemma compact_loop_spec l s cur :
  0 ≤ cur → chained cur l → NoDup l.*1 →
  length (cache s) = Z.to_nat TOTAL_PAGES →
  (∀ k e, (k, e) ∈ l → entries s !! k = Some e) →
  let r := compact_loop l s cur in
  r.2 = cur + sum_pages l
  ∧ length (cache r.1) = length (cache s)
  ∧ (∀ i off, Z.of_nat i < cur →
       byte_of (cache r.1) i off = byte_of (cache s) i off)
  ∧ (∀ i k e, l !! i = Some (k, e) →
       entries r.1 !! k
       = Some (CacheEntry.with_start_page e (cur + sum_pages (take i l)))
       ∧ readFromPages r.1 (cur + sum_pages (take i l)) (CacheEntry.data_size e)
         = readFromPages s (CacheEntry.start_page e) (CacheEntry.data_size e))
  ∧ (∀ k, k ∉ l.*1 → entries r.1 !! k = entries s !! k)
  ∧ free_list_head r.1 = free_list_head s
  ∧ total_free_pages r.1 = total_free_pages s.
Proof.
  revert s cur. induction l as [|[k e] l IH]; intros s cur Hcur Hch Hnd Hlen Hin r;
    subst r.
  - simpl. unfold sum_pages. simpl.
    split; [lia |]. split; [done |]. split; [done |].
    split; [intros i ? ? Hi; by rewrite lookup_nil in Hi |].
    split; [done |]. done.
  - destruct Hch as (Hlo & Hok & Hch). simpl in Hlo, Hok, Hch.
    apply NoDup_cons in Hnd as [Hk Hnd].
    destruct (compact_step_spec s cur k e ltac:(lia) Hok Hlen)
      as (Hr2 & Hrlen & Hrent & Hrbytes & Hrread & Hrfl & Hrtot).
    change (compact_loop ((k, e) :: l) s cur)
      with (compact_loop l (compact_step s cur (k, e)).1 (compact_step s cur (k, e)).2).
    set (s1 := (compact_step s cur (k, e)).1) in *.
    rewrite Hr2. clearbody s1.
    pose proof Hok as (He0 & He1 & He2 & He3).
    assert (∀ k' e', (k', e') ∈ l → entries s1 !! k' = Some e') as Hin1.
    { intros k' e' Hk'. rewrite Hrent.
      assert (k' ≠ k).
      { intros ->. apply Hk. apply list_elem_of_fmap. by exists (k, e'). }
      destruct (_ =? _); [| rewrite lookup_insert_ne by done];
        apply Hin; by apply elem_of_cons; right. }
    destruct (IH s1 (cur + CacheEntry.num_pages e)) as (I1 & I2 & I3 & I4 & I5 & I6 & I7).
    { lia. }
    { eapply chained_weaken; [| exact Hch]. lia. }
    { done. }
    { by rewrite Hrlen. }
    { done. }
    split; [rewrite I1, sum_pages_cons; simpl; lia |].
    split; [by rewrite I2 |].
    split; [intros i off Hi; rewrite I3 by lia; apply Hrbytes; lia |].
    split; [| split; [| split; [by rewrite I6 | by rewrite I7]]].
    + intros [|i] k' e' Hi; simpl in Hi.
      * injection Hi as <- <-. simpl. unfold sum_pages at 1 2. simpl.
        rewrite Z.add_0_r. split.
        -- rewrite I5 by done. rewrite Hrent.
           destruct (_ =? _) eqn:Hmove.
           ++ apply Z.eqb_eq in Hmove. rewrite <- Hmove, with_start_page_same.
              apply Hin. apply elem_of_cons. by left.
           ++ by rewrite lookup_insert_eq.
        -- rewrite <- Hrread.
           apply (readFromPages_below _ _ _ _ (cur + CacheEntry.num_pages e));
             [lia | done | lia].
      * destruct (I4 i k' e' Hi) as [J1 J2].
        destruct (chained_lookup _ _ _ _ _ Hch Hi) as [Hge Hok'].
        simpl. rewrite sum_pages_cons. simpl.
        rewrite Z.add_assoc. split; [done |].
        rewrite J2.
        apply (readFromPages_above _ _ _ _ (cur + CacheEntry.num_pages e)); [lia |].
        intros j off Hj. apply Hrbytes. lia.
    + intros k' Hk'. apply not_elem_of_cons in Hk' as [Hne Hk'].
      rewrite I5 by done. rewrite Hrent.
      destruct (_ =? _); [done |]. by rewrite lookup_insert_ne.
Qed.

#[local] Instance start_le_trans : Transitive start_le.
Proof. unfold start_le. intros a b c ??. lia. Qed.

#[local] Instance start_le_total : Total start_le.
Proof. unfold start_le. intros a b. lia. Qed.

(** A sorted sequence of well-formed, pairwise disjoint entries under
    distinct keys is chained. *)
Lemma sorted_chained l lo :
  StronglySorted start_le l →
  Forall (λ kv, entry_ok kv.2) l →
  (∀ a b, a ∈ l → b ∈ l → runs_apart a b) →
  NoDup l.*1 →
  Forall (λ kv, lo ≤ CacheEntry.start_page kv.2) l →
  lo ≤ TOTAL_PAGES →
  chained lo l.
Proof.
  revert lo. induction l as [|kv l IH]; intros lo Hsort Hok Hapart Hnd Hlo Hmax;
    [done |].
  apply StronglySorted_inv in Hsort as [Hsort Hhd].
  apply Forall_cons in Hok as [Hkv Hok].
  apply NoDup_cons in Hnd as [Hk Hnd].
  apply Forall_cons in Hlo as [Hlo _].
  simpl. split; [done |]. split; [done |].
  pose proof Hkv as (? & ? & ? & ?).
  apply IH; try done.
  - intros a b Ha Hb. apply Hapart; apply elem_of_cons; by right.
  - rewrite Forall_forall in Hhd, Hok |- *. intros x Hx.
    specialize (Hhd x Hx). specialize (Hok x Hx). unfold start_le in Hhd.
    destruct Hok as (? & ? & ? & ?).
    destruct (Hapart kv x) as [Heq | [Hle | Hle]];
      [apply elem_of_cons; by left | apply elem_of_cons; by right | | done | lia].
    exfalso. apply Hk. rewrite Heq. apply list_elem_of_fmap. by exists x.
Qed.

(** What a processing order of a well-formed arena looks like. *)
Lemma compaction_order_chained st order :
  arena_ok st → compaction_order st order →
  chained 0 order
  ∧ NoDup order.*1
  ∧ (∀ k e, (k, e) ∈ order ↔ entries st !! k = Some e).
Proof.
  intros (Hlen & Hok & Hdis) [Hperm Hsort].
  assert (∀ k e, (k, e) ∈ order ↔ entries st !! k = Some e) as Hin.
  { intros k e. rewrite Hperm. apply elem_of_map_to_list. }
  assert (NoDup order.*1) as Hnd.
  { rewrite Hperm. apply NoDup_fst_map_to_list. }
  split; [| done].
  rewrite <- Hperm in Hok.
  apply sorted_chained; try done.
  - by apply (Sorted_StronglySorted start_le).
  - intros a b Ha Hb. unfold entries_disjoint in Hdis.
    rewrite Hperm in Ha, Hb.
    rewrite Forall_forall in Hdis. specialize (Hdis a Ha).
    rewrite Forall_forall in Hdis. by apply Hdis.
  - eapply Forall_impl; [exact Hok |]. intros kv (? & _). done.
Qed.

(** The order taken by the executable model is one of them. *)
Lemma compactMemory_order st :
  compaction_order st (merge_sort start_le (map_to_list (entries st))).
Proof.
  split; [apply merge_sort_Permutation | apply (Sorted_merge_sort start_le)].
Qed.

(** [compactMemory] on a well-formed arena, for any admissible order. *)
Lemma compactMemory_with_spec st order :
  arena_ok st → compaction_order st order →
  let st' := compactMemory_with order st in
  sum_pages order ≤ TOTAL_PAGES
  ∧ (∀ i k e, order !! i = Some (k, e) →
       sum_pages (take i order) ≤ CacheEntry.start_page e
       ∧ entries st' !! k
         = Some (CacheEntry.with_start_page e (sum_pages (take i order)))
       ∧ readFromPages st' (sum_pages (take i order)) (CacheEntry.data_size e)
         = readFromPages st (CacheEntry.start_page e) (CacheEntry.data_size e))
  ∧ (∀ k, entries st !! k = None → entries st' !! k = None)
  ∧ free_list_head st'
    = (if sum_pages order <? TOTAL_PAGES
       then [FreeBlock.mk (sum_pages order) (TOTAL_PAGES - sum_pages order)]
       else [])
  ∧ total_free_pages st' = TOTAL_PAGES - sum_pages order.
Proof.
  intros Hok Hord st'. subst st'.
  destruct (compaction_order_chained st order Hok Hord) as (Hch & Hnd & Hin).
  destruct Hok as (Hlen & _ & _).
  unfold compactMemory_with.
  destruct (compact_loop_spec order (set_free_list st [] 0) 0)
    as (L1 & L2 & L3 & L4 & L5 & L6 & L7); try done.
  { intros k e Hk. by apply Hin. }
  set (r := compact_loop order (set_free_list st [] 0) 0) in *. clearbody r.
  pose proof (chained_total _ _ Hch) as Htot.
  rewrite L1. rewrite !Z.add_0_l in *.
  split; [done |].
  assert (entries (compact_finish r.1 (sum_pages order)) = entries r.1) as Hent.
  { unfold compact_finish. by destruct (_ <? _). }
  assert (∀ i off, byte_of (cache (compact_finish r.1 (sum_pages order))) i off
                   = byte_of (cache r.1) i off) as Hbytes.
  { intros i off. unfold compact_finish. destruct (_ <? _); [| done].
    cbn [cache set_cache set_free_list]. apply byte_of_mark_free. }
  split; [| split; [| split]].
  - intros i k e Hi. destruct (L4 i k e Hi) as [J1 J2].
    rewrite !Z.add_0_l in *.
    split; [pose proof (chained_prefix_le _ _ _ _ _ Hch Hi); lia |].
    split; [by rewrite Hent |].
    etrans; [| exact J2]. apply readFromPages_ext. intros j Hj.
    rewrite !page_byte_byte_of. apply Hbytes.
  - intros k Hk. rewrite Hent, L5; [done |].
    intros (kv & -> & Hkv)%list_elem_of_fmap. destruct kv as [k' e'].
    apply Hin in Hkv. simpl in Hk. congruence.
  - unfold compact_finish. destruct (_ <? _); [done |]. by rewrite L6.
  - unfold compact_finish. destruct (_ <? _) eqn:Hlt; [done |].
    rewrite L7. apply Z.ltb_ge in Hlt. cbn. lia.
Qed.


Lemma same_metadata_with_start_page e x :
  same_metadata e (CacheEntry.with_start_page e x).
Proof. by repeat split. Qed.

(** C2. Compaction of a well-formed arena, whatever admissible order the
    entries are processed in: every key that was present is still present
    and its entry differs from the old one in [start_page] at most (key,
    owner, [num_pages], [data_size] and the policy fields are the old ones);
    reading the value at the new place gives the bytes that were read at the
    old place; no key appears; the entries are packed from page 0 in the
    order of their old addresses, each starting where the one before ends;
    and the free list is the single extent from the end of the last entry to
    the end of the arena, or empty when the entries fill the arena. *)
Theorem compactMemory_preserves st order :
  arena_ok st → compaction_order st order →
  (∀ k e, entries st !! k = Some e →
     ∃ e', entries (compactMemory_with order st) !! k = Some e'
       ∧ same_metadata e e'
       ∧ readFromPages (compactMemory_with order st)
           (CacheEntry.start_page e') (CacheEntry.data_size e')
         = readFromPages st (CacheEntry.start_page e) (CacheEntry.data_size e))
  ∧ (∀ k, entries st !! k = None →
       entries (compactMemory_with order st) !! k = None)
  ∧ (∀ i k e, order !! i = Some (k, e) →
       ∃ e', entries (compactMemory_with order st) !! k = Some e'
         ∧ CacheEntry.start_page e' = sum_pages (take i order))
  ∧ free_list_head (compactMemory_with order st)
    = (if sum_pages order <? TOTAL_PAGES
       then [FreeBlock.mk (sum_pages order) (TOTAL_PAGES - sum_pages order)]
       else []).
Proof.
  intros Hok Hord.
  destruct (compactMemory_with_spec st order Hok Hord) as (_ & Hent & Hnew & Hfl & _).
  destruct (compaction_order_chained st order Hok Hord) as (_ & _ & Hin).
  split; [| split; [done | split; [| done]]].
  - intros k e Hk. apply Hin in Hk.
    apply list_elem_of_lookup in Hk as [i Hi].
    destruct (Hent i k e Hi) as (_ & He' & Hread).
    eexists. split; [exact He' |]. split; [apply same_metadata_with_start_page | exact Hread].
  - intros i k e Hi. destruct (Hent i k e Hi) as (_ & He' & _).
    eexists. split; [exact He' | reflexivity].
Qed.

(** In [fragmented_state] compaction moves B from page 4 to page 0; its
    bytes are found there and the free list is the extent [(1, 2559)]. *)
Lemma compactMemory_preserves_witness :
  arena_ok fragmented_state
  ∧ entries fragmented_state !! "B" = Some entry_B
  ∧ (∃ e', entries (compactMemory fragmented_state) !! "B" = Some e'
       ∧ same_metadata entry_B e'
       ∧ readFromPages (compactMemory fragmented_state)
           (CacheEntry.start_page e') (CacheEntry.data_size e')
         = readFromPages fragmented_state
             (CacheEntry.start_page entry_B) (CacheEntry.data_size entry_B))
  ∧ CacheEntry.start_page <$> entries (compactMemory fragmented_state) !! "B" = Some 0
  ∧ readFromPages (compactMemory fragmented_state) 0 3 = [Byte.x01; Byte.x02; Byte.x03]
  ∧ free_list_head (compactMemory fragmented_state) = [FreeBlock.mk 1 2559].
Proof.
  assert (arena_ok fragmented_state) as Hok by by_compute.
  assert (entries fragmented_state !! "B" = Some entry_B) as HB
    by (vm_compute; reflexivity).
  destruct (compactMemory_preserves fragmented_state
              (merge_sort start_le (map_to_list (entries fragmented_state)))
              Hok (compactMemory_order fragmented_state))
    as (Hkeep & _ & _ & _).
  split; [exact Hok |]. split; [exact HB |].
  split; [exact (Hkeep "B" entry_B HB) |].
  split_and!; vm_compute; reflexivity.
Defined.




End Compaction.

(** ** Page counts of entries *)

Section PageCount.

Implicit Types (st s : State) (e : CacheEntry.t)
  (l : list (string * CacheEntry.t)).

Variable P : CacheEntry.t → Prop.
Hypothesis P_start : ∀ e x, P e → P (CacheEntry.with_start_page e x).

(** A property of entries that does not look at [start_page] survives the
    relocation loop. *)
Lemma compact_loop_entries l s cur :
  Forall (λ kv, P kv.2) l →
  map_Forall (λ _ e, P e) (entries s) →
  map_Forall (λ _ e, P e) (entries (compact_loop l s cur).1).
Proof.
  revert s cur. induction l as [|[k e] l IH]; intros s cur Hl Hs; [done |].
  apply Forall_cons in Hl as [He Hl]. simpl in He.
  change (compact_loop ((k, e) :: l) s cur)
    with (compact_loop l (compact_step s cur (k, e)).1 (compact_step s cur (k, e)).2).
  apply IH; [done |].
  unfold compact_step. cbn [fst snd].
  destruct (_ =? _); cbn; [done |].
  apply map_Forall_insert_2; [by apply P_start | done].
Qed.

Lemma compactMemory_entries st :
  map_Forall (λ _ e, P e) (entries st) →
  map_Forall (λ _ e, P e) (entries (compactMemory st)).
Proof.
  intros Hst. unfold compactMemory, compactMemory_with.
  assert (∀ s x, entries (compact_finish s x) = entries s) as ->
    by (intros s x; unfold compact_finish; by destruct (_ <? _)).
  apply compact_loop_entries; [| done].
  rewrite merge_sort_Permutation.
  apply map_Forall_to_list in Hst.
  eapply Forall_impl; [exact Hst |]. by intros [k e].
Qed.

End PageCount.

Section PageCountAlloc.

Implicit Types (st s : State) (e : CacheEntry.t).

Lemma findBestFitBlock_Some n fl i :
  findBestFitBlock n fl = Some i →
  ∃ b, fl !! i = Some b ∧ n ≤ FreeBlock.num_pages b.
Proof.
  unfold findBestFitBlock.
  destruct (findBestFit_scan_spec n fl O None SIZE_MAX)
    as [[-> _] | (j & b & -> & Hj & Hb & _)]; [done |].
  simpl. intros [= <-]. exists b. split; [done | lia].
Qed.

Lemma splitBlock_entries block n s : entries (splitBlock block n s) = entries s.
Proof.
  unfold splitBlock, removeFromFreeList.
  destruct (free_list_head s !! block); [| done]. by destruct (_ =? _).
Qed.

(** The entry table after a block has been committed to a key. *)
Lemma commit_allocation_entries block key ds cid n s b :
  free_list_head s !! block = Some b →
  ∃ e, entries (commit_allocation block key ds cid n s) = <[key := e]> (entries s)
     ∧ CacheEntry.key e = key
     ∧ CacheEntry.start_page e = FreeBlock.start_page b
     ∧ CacheEntry.num_pages e = n
     ∧ CacheEntry.data_size e = ds.
Proof.
  intros Hb. unfold commit_allocation. rewrite Hb. eexists.
  split; [cbn; by rewrite splitBlock_entries |]. done.
Qed.

Lemma calculateRequiredPages_ceil ds :
  0 ≤ ds ≤ SIZE_MAX - (PAGE_SIZE - 1) →
  calculateRequiredPages ds = ceil_div ds PAGE_SIZE
  ∧ (1 ≤ calculateRequiredPages ds ↔ 1 ≤ ds).
Proof.
  intros Hds. unfold calculateRequiredPages, ceil_div.
  rewrite PAGE_SIZE_value in *.
  rewrite wrap_small by (unfold SIZE_MAX in *; lia).
  destruct (ds mod 40960 =? 0) eqn:Hmod;
    [apply Z.eqb_eq in Hmod | apply Z.eqb_neq in Hmod];
    split; Z.div_mod_to_equations; lia.
Qed.

Lemma allocate_retry_page_count key ds cid s :
  pages_match_size s →
  pages_match_size (allocate_retry key ds cid (calculateRequiredPages ds) s).2
  ∧ ((allocate_retry key ds cid (calculateRequiredPages ds) s).1 = true →
     ∃ e, entries (allocate_retry key ds cid (calculateRequiredPages ds) s).2 !! key
          = Some e
        ∧ CacheEntry.data_size e = ds
        ∧ CacheEntry.num_pages e = calculateRequiredPages ds).
Proof.
  intros Hs. unfold allocate_retry.
  destruct (findBestFitBlock _ _) as [block|] eqn:Hfind; simpl; [| done].
  destruct (findBestFitBlock_Some _ _ _ Hfind) as (b & Hb & _).
  destruct (commit_allocation_entries block key ds cid (calculateRequiredPages ds) s b Hb)
    as (e & Hent & _ & _ & Hn & Hd).
  split.
  - unfold pages_match_size. rewrite Hent.
    apply map_Forall_insert_2; [by rewrite Hn, Hd | done].
  - intros _. exists e. by rewrite Hent, lookup_insert_eq.
Qed.

Lemma defragment_page_count n s :
  pages_match_size s → pages_match_size (defragment n s).2.
Proof.
  intros Hs. unfold defragment. cbn [snd].
  apply (compactMemory_entries
           (λ e, CacheEntry.num_pages e
                 = calculateRequiredPages (CacheEntry.data_size e)));
    [by intros [] | done].
Qed.

Lemma evict_fifo_page_count fuel n s :
  pages_match_size s → pages_match_size (evict_fifo fuel n s).2.
Proof.
  revert s. induction fuel as [|fuel IH]; intros s Hs; simpl.
  - by destruct (_ <=? _).
  - destruct (_ <=? _); [done |].
    destruct (fifo_victim (entries s)) as [k|]; [| done].
    apply IH. unfold pages_match_size, release_entry.
    cbn [entries set_stats set_entries].
    apply map_Forall_delete.
    unfold freePages. destruct (entries s !! k); done.
Qed.

(** C8. In a state reached by [allocatePages] from a state in which every
    entry has [num_pages = calculateRequiredPages(data_size)], with an
    eviction that keeps this, every entry has it again, and after a
    successful call the key maps to an entry of the requested size with that
    page count. For sizes up to [SIZE_MAX - (PAGE_SIZE - 1)] the page count
    is [ceil(data_size / PAGE_SIZE)]; it is at least 1 exactly when the
    value has at least one byte. *)
Theorem allocatePages_page_count (evict : Z → State → bool * State) key ds cid st :
  0 ≤ ds ≤ SIZE_MAX - (PAGE_SIZE - 1) →
  pages_match_size st →
  (∀ n s, pages_match_size s → pages_match_size (evict n s).2) →
  pages_match_size (allocatePages evict key ds cid st).2
  ∧ ((allocatePages evict key ds cid st).1 = true →
     ∃ e, entries (allocatePages evict key ds cid st).2 !! key = Some e
        ∧ CacheEntry.data_size e = ds
        ∧ CacheEntry.num_pages e = calculateRequiredPages ds)
  ∧ calculateRequiredPages ds = ceil_div ds PAGE_SIZE
  ∧ (1 ≤ calculateRequiredPages ds ↔ 1 ≤ ds).
Proof.
  intros Hds Hst Hev.
  cut (pages_match_size (allocatePages evict key ds cid st).2
       ∧ ((allocatePages evict key ds cid st).1 = true →
          ∃ e, entries (allocatePages evict key ds cid st).2 !! key = Some e
             ∧ CacheEntry.data_size e = ds
             ∧ CacheEntry.num_pages e = calculateRequiredPages ds)).
  { intros [H1 H2]. split; [done |]. split; [done |].
    by apply calculateRequiredPages_ceil. }
  unfold allocatePages.
  destruct (findBestFitBlock _ (free_list_head st)) as [block|] eqn:Hfind.
  - pose proof (allocate_retry_page_count key ds cid st Hst) as Hretry.
    unfold allocate_retry in Hretry. by rewrite Hfind in Hretry.
  - destruct (_ <=? total_free_pages st).
    + pose proof (defragment_page_count (calculateRequiredPages ds) st Hst) as Hd.
      destruct (defragment _ st).1.
      * by apply allocate_retry_page_count.
      * specialize (Hev (calculateRequiredPages ds) _ Hd).
        destruct (evict _ _).1; [by apply allocate_retry_page_count | done].
    + specialize (Hev (calculateRequiredPages ds) _ Hst).
      destruct (evict _ _).1; [by apply allocate_retry_page_count | done].
Qed.

(** A second value of 40961 bytes in [one_entry_state] gets two pages. *)
Lemma allocatePages_page_count_witness :
  pages_match_size (allocatePages evict_model "j" 40961 "c" one_entry_state).2
  ∧ ((allocatePages evict_model "j" 40961 "c" one_entry_state).1 = true →
     ∃ e, entries (allocatePages evict_model "j" 40961 "c" one_entry_state).2 !! "j"
          = Some e
        ∧ CacheEntry.data_size e = 40961
        ∧ CacheEntry.num_pages e = calculateRequiredPages 40961)
  ∧ calculateRequiredPages 40961 = ceil_div 40961 PAGE_SIZE
  ∧ (1 ≤ calculateRequiredPages 40961 ↔ 1 ≤ 40961).
Proof.
  apply (allocatePages_page_count evict_model "j" 40961 "c" one_entry_state).
  - by_compute.
  - by_compute.
  - intros n s Hs. by apply evict_fifo_page_count.
Defined.

(** A value of zero bytes is stored with zero pages: the allocation in a
    fresh cache succeeds and the entry it creates has [num_pages = 0]. *)
Lemma zero_byte_value_has_no_page :
  (allocatePages evict_model "z" 0 "c" (initializeCache FIFO)).1 = true
  ∧ ∃ e, entries (allocatePages evict_model "z" 0 "c" (initializeCache FIFO)).2 !! "z"
         = Some e
       ∧ CacheEntry.data_size e = 0
       ∧ CacheEntry.num_pages e = calculateRequiredPages (CacheEntry.data_size e)
       ∧ ¬ 1 ≤ CacheEntry.num_pages e.
Proof.
  split; [vm_compute; reflexivity |].
  eexists. split; [vm_compute; reflexivity |].
  split; [reflexivity |]. split; [reflexivity |]. vm_compute. by intros H.
Qed.

End PageCountAlloc.

(** ** The allocation path *)

Section AdmissionProofs.

Implicit Types (st s : State) (l : list (string * CacheEntry.t)).

Lemma wrap_range x : 0 ≤ wrap x ≤ SIZE_MAX.
Proof.
  unfold wrap. pose proof (Z.mod_pos_bound x (SIZE_MAX + 1)) as H.
  unfold SIZE_MAX in *. lia.
Qed.

(** The relocation loop does not touch the free list or its counter, and
    the cursor stays a [size_t]. *)
Lemma compact_loop_frame l s cur :
  0 ≤ cur →
  free_list_head (compact_loop l s cur).1 = free_list_head s
  ∧ total_free_pages (compact_loop l s cur).1 = total_free_pages s
  ∧ 0 ≤ (compact_loop l s cur).2.
Proof.
  revert s cur. induction l as [|kv l IH]; intros s cur Hcur; [done |].
  change (compact_loop (kv :: l) s cur)
    with (compact_loop l (compact_step s cur kv).1 (compact_step s cur kv).2).
  destruct (IH (compact_step s cur kv).1 (compact_step s cur kv).2) as (H1 & H2 & H3).
  { unfold compact_step. cbn [snd]. apply wrap_range. }
  rewrite H1, H2. split; [| split; [| done]];
    unfold compact_step; cbn [fst]; by destruct (_ =? _).
Qed.

(** After compaction the free list is empty or one extent that ends at the
    end of the arena. *)
Lemma compactMemory_shape s :
  (free_list_head (compactMemory s) = [] ∧ total_free_pages (compactMemory s) = 0)
  ∨ ∃ c, 0 ≤ c < TOTAL_PAGES
       ∧ free_list_head (compactMemory s) = [FreeBlock.mk c (TOTAL_PAGES - c)]
       ∧ total_free_pages (compactMemory s) = TOTAL_PAGES - c.
Proof.
  unfold compactMemory, compactMemory_with.
  destruct (compact_loop_frame
              (merge_sort start_le (map_to_list (entries s)))
              (set_free_list s [] 0) 0 ltac:(lia)) as (H1 & H2 & H3).
  set (r := compact_loop _ _ _) in *. clearbody r.
  unfold compact_finish. destruct (r.2 <? TOTAL_PAGES) eqn:Hlt.
  - apply Z.ltb_lt in Hlt. right. exists r.2. by split_and!.
  - left. by rewrite H1, H2.
Qed.

Lemma findBestFitBlock_None n fl :
  (∀ b, b ∈ fl → FreeBlock.num_pages b < n) → findBestFitBlock n fl = None.
Proof.
  intros Hsmall. destruct (findBestFitBlock n fl) as [i|] eqn:Hfind; [| done].
  destruct (findBestFitBlock_Some _ _ _ Hfind) as (b & Hb & Hn).
  apply list_elem_of_lookup_2 in Hb. specialize (Hsmall b Hb). lia.
Qed.

Lemma findBestFitBlock_single n b :
  FreeBlock.num_pages b < SIZE_MAX →
  findBestFitBlock n [b] = if n <=? FreeBlock.num_pages b then Some O else None.
Proof.
  intros Hb. unfold findBestFitBlock. simpl.
  destruct (n <=? _); simpl; [| done].
  rewrite (proj2 (Z.ltb_lt _ _) Hb). by destruct (_ =? _).
Qed.

(** How the verdict of [defragment] relates to a best-fit search in the
    state it leaves. *)
Lemma defragment_search n s :
  0 ≤ total_free_pages (defragment n s).2
  ∧ ((defragment n s).1 = false →
     findBestFitBlock n (free_list_head (defragment n s).2) = None)
  ∧ ((defragment n s).1 = true →
     findBestFitBlock n (free_list_head (defragment n s).2) = None → n ≤ 0)
  ∧ Forall (λ b, FreeBlock.num_pages b ≤ TOTAL_PAGES)
      (free_list_head (defragment n s).2)
  ∧ (TOTAL_PAGES < n → (defragment n s).1 = false).
Proof.
  unfold defragment. cbn [fst snd]. rewrite getFragmentationStats_largest.
  set (s0 := set_stats s _).
  destruct (compactMemory_shape s0) as [[-> ->] | (c & Hc & -> & ->)].
  - change (largest_extent []) with 0. rewrite TOTAL_PAGES_value.
    split; [done |]. split; [done |].
    split; [by intros ?%Z.leb_le |]. split; [constructor |].
    intros Hn. apply Z.leb_gt. lia.
  - rewrite largest_extent_cons. change (largest_extent []) with 0.
    cbn [FreeBlock.num_pages]. rewrite Z.max_l by lia.
    rewrite findBestFitBlock_single
      by (cbn; rewrite TOTAL_PAGES_value in *; unfold SIZE_MAX; lia).
    cbn [FreeBlock.num_pages].
    split; [lia |]. split; [by intros -> |]. split; [by intros -> |].
    split; [repeat constructor; cbn; lia |].
    intros Hn. apply Z.leb_gt. lia.
Qed.

(** C9. A request whose page count exceeds [TOTAL_PAGES], in a state whose
    free extents are no longer than the arena, is not turned away at the
    door: the search finds nothing, the state goes through defragmentation
    when the counter of free pages allows it, [evict] is called, and the
    result is the plain failure [false] with the state that [evict] left,
    provided [evict] leaves no extent longer than the arena. *)
Theorem allocatePages_too_large
    (evict : Z → State → bool * State) key ds cid st :
  TOTAL_PAGES < calculateRequiredPages ds →
  Forall (λ b, FreeBlock.num_pages b ≤ TOTAL_PAGES) (free_list_head st) →
  Forall (λ b, FreeBlock.num_pages b ≤ TOTAL_PAGES)
    (free_list_head
       (evict (calculateRequiredPages ds)
          (state_before_eviction (calculateRequiredPages ds) st)).2) →
  allocatePages evict key ds cid st
  = (false,
     (evict (calculateRequiredPages ds)
        (state_before_eviction (calculateRequiredPages ds) st)).2).
Proof.
  intros Hbig Hfl Hev. unfold allocatePages, state_before_eviction in *.
  set (n := calculateRequiredPages ds) in *. clearbody n.
  assert (∀ fl, Forall (λ b, FreeBlock.num_pages b ≤ TOTAL_PAGES) fl →
                findBestFitBlock n fl = None) as Hnone.
  { intros fl Hall. apply findBestFitBlock_None. intros b Hb.
    rewrite Forall_forall in Hall. specialize (Hall b Hb). simpl in Hall. lia. }
  rewrite (Hnone _ Hfl).
  destruct (n <=? total_free_pages st).
  - destruct (defragment_search n st) as (_ & _ & _ & _ & Hd).
    rewrite (Hd Hbig). unfold allocate_retry.
    destruct (evict n (defragment n st).2).1; [| done]. by rewrite (Hnone _ Hev).
  - unfold allocate_retry.
    destruct (evict n st).1; [| done]. by rewrite (Hnone _ Hev).
Qed.

(** A request for [TOTAL_PAGES + 1] pages in [one_entry_state]. *)
Lemma allocatePages_too_large_witness :
  allocatePages evict_model "big" ((TOTAL_PAGES + 1) * PAGE_SIZE) "c" one_entry_state
  = (false,
     (evict_model (calculateRequiredPages ((TOTAL_PAGES + 1) * PAGE_SIZE))
        (state_before_eviction
           (calculateRequiredPages ((TOTAL_PAGES + 1) * PAGE_SIZE))
           one_entry_state)).2).
Proof.
  apply allocatePages_too_large; by_compute.
Defined.

(** The request for [TOTAL_PAGES + 1] pages in [one_entry_state] fails with
    the plain [false], and the entry of [k], which was there before the
    call, has been evicted by it. *)
Lemma too_large_request_evicts :
  TOTAL_PAGES < calculateRequiredPages ((TOTAL_PAGES + 1) * PAGE_SIZE)
  ∧ (allocatePages evict_model "big" ((TOTAL_PAGES + 1) * PAGE_SIZE) "c"
       one_entry_state).1 = false
  ∧ is_Some (entries one_entry_state !! "k")
  ∧ entries
      (allocatePages evict_model "big" ((TOTAL_PAGES + 1) * PAGE_SIZE) "c"
         one_entry_state).2 !! "k" = None
  ∧ (allocatePages evict_model "big" ((TOTAL_PAGES + 1) * PAGE_SIZE) "c"
       one_entry_state).2 ≠ one_entry_state.
Proof.
  assert (is_Some (entries one_entry_state !! "k")) as Hk
    by (eexists; vm_compute; reflexivity).
  assert (entries
            (allocatePages evict_model "big" ((TOTAL_PAGES + 1) * PAGE_SIZE) "c"
               one_entry_state).2 !! "k" = None) as Hgone
    by (vm_compute; reflexivity).
  split; [by_compute |]. split; [vm_compute; reflexivity |].
  split; [exact Hk |]. split; [exact Hgone |].
  intros Heq. rewrite Heq in Hgone. rewrite Hgone in Hk. by destruct Hk.
Qed.

End AdmissionProofs.

(** ** The scenarios of the specification *)

Section Scenarios.

(** Best-fit choice: a request for three pages takes the extent of five. *)
Example best_fit_takes_smallest_fit :
  findBestFitBlock 3 [FreeBlock.mk 0 2; FreeBlock.mk 3 5; FreeBlock.mk 9 1] = Some 1%nat.
Proof. reflexivity. Qed.

(** No extent is large enough. *)
Example best_fit_finds_nothing :
  findBestFitBlock 6 [FreeBlock.mk 0 2; FreeBlock.mk 3 5; FreeBlock.mk 9 1] = None.
Proof. reflexivity. Qed.

(** Split: three pages from a fresh arena leave the extent [(3, 2557)]. *)
Example split_leaves_remainder :
  free_list_head
    (allocatePages evict_model "A" (3 * PAGE_SIZE) "c" (initializeCache FIFO)).2
  = [FreeBlock.mk 3 2557].
Proof. vm_compute. reflexivity. Qed.

(** Coalesce on free: deleting the entry gives the whole arena back as one
    extent. *)
Example free_coalesces_with_remainder :
  free_list_head
    (release_entry "A"
       (allocatePages evict_model "A" (3 * PAGE_SIZE) "c" (initializeCache FIFO)).2)
  = [FreeBlock.mk 0 2560].
Proof. vm_compute. reflexivity. Qed.

(** Defragment trigger: in [scenario_state] no extent has 2558 pages, the
    arena is compacted, B moves from page 4 to page 0 and the request is
    placed at page 1. *)
Example defragment_then_allocate :
  free_list_head scenario_state = [FreeBlock.mk 0 4; FreeBlock.mk 5 2555]
  ∧ findBestFitBlock 2558 (free_list_head scenario_state) = None
  ∧ (allocatePages evict_model "D" (2558 * PAGE_SIZE) "c" scenario_state).1 = true
  ∧ CacheEntry.start_page
      <$> entries (allocatePages evict_model "D" (2558 * PAGE_SIZE) "c" scenario_state).2
          !! "B" = Some 0
  ∧ CacheEntry.start_page
      <$> entries (allocatePages evict_model "D" (2558 * PAGE_SIZE) "c" scenario_state).2
          !! "D" = Some 1
  ∧ free_list_head
      (allocatePages evict_model "D" (2558 * PAGE_SIZE) "c" scenario_state).2
    = [FreeBlock.mk 2559 1].
Proof. vm_compute. repeat split. Qed.

End Scenarios.

(** * Further properties of the memory manager *)

(** ** First fit, and how best fit relates to it *)

Section FirstFit.

Implicit Types (fl l : list FreeBlock.t) (n : Z).

Lemma findFirstFit_scan_spec n l idx :
  (findFirstFit_scan n l idx = None ∧ ∀ b, b ∈ l → FreeBlock.num_pages b < n)
  ∨ ∃ j b,
      findFirstFit_scan n l idx = Some (idx + j)%nat
      ∧ l !! j = Some b
      ∧ n ≤ FreeBlock.num_pages b
      ∧ ∀ j' b', (j' < j)%nat → l !! j' = Some b' → FreeBlock.num_pages b' < n.
Proof.
  revert idx. induction l as [|blk next IH]; intros idx; simpl.
  - left. split; [done |]. intros b Hb. by apply elem_of_nil in Hb.
  - destruct (n <=? FreeBlock.num_pages blk) eqn:Hge.
    + apply Z.leb_le in Hge. right. exists O, blk.
      split; [f_equal; lia |]. split; [done |]. split; [done |].
      intros j' b' Hj'. lia.
    + apply Z.leb_gt in Hge.
      destruct (IH (S idx)) as [[Heq Hnone] | (j & b & Heq & Hj & Hb & Hbefore)].
      * left. split; [done |].
        intros b [-> | Hb]%elem_of_cons; [done | by apply Hnone].
      * right. exists (S j), b. split; [rewrite Heq; f_equal; lia |].
        split; [done |]. split; [done |].
        intros [|j'] b' Hlt Hj'; simpl in Hj'.
        -- by injection Hj' as <-.
        -- apply (Hbefore j'); [lia | done].
Qed.

(** X1. [findFirstFitBlock n] returns no block exactly when every extent has
    fewer than [n] pages; a block it returns has at least [n] pages and
    every extent before it in the list has fewer. *)
Theorem findFirstFitBlock_first_fit fl n :
  (findFirstFitBlock n fl = None ↔ ∀ b, b ∈ fl → FreeBlock.num_pages b < n)
  ∧ (∀ i, findFirstFitBlock n fl = Some i →
       ∃ b, fl !! i = Some b
         ∧ n ≤ FreeBlock.num_pages b
         ∧ ∀ j b', (j < i)%nat → fl !! j = Some b' → FreeBlock.num_pages b' < n).
Proof.
  unfold findFirstFitBlock.
  destruct (findFirstFit_scan_spec n fl O)
    as [[Heq Hnone] | (j & b & Heq & Hj & Hb & Hbefore)]; rewrite Heq.
  - split; [done |]. intros i [=].
  - split.
    + split; [done |]. intros Hall.
      apply list_elem_of_lookup_2 in Hj. specialize (Hall b Hj). lia.
    + intros i [= <-]. exists b. done.
Qed.

(** X2. On a free list whose extents are shorter than [SIZE_MAX] pages, best
    fit finds a block exactly when first fit does; the block of best fit is
    then no longer than the block of first fit and does not come before it
    in the list. *)
Theorem findBestFitBlock_vs_first_fit fl n :
  Forall (λ b, FreeBlock.num_pages b < SIZE_MAX) fl →
  (is_Some (findBestFitBlock n fl) ↔ is_Some (findFirstFitBlock n fl))
  ∧ (∀ i j bi bj,
       findBestFitBlock n fl = Some i → findFirstFitBlock n fl = Some j →
       fl !! i = Some bi → fl !! j = Some bj →
       FreeBlock.num_pages bi ≤ FreeBlock.num_pages bj ∧ (j ≤ i)%nat).
Proof.
  intros Hmax. rewrite Forall_forall in Hmax.
  unfold findBestFitBlock, findFirstFitBlock.
  destruct (findFirstFit_scan_spec n fl O)
    as [[-> Hnone] | (j & b & -> & Hj & Hb & Hbefore)];
  destruct (findBestFit_scan_spec n fl O None SIZE_MAX)
    as [[-> Hnone'] | (j' & b' & -> & Hj' & Hb' & Hmin)]; cbn [fst].
  - split; [done |]. intros ???? [=].
  - apply list_elem_of_lookup_2 in Hj'. specialize (Hnone b' Hj'). lia.
  - apply list_elem_of_lookup_2 in Hj.
    specialize (Hnone' b Hj). specialize (Hmax b Hj). simpl in Hmax. lia.
  - split; [split; intros _; eexists; reflexivity |].
    intros i k bi bj [= <-] [= <-] Hi Hk. simpl in Hi, Hk.
    rewrite Hj' in Hi. rewrite Hj in Hk. injection Hi as <-. injection Hk as <-.
    split; [by apply (Hmin j b) |].
    destruct (decide (j' < j)%nat) as [Hlt|]; [| lia].
    specialize (Hbefore j' b' Hlt Hj'). lia.
Qed.

Lemma findBestFitBlock_vs_first_fit_witness :
  findBestFitBlock 3 [FreeBlock.mk 0 7; FreeBlock.mk 9 3; FreeBlock.mk 20 4] = Some 1%nat
  ∧ findFirstFitBlock 3 [FreeBlock.mk 0 7; FreeBlock.mk 9 3; FreeBlock.mk 20 4] = Some O
  ∧ (FreeBlock.num_pages (FreeBlock.mk 9 3) ≤ FreeBlock.num_pages (FreeBlock.mk 0 7)
     ∧ (0 ≤ 1)%nat).
Proof.
  split; [reflexivity |]. split; [reflexivity |].
  destruct (findBestFitBlock_vs_first_fit
              [FreeBlock.mk 0 7; FreeBlock.mk 9 3; FreeBlock.mk 20 4] 3) as [_ H].
  { repeat constructor. }
  by apply H.
Defined.

End FirstFit.

(** ** Taking pages out of the free list *)

Section TakeFromFreeList.

Implicit Types (fl l pre post : list FreeBlock.t) (a b : FreeBlock.t) (st : State).

Lemma sum_extents_cons b l :
  sum_extents (b :: l) = FreeBlock.num_pages b + sum_extents l.
Proof. reflexivity. Qed.

Lemma sum_extents_app l1 l2 :
  sum_extents (l1 ++ l2) = sum_extents l1 + sum_extents l2.
Proof.
  induction l1 as [|b l1 IH]; [done |].
  rewrite <- app_comm_cons, !sum_extents_cons, IH. lia.
Qed.

Lemma sum_extents_nonneg l : Forall extent_ok l → 0 ≤ sum_extents l.
Proof.
  induction 1 as [|b l (? & ? & ?) _ IH]; [done |]. rewrite sum_extents_cons. lia.
Qed.

(** In a sorted list every extent after a node starts above its end. *)
Lemma sorted_coalesced_above b post x :
  sorted_coalesced (b :: post) → Forall extent_ok post → x ≤ block_end b →
  Forall (λ c, x < FreeBlock.start_page c) post.
Proof.
  revert b x. induction post as [|c post IH]; intros b x Hsc Hok Hx; [constructor |].
  destruct Hsc as [Hbc Hsc]. apply Forall_cons in Hok as [(? & ? & ?) Hok].
  constructor; [lia |]. apply (IH c); [done | done |]. unfold block_end in *. lia.
Qed.

(** In a sorted list every extent before a node ends below its start. *)
Lemma sorted_coalesced_below pre b :
  sorted_coalesced (pre ++ [b]) → Forall extent_ok (pre ++ [b]) →
  Forall (λ a, block_end a < FreeBlock.start_page b) pre.
Proof.
  induction pre as [|a pre IH]; intros Hsc Hok; [constructor |].
  rewrite <- app_comm_cons in Hsc, Hok.
  apply Forall_cons in Hok as [Ha Hok].
  constructor.
  - pose proof (sorted_coalesced_above a (pre ++ [b]) (block_end a) Hsc Hok ltac:(lia))
      as Habove.
    apply Forall_app in Habove as [_ [Hb _]%Forall_cons]. done.
  - apply IH; [by eapply sorted_coalesced_tail | done].
Qed.

(** A node of a sorted list splits it into the extents below and above. *)
Lemma sorted_coalesced_around fl i b :
  sorted_coalesced fl → Forall extent_ok fl → fl !! i = Some b →
  ∃ pre post,
    fl = pre ++ b :: post ∧ length pre = i
    ∧ sorted_coalesced pre ∧ sorted_coalesced post
    ∧ Forall extent_ok pre ∧ Forall extent_ok post ∧ extent_ok b
    ∧ Forall (λ a, block_end a < FreeBlock.start_page b) pre
    ∧ Forall (λ c, block_end b < FreeBlock.start_page c) post.
Proof.
  intros Hsc Hok Hi. exists (take i fl), (drop (S i) fl).
  pose proof (take_drop_middle fl i b Hi) as Hfl.
  assert (length (take i fl) = i) as Hlen.
  { rewrite length_take. apply lookup_lt_Some in Hi. lia. }
  set (pre := take i fl) in *. set (post := drop (S i) fl) in *.
  clearbody pre post. subst fl.
  pose proof Hok as Hok'.
  apply Forall_app in Hok as [Hokpre [Hb Hokpost]%Forall_cons].
  pose proof Hsc as Hsc'.
  apply sorted_coalesced_app in Hsc as (Hscpre & Hscb & _).
  split; [done |]. split; [done |]. split; [done |].
  split; [by eapply sorted_coalesced_tail |].
  split; [done |]. split; [done |]. split; [done |]. split.
  - apply sorted_coalesced_below.
    + change (pre ++ b :: post) with (pre ++ [b] ++ post) in Hsc'.
      rewrite app_assoc in Hsc'. by apply sorted_coalesced_app in Hsc' as (? & _).
    + apply Forall_app. split; [done | by constructor].
  - by apply (sorted_coalesced_above b post (block_end b)).
Qed.

(** Joining the extents below a node with the extents above it. *)
Lemma sorted_coalesced_join pre b post :
  sorted_coalesced pre → sorted_coalesced post → extent_ok b →
  Forall (λ a, block_end a < FreeBlock.start_page b) pre →
  Forall (λ c, block_end b < FreeBlock.start_page c) post →
  sorted_coalesced (pre ++ post).
Proof.
  intros Hpre Hpost (? & ? & ?) Hbelow Habove.
  apply sorted_coalesced_app. split; [done |]. split; [done |].
  intros a c Ha Hc.
  apply last_Some_elem_of in Ha. apply head_Some_elem_of in Hc.
  rewrite Forall_forall in Hbelow, Habove.
  specialize (Hbelow a Ha). specialize (Habove c Hc).
  unfold block_end in *. simpl in *. lia.
Qed.

Lemma covers_outside pre b post p :
  Forall (λ a, block_end a < FreeBlock.start_page b) pre →
  Forall (λ c, block_end b < FreeBlock.start_page c) post →
  Forall extent_ok pre → Forall extent_ok post →
  FreeBlock.start_page b ≤ p < block_end b →
  ¬ covers (pre ++ post) p.
Proof.
  intros Hbelow Habove Hokpre Hokpost Hp.
  rewrite covers_app. unfold covers. rewrite !Exists_exists.
  rewrite Forall_forall in Hbelow, Habove.
  intros [(a & Ha & Hpa) | (c & Hc & Hpc)].
  - specialize (Hbelow a Ha). simpl in Hbelow. lia.
  - specialize (Habove c Hc). simpl in Habove. lia.
Qed.

(** The free list that [splitBlock] leaves. *)
Lemma splitBlock_free_list st i n b :
  free_list_head st !! i = Some b →
  free_list_head (splitBlock i n st)
  = if FreeBlock.num_pages b =? n then delete i (free_list_head st)
    else <[i := FreeBlock.mk (wrap (FreeBlock.start_page b + n))
                  (wrap (FreeBlock.num_pages b - n))]> (free_list_head st).
Proof.
  intros Hi. unfold splitBlock, removeFromFreeList. rewrite Hi.
  by destruct (_ =? _).
Qed.

Lemma split_list_ok fl i b n :
  sorted_coalesced fl → Forall extent_ok fl →
  fl !! i = Some b →
  0 ≤ n ≤ FreeBlock.num_pages b →
  let fl' :=
    if FreeBlock.num_pages b =? n then delete i fl
    else <[i := FreeBlock.mk (wrap (FreeBlock.start_page b + n))
                  (wrap (FreeBlock.num_pages b - n))]> fl in
  sorted_coalesced fl'
  ∧ Forall extent_ok fl'
  ∧ (∀ p, covers fl' p
          ↔ covers fl p ∧ ¬ (FreeBlock.start_page b ≤ p < FreeBlock.start_page b + n))
  ∧ sum_extents fl' = sum_extents fl - n.
Proof.
  intros Hsc Hok Hi Hn fl'. subst fl'.
  destruct (sorted_coalesced_around _ _ _ Hsc Hok Hi)
    as (pre & post & Hfl & Hlen & Hscpre & Hscpost & Hokpre & Hokpost & Hokb
        & Hbelow & Habove).
  subst i.
  pose proof Hokb as (Hb0 & Hb1 & Hb2).
  destruct (FreeBlock.num_pages b =? n) eqn:Hexact.
  - (* exact fit *)
    apply Z.eqb_eq in Hexact.
    rewrite Hfl.
    replace (delete (length pre) (pre ++ b :: post)) with (pre ++ post)
      by (rewrite delete_middle; done).
    split; [by eapply sorted_coalesced_join |].
    split; [by apply Forall_app |]. split.
    + intros p. rewrite !covers_app, covers_cons. unfold block_end. split.
      * intros Hp. split; [tauto |]. intros Hin.
        eapply covers_outside; [exact Hbelow | exact Habove | done | done | |
                                apply covers_app; exact Hp].
        unfold block_end. lia.
      * intros [[Hp | [Hp | Hp]] Hnot]; [by left | lia | by right].
    + rewrite !sum_extents_app, sum_extents_cons. lia.
  - (* a larger node *)
    apply Z.eqb_neq in Hexact.
    rewrite Hfl.
    rewrite insert_app_r_alt by lia. rewrite Nat.sub_diag. cbn [insert list_insert].
    unfold block_end in *.
    rewrite !wrap_small by lia.
    split; [| split; [| split]].
    + apply sorted_coalesced_app. split; [done |]. split.
      * split; [| done]. destruct post as [|c post]; [done |].
        apply Forall_cons in Habove as [Hc _]. unfold block_end. simpl in *. lia.
      * intros a c Ha [= <-]. apply last_Some_elem_of in Ha.
        rewrite Forall_forall in Hbelow. specialize (Hbelow a Ha).
        unfold block_end. simpl in *. lia.
    + apply Forall_app. split; [done |]. constructor; [| done].
      unfold extent_ok, block_end. simpl. lia.
    + intros p. rewrite !covers_app, !covers_cons. unfold block_end. simpl.
      rewrite Forall_forall in Hbelow, Habove. split.
      * intros [Hp | [Hp | Hp]].
        -- split; [by left |]. unfold covers in Hp. apply Exists_exists in Hp as (a & Ha & Hpa).
           specialize (Hbelow a Ha). simpl in *. unfold block_end in *. lia.
        -- split; [right; left; lia | lia].
        -- split; [by right; right |]. unfold covers in Hp.
           apply Exists_exists in Hp as (c & Hc & Hpc).
           specialize (Habove c Hc). simpl in *. lia.
      * intros [[Hp | [Hp | Hp]] Hnot]; [by left | right; left; lia | by right; right].
    + rewrite !sum_extents_app, !sum_extents_cons. simpl. lia.
Qed.

(** X3. [splitBlock] of [n] pages, [0 ≤ n ≤ len], from a node of a sorted
    and coalesced free list of non-empty extents leaves a sorted and
    coalesced list of non-empty extents that covers the pages covered
    before except the first [n] pages of the node, and whose lengths sum to
    [n] less: an exact fit unlinks the node, a larger node is shortened
    from its low end. *)
Theorem splitBlock_takes_low_pages st i b n :
  sorted_coalesced (free_list_head st) → Forall extent_ok (free_list_head st) →
  free_list_head st !! i = Some b →
  0 ≤ n ≤ FreeBlock.num_pages b →
  sorted_coalesced (free_list_head (splitBlock i n st))
  ∧ Forall extent_ok (free_list_head (splitBlock i n st))
  ∧ (∀ p, covers (free_list_head (splitBlock i n st)) p
          ↔ covers (free_list_head st) p
            ∧ ¬ (FreeBlock.start_page b ≤ p < FreeBlock.start_page b + n))
  ∧ sum_extents (free_list_head (splitBlock i n st))
    = sum_extents (free_list_head st) - n.
Proof.
  intros Hsc Hok Hi Hn. rewrite (splitBlock_free_list st i n b Hi).
  by apply split_list_ok.
Qed.

(** Two pages from the second extent of [hole_state]. *)
Lemma splitBlock_takes_low_pages_witness :
  free_list_head (splitBlock 1 2 hole_state) = [FreeBlock.mk 0 2; FreeBlock.mk 7 1]
  ∧ sorted_coalesced (free_list_head (splitBlock 1 2 hole_state))
  ∧ sum_extents (free_list_head (splitBlock 1 2 hole_state))
    = sum_extents (free_list_head hole_state) - 2.
Proof.
  split; [vm_compute; reflexivity |].
  destruct (splitBlock_takes_low_pages hole_state 1 (FreeBlock.mk 5 3) 2)
    as (H1 & _ & _ & H4); [by_compute | by_compute | vm_compute; reflexivity | |].
  - cbn. lia.
  - by split.
Defined.

(** X4. [removeFromFreeList] of a node keeps the counter of free pages equal
    to the sum of the extent lengths, when it was so before and the sum is
    a [size_t]: both lose the length of the node. *)
Theorem removeFromFreeList_keeps_count st i b :
  Forall extent_ok (free_list_head st) →
  free_list_head st !! i = Some b →
  counter_exact st → sum_extents (free_list_head st) ≤ SIZE_MAX →
  counter_exact (removeFromFreeList i st)
  ∧ free_list_head (removeFromFreeList i st) = delete i (free_list_head st)
  ∧ total_free_pages (removeFromFreeList i st)
    = total_free_pages st - FreeBlock.num_pages b.
Proof.
  intros Hok Hi Hcount Hmax. unfold counter_exact, removeFromFreeList in *.
  rewrite Hi. cbn [free_list_head total_free_pages set_free_list].
  pose proof (take_drop_middle _ _ _ Hi) as Hfl.
  assert (length (take i (free_list_head st)) = i) as Hlen.
  { rewrite length_take. apply lookup_lt_Some in Hi. lia. }
  set (pre := take i (free_list_head st)) in *.
  set (post := drop (S i) (free_list_head st)) in *. clearbody pre post.
  rewrite Hcount, <- Hfl in *. subst i. rewrite delete_middle.
  apply Forall_app in Hok as [Hpre [(? & ? & ?) Hpost]%Forall_cons].
  pose proof (sum_extents_nonneg _ Hpre). pose proof (sum_extents_nonneg _ Hpost).
  rewrite !sum_extents_app, sum_extents_cons in *.
  rewrite wrap_small by lia. split; [lia |]. split; [done | lia].
Qed.

Lemma removeFromFreeList_keeps_count_witness :
  counter_exact hole_state
  ∧ counter_exact (removeFromFreeList 0 hole_state)
  ∧ free_list_head (removeFromFreeList 0 hole_state) = [FreeBlock.mk 5 3].
Proof.
  assert (counter_exact hole_state) as Hc by by_compute.
  destruct (removeFromFreeList_keeps_count hole_state 0 (FreeBlock.mk 0 2))
    as (H1 & H2 & _); [by_compute | vm_compute; reflexivity | done | by_compute |].
  split; [done |]. split; [done |]. rewrite H2. vm_compute. reflexivity.
Defined.

End TakeFromFreeList.

(** ** Giving pages back to the free list *)

Section GiveToFreeList.

Implicit Types (fl l pre post : list FreeBlock.t) (a b : FreeBlock.t) (st : State).

Lemma coalesce_next_sum start len post :
  0 ≤ start → 1 ≤ len → start + len ≤ SIZE_MAX →
  Forall extent_ok post →
  (∀ b, head post = Some b → start + len ≤ FreeBlock.start_page b) →
  sum_extents
    match post with
    | nb :: rest =>
        if wrap (block_end (FreeBlock.mk start len)) =? FreeBlock.start_page nb
        then FreeBlock.mk start (wrap (len + FreeBlock.num_pages nb)) :: rest
        else FreeBlock.mk start len :: post
    | [] => [FreeBlock.mk start len]
    end
  = len + sum_extents post.
Proof.
  intros Hs Hl Hmax Hok Hhd. destruct post as [|nb rest]; [done |].
  apply Forall_cons in Hok as [(? & ? & ?) _]. unfold block_end in *. simpl in *.
  rewrite wrap_small by lia.
  destruct (_ =? _) eqn:Hadj; [| done].
  apply Z.eqb_eq in Hadj. rewrite !sum_extents_cons. simpl.
  rewrite wrap_small by lia. lia.
Qed.

Lemma coalesce_prev_sum pre a m post :
  extent_ok a → extent_ok m → block_end a ≤ FreeBlock.start_page m →
  sum_extents
    (pre ++
       (if wrap (block_end a) =? FreeBlock.start_page m
        then FreeBlock.mk (FreeBlock.start_page a)
               (wrap (FreeBlock.num_pages a + FreeBlock.num_pages m)) :: post
        else a :: m :: post))
  = sum_extents (pre ++ [a]) + sum_extents (m :: post).
Proof.
  intros (? & ? & ?) (? & ? & ?) Hle. unfold block_end in *.
  rewrite wrap_small by lia. rewrite !sum_extents_app.
  destruct (_ =? _) eqn:Hadj; rewrite !sum_extents_cons; simpl.
  - apply Z.eqb_eq in Hadj. rewrite wrap_small by lia.
    change (sum_extents []) with 0. lia.
  - change (sum_extents []) with 0. lia.
Qed.

(** The lengths of the list that [addToFreeList] leaves sum to the old sum
    plus the length of the run. *)
Lemma insert_free_sum start len fl :
  sorted_coalesced fl → Forall extent_ok fl →
  0 ≤ start → 1 ≤ len → start + len ≤ SIZE_MAX →
  run_disjoint start len fl →
  sum_extents
    (coalesce_prev (insert_position start fl)
       (coalesce_next (insert_position start fl)
          (link_at (insert_position start fl) (FreeBlock.mk start len) fl)))
  = sum_extents fl + len.
Proof.
  intros Hsc Hok Hs Hl Hmax Hdis.
  destruct (insert_position_spec start fl) as (Hpos & Hpre & Hpost).
  set (pos := insert_position start fl) in *.
  unfold link_at.
  assert (length (take pos fl) = pos) as Hlen by (rewrite length_take; lia).
  pose proof (take_drop pos fl) as Hfl.
  set (pre := take pos fl) in *. set (post := drop pos fl) in *.
  rewrite <- Hfl in Hsc, Hok, Hdis |- *. clear Hfl Hpos.
  clearbody pre post pos. subst pos.
  apply sorted_coalesced_app in Hsc as (Hscpre & Hscpost & Hmid).
  apply Forall_app in Hok as [Hokpre Hokpost].
  apply Forall_app in Hdis as [Hdispre Hdispost].
  rewrite coalesce_next_middle.
  cbn [FreeBlock.start_page FreeBlock.num_pages].
  assert (∀ b, head post = Some b → start + len ≤ FreeBlock.start_page b) as Hhd.
  { intros b Hb. specialize (Hpost b Hb). destruct post as [|nb rest]; [done |].
    injection Hb as ->.
    apply Forall_cons in Hdispost as [Hd _]. apply Forall_cons in Hokpost as [Ho _].
    destruct Ho as (? & ? & ?). unfold block_end in *. lia. }
  pose proof (coalesce_next_sum start len post Hs Hl Hmax Hokpost Hhd) as Hsum.
  destruct (coalesce_next_ok start len post Hs Hl Hmax Hscpost Hokpost Hhd)
    as (m & post' & Heq & Hms & Hmok & Hscm & Hokp' & _).
  rewrite Heq in Hsum |- *. clear Heq.
  destruct pre as [|a pre' _] using rev_ind.
  - simpl. rewrite Hsum. lia.
  - assert (block_end a ≤ FreeBlock.start_page m) as Hle.
    { rewrite Hms.
      apply Forall_app in Hpre as [_ [Ha _]%Forall_cons].
      apply Forall_app in Hdispre as [_ [Hd _]%Forall_cons].
      apply Forall_app in Hokpre as [_ [(? & ? & ?) _]%Forall_cons].
      unfold block_end in *. lia. }
    apply Forall_app in Hokpre as [_ [Hoka _]%Forall_cons].
    rewrite length_app. cbn [length]. rewrite Nat.add_1_r.
    rewrite <- app_assoc. cbn [app].
    rewrite coalesce_prev_middle, coalesce_prev_sum by done.
    rewrite Hsum, !sum_extents_app. lia.
Qed.

(** X5. [addToFreeList] of a non-empty run that meets no extent of a sorted
    and coalesced free list keeps the counter of free pages equal to the
    sum of the extent lengths, when it was so before and the new sum is a
    [size_t]: merging neighbours loses no page. *)
Theorem addToFreeList_keeps_count st start len :
  sorted_coalesced (free_list_head st) →
  Forall extent_ok (free_list_head st) →
  0 ≤ start → 1 ≤ len → start + len ≤ SIZE_MAX →
  run_disjoint start len (free_list_head st) →
  counter_exact st → sum_extents (free_list_head st) + len ≤ SIZE_MAX →
  counter_exact (addToFreeList start len st)
  ∧ sum_extents (free_list_head (addToFreeList start len st))
    = sum_extents (free_list_head st) + len.
Proof.
  intros Hsc Hok Hs Hl Hmax Hdis Hcount Hsum.
  pose proof (insert_free_sum start len _ Hsc Hok Hs Hl Hmax Hdis) as Hnew.
  unfold counter_exact in *. rewrite addToFreeList_free_list, Hnew.
  split; [| done].
  change (total_free_pages (addToFreeList start len st))
    with (wrap (total_free_pages st + len)).
  pose proof (sum_extents_nonneg _ Hok).
  rewrite Hcount, wrap_small by lia. done.
Qed.

(** Closing the hole of [hole_state]. *)
Lemma addToFreeList_keeps_count_witness :
  counter_exact hole_state
  ∧ counter_exact (addToFreeList 2 3 hole_state)
  ∧ total_free_pages (addToFreeList 2 3 hole_state) = 8.
Proof.
  assert (counter_exact hole_state) as Hc by by_compute.
  destruct (addToFreeList_keeps_count hole_state 2 3) as (H1 & _);
    [by_compute .. |].
  split; [done |]. split; [done |]. vm_compute. reflexivity.
Defined.

End GiveToFreeList.

(** ** What compaction re-establishes *)

Section CompactionInvariants.

Implicit Types (st s : State) (c : list Page.t) (e : CacheEntry.t)
  (l order : list (string * CacheEntry.t)).

Lemma sum_Z_Permutation (l1 l2 : list Z) :
  l1 ≡ₚ l2 → foldr Z.add 0 l1 = foldr Z.add 0 l2.
Proof. induction 1; simpl; lia. Qed.

Lemma sum_pages_Permutation l1 l2 : l1 ≡ₚ l2 → sum_pages l1 = sum_pages l2.
Proof. intros H. unfold sum_pages. apply sum_Z_Permutation. by rewrite H. Qed.

Lemma sum_entry_pages_order st order :
  compaction_order st order → sum_pages order = sum_entry_pages (entries st).
Proof. intros [Hperm _]. by apply sum_pages_Permutation. Qed.

(** The sum of the page counts only depends on the page count per key. *)
Lemma sum_entry_pages_ext (m1 m2 : gmap string CacheEntry.t) :
  (∀ k, CacheEntry.num_pages <$> m1 !! k = CacheEntry.num_pages <$> m2 !! k) →
  sum_entry_pages m1 = sum_entry_pages m2.
Proof.
  intros Hext.
  assert (∀ m : gmap string CacheEntry.t,
            sum_entry_pages m
            = foldr Z.add 0 (map_to_list (CacheEntry.num_pages <$> m)).*2) as Hsum.
  { intros m. unfold sum_entry_pages. apply sum_Z_Permutation.
    rewrite map_to_list_fmap, <- list_fmap_compose. done. }
  rewrite !Hsum. f_equal. f_equal. f_equal.
  apply map_eq. intros k. rewrite !lookup_fmap. apply Hext.
Qed.

Lemma sum_pages_app l1 l2 : sum_pages (l1 ++ l2) = sum_pages l1 + sum_pages l2.
Proof.
  induction l1 as [|kv l1 IH]; [done |].
  rewrite <- app_comm_cons, !sum_pages_cons, IH. lia.
Qed.

Lemma sum_pages_nonneg l :
  Forall (λ kv, entry_ok kv.2) l → 0 ≤ sum_pages l.
Proof.
  induction 1 as [|kv l (? & ? & ?) _ IH]; [done |]. rewrite sum_pages_cons. lia.
Qed.

(** The run packed for the entry at position [i] lies among the pages of
    the sequence. *)
Lemma sum_pages_take_lookup l i k e :
  Forall (λ kv, entry_ok kv.2) l → l !! i = Some (k, e) →
  0 ≤ sum_pages (take i l)
  ∧ sum_pages (take (S i) l) = sum_pages (take i l) + CacheEntry.num_pages e
  ∧ sum_pages (take (S i) l) ≤ sum_pages l.
Proof.
  intros Hok Hi.
  assert (sum_pages l = sum_pages (take (S i) l) + sum_pages (drop (S i) l)) as Hl
    by (by rewrite <- sum_pages_app, take_drop).
  pose proof (sum_pages_nonneg (take i l) ltac:(by apply Forall_take)).
  pose proof (sum_pages_nonneg (drop (S i) l) ltac:(by apply Forall_drop)).
  rewrite (take_S_r l i (k, e) Hi), sum_pages_app in *.
  change (sum_pages [(k, e)]) with (CacheEntry.num_pages e + 0) in *. lia.
Qed.

Lemma sum_pages_take_mono l i j :
  Forall (λ kv, entry_ok kv.2) l → (i ≤ j)%nat →
  sum_pages (take i l) ≤ sum_pages (take j l).
Proof.
  intros Hok Hij.
  assert (take j l = take i l ++ drop i (take j l)) as ->.
  { rewrite <- (take_drop i (take j l)) at 1. f_equal. rewrite take_take. f_equal. lia. }
  rewrite sum_pages_app.
  assert (0 ≤ sum_pages (drop i (take j l))); [| lia].
  apply sum_pages_nonneg. apply Forall_drop, Forall_take. done.
Qed.

Lemma chained_entries_ok lo l : chained lo l → Forall (λ kv, entry_ok kv.2) l.
Proof.
  revert lo. induction l as [|kv l IH]; intros lo Hch; [constructor |].
  destruct Hch as (_ & Hok & Hch). constructor; [done | by eapply IH].
Qed.

(** Every page below the total lies in the packed run of one entry. *)
Lemma sum_pages_locate l x :
  Forall (λ kv, entry_ok kv.2) l → 0 ≤ x < sum_pages l →
  ∃ j k e, l !! j = Some (k, e)
    ∧ sum_pages (take j l) ≤ x < sum_pages (take (S j) l).
Proof.
  revert x. induction l as [|[k e] l IH]; intros x Hok Hx.
  - unfold sum_pages in Hx. simpl in Hx. lia.
  - apply Forall_cons in Hok as [(? & ? & ?) Hok]. rewrite sum_pages_cons in Hx.
    simpl in *. destruct (decide (x < CacheEntry.num_pages e)) as [Hlt | Hge].
    + exists O, k, e. split; [done |]. unfold sum_pages. simpl. lia.
    + destruct (IH (x - CacheEntry.num_pages e) Hok ltac:(lia))
        as (j & k' & e' & Hj & Hrange).
      exists (S j), k', e'. split; [done |].
      cbn [take]. rewrite !sum_pages_cons. simpl. lia.
Qed.

(** X6. Compaction of a well-formed arena sets the counter of free pages
    right, whatever it was before: afterwards the counter is the sum of
    the extent lengths, the entries own as many pages as before, and
    counter plus owned pages is [TOTAL_PAGES]. *)
Theorem compactMemory_restores_count st order :
  arena_ok st → compaction_order st order →
  counter_exact (compactMemory_with order st)
  ∧ sum_entry_pages (entries (compactMemory_with order st))
    = sum_entry_pages (entries st)
  ∧ total_free_pages (compactMemory_with order st)
    + sum_entry_pages (entries (compactMemory_with order st)) = TOTAL_PAGES.
Proof.
  intros Hok Hord.
  destruct (compactMemory_with_spec st order Hok Hord)
    as (Hle & Hent & Hnew & Hfl & Htot).
  destruct (compaction_order_chained st order Hok Hord) as (_ & _ & Hin).
  assert (sum_entry_pages (entries (compactMemory_with order st))
          = sum_entry_pages (entries st)) as Hsame.
  { apply sum_entry_pages_ext. intros k.
    destruct (entries st !! k) as [e|] eqn:Hk.
    - apply Hin in Hk. apply list_elem_of_lookup in Hk as [i Hi].
      destruct (Hent i k e Hi) as (_ & -> & _). done.
    - by rewrite (Hnew k Hk). }
  split; [| split; [done |]].
  - unfold counter_exact. rewrite Hfl, Htot.
    destruct (_ <? _) eqn:Hlt; [unfold sum_extents; simpl; lia |].
    apply Z.ltb_ge in Hlt. change (sum_extents []) with 0. lia.
  - rewrite Hsame, Htot, <- (sum_entry_pages_order st order Hord). lia.
Qed.

(** In [fragmented_state] the counter is stale; after compaction it is
    exact. *)
Lemma compactMemory_restores_count_witness :
  ¬ counter_exact fragmented_state
  ∧ counter_exact (compactMemory fragmented_state)
  ∧ total_free_pages (compactMemory fragmented_state)
    + sum_entry_pages (entries (compactMemory fragmented_state)) = TOTAL_PAGES.
Proof.
  split; [vm_compute; discriminate |].
  destruct (compactMemory_restores_count fragmented_state
              (merge_sort start_le (map_to_list (entries fragmented_state))))
    as (H1 & _ & H3); [by_compute | apply compactMemory_order |].
  by split.
Defined.

Lemma mark_used_lookup first limit c (i : nat) :
  mark_used first limit c !! i
  = (λ p, if (first <=? Z.of_nat i) && (Z.of_nat i <? limit)
          then Page.mk (Page.data p) false first else p)
      <$> c !! i.
Proof. unfold mark_used. apply list_lookup_imap. Qed.

(** The flags of a page after one entry has been handled. *)
Lemma compact_step_flags s cur k e (i : nat) p :
  0 ≤ cur ≤ CacheEntry.start_page e → entry_ok e →
  cache s !! i = Some p →
  ∃ p', cache (compact_step s cur (k, e)).1 !! i = Some p'
    ∧ (cur ≤ Z.of_nat i < cur + CacheEntry.num_pages e →
       Page.is_free p' = false ∧ Page.block_start p' = cur)
    ∧ (¬ cur ≤ Z.of_nat i < cur + CacheEntry.num_pages e →
       Page.is_free p' = Page.is_free p ∧ Page.block_start p' = Page.block_start p).
Proof.
  intros Hcur (Hs & Hn & Hend & Hds) Hp.
  unfold compact_step. cbn [fst snd]. rewrite wrap_arena by lia.
  assert (∃ q, (if CacheEntry.start_page e =? cur then cache s
                else imap (write_page cur
                             (readFromPages s (CacheEntry.start_page e)
                                (CacheEntry.data_size e))) (cache s)) !! i = Some q
               ∧ Page.is_free q = Page.is_free p
               ∧ Page.block_start q = Page.block_start p) as (q & Hq & Hq1 & Hq2).
  { destruct (_ =? _); [by exists p |].
    rewrite list_lookup_imap, Hp. eexists. split; [reflexivity |]. done. }
  destruct (CacheEntry.start_page e =? cur);
    cbn [cache set_cache set_entries writeToPages];
    rewrite mark_used_lookup, Hq; simpl; eexists; (split; [reflexivity |]);
    destruct (cur <=? Z.of_nat i) eqn:H1; destruct (Z.of_nat i <? _) eqn:H2; simpl;
    try apply Z.leb_le in H1; try apply Z.leb_gt in H1;
    try apply Z.ltb_lt in H2; try apply Z.ltb_ge in H2;
    (split; [intros ?; first [done | lia] | intros ?; first [done | lia]]).
Qed.

(** The flags of a page after the relocation loop. *)
Lemma compact_loop_flags l s cur (i : nat) p :
  0 ≤ cur → chained cur l → cache s !! i = Some p →
  ∃ p', cache (compact_loop l s cur).1 !! i = Some p'
    ∧ (Z.of_nat i < cur ∨ cur + sum_pages l ≤ Z.of_nat i →
       Page.is_free p' = Page.is_free p ∧ Page.block_start p' = Page.block_start p)
    ∧ (∀ j k e, l !! j = Some (k, e) →
         cur + sum_pages (take j l) ≤ Z.of_nat i < cur + sum_pages (take (S j) l) →
         Page.is_free p' = false ∧ Page.block_start p' = cur + sum_pages (take j l)).
Proof.
  revert s cur p. induction l as [|[k e] l IH]; intros s cur p Hcur Hch Hp.
  - exists p. split; [done |]. split; [done |]. intros j ?? Hj. by rewrite lookup_nil in Hj.
  - destruct Hch as (Hlo & Hok & Hch). simpl in Hlo, Hok, Hch.
    pose proof Hok as (He0 & He1 & He2 & He3).
    pose proof (sum_pages_nonneg l (chained_entries_ok _ _ Hch)) as Hsum.
    destruct (compact_step_flags s cur k e i p ltac:(lia) Hok Hp)
      as (p1 & Hp1 & Hin1 & Hout1).
    change (compact_loop ((k, e) :: l) s cur)
      with (compact_loop l (compact_step s cur (k, e)).1 (compact_step s cur (k, e)).2).
    replace (compact_step s cur (k, e)).2 with (cur + CacheEntry.num_pages e)
      by (unfold compact_step; cbn [snd]; rewrite wrap_arena; lia).
    destruct (IH (compact_step s cur (k, e)).1 (cur + CacheEntry.num_pages e) p1)
      as (p' & Hp' & Hout & Hin); [lia | | done |].
    { eapply chained_weaken; [| exact Hch]. lia. }
    exists p'. split; [done |]. split.
    + rewrite sum_pages_cons. simpl. intros Hi.
      destruct (Hout ltac:(lia)) as [-> ->]. apply Hout1. lia.
    + intros [|j] k' e' Hj Hi; simpl in Hj.
      * injection Hj as <- <-.
        change (sum_pages (take 0 ((k, e) :: l))) with 0 in *.
        change (sum_pages (take 1 ((k, e) :: l)))
          with (CacheEntry.num_pages e + 0) in *.
        destruct (Hout ltac:(lia)) as [-> ->].
        rewrite Z.add_0_r. apply Hin1. lia.
      * cbn [take] in Hi |- *. rewrite !sum_pages_cons in Hi. rewrite sum_pages_cons.
        simpl in *. rewrite Z.add_assoc. apply (Hin j k' e' Hj). lia.
Qed.

(** An entry of the compacted table comes from a position of the order. *)
Lemma compactMemory_with_entry st order k e' :
  arena_ok st → compaction_order st order →
  entries (compactMemory_with order st) !! k = Some e' →
  ∃ j e, order !! j = Some (k, e)
    ∧ e' = CacheEntry.with_start_page e (sum_pages (take j order)).
Proof.
  intros Hok Hord Hk'.
  destruct (compactMemory_with_spec st order Hok Hord) as (_ & Hent & Hnew & _).
  destruct (compaction_order_chained st order Hok Hord) as (_ & _ & Hin).
  destruct (entries st !! k) as [e|] eqn:Hk.
  - apply Hin in Hk. apply list_elem_of_lookup in Hk as [j Hj].
    exists j, e. split; [done |].
    destruct (Hent j k e Hj) as (_ & He' & _). congruence.
  - rewrite (Hnew k Hk) in Hk'. done.
Qed.

(** The flags of the pages after compaction. *)
Lemma compactMemory_with_cache st order (i : nat) p0 :
  arena_ok st → compaction_order st order →
  cache st !! i = Some p0 →
  ∃ p, cache (compactMemory_with order st) !! i = Some p
    ∧ (sum_pages order ≤ Z.of_nat i → Page.is_free p = true)
    ∧ (∀ j k e, order !! j = Some (k, e) →
         sum_pages (take j order) ≤ Z.of_nat i < sum_pages (take (S j) order) →
         Page.is_free p = false ∧ Page.block_start p = sum_pages (take j order)).
Proof.
  intros Hok Hord Hp0.
  destruct (compaction_order_chained st order Hok Hord) as (Hch & Hnd & Hin).
  pose proof (chained_total _ _ Hch) as Htot.
  pose proof (chained_entries_ok _ _ Hch) as Hoks.
  destruct Hok as (Hlen & _ & _).
  assert (Z.of_nat i < TOTAL_PAGES) as Hi.
  { apply lookup_lt_Some in Hp0. rewrite Hlen, TOTAL_PAGES_value in *. lia. }
  unfold compactMemory_with.
  destruct (compact_loop_spec order (set_free_list st [] 0) 0)
    as (L1 & _); try done.
  { intros k e Hk. by apply Hin. }
  destruct (compact_loop_flags order (set_free_list st [] 0) 0 i p0)
    as (p1 & Hp1 & _ & Hin1); [lia | done | done |].
  set (r := compact_loop order (set_free_list st [] 0) 0) in *. clearbody r.
  rewrite L1, !Z.add_0_l in *. unfold compact_finish.
  destruct (sum_pages order <? TOTAL_PAGES) eqn:Hlt;
    [apply Z.ltb_lt in Hlt | apply Z.ltb_ge in Hlt].
  - cbn [cache set_cache set_free_list]. rewrite mark_free_lookup, Hp1. simpl.
    eexists. split; [reflexivity |]. split.
    + intros Hge. rewrite (proj2 (Z.leb_le _ _) Hge), (proj2 (Z.ltb_lt _ _) Hi). done.
    + intros j k e Hj Hrange.
      destruct (sum_pages_take_lookup order j k e Hoks Hj) as (_ & _ & Hle).
      rewrite (proj2 (Z.leb_gt _ _)) by lia. simpl.
      specialize (Hin1 j k e Hj). rewrite !Z.add_0_l in Hin1. by apply Hin1.
  - exists p1. split; [done |]. split; [lia |].
    intros j k e Hj Hrange. specialize (Hin1 j k e Hj).
    rewrite !Z.add_0_l in Hin1. by apply Hin1.
Qed.

Lemma compactMemory_with_length st order :
  arena_ok st → compaction_order st order →
  length (cache (compactMemory_with order st)) = length (cache st).
Proof.
  intros Hok Hord.
  destruct (compaction_order_chained st order Hok Hord) as (Hch & Hnd & Hin).
  destruct Hok as (Hl & _).
  unfold compactMemory_with.
  destruct (compact_loop_spec order (set_free_list st [] 0) 0)
    as (_ & L2 & _); try done; [intros ???; by apply Hin |].
  set (r := compact_loop order (set_free_list st [] 0) 0) in *. clearbody r.
  unfold compact_finish. destruct (r.2 <? TOTAL_PAGES); [| exact L2].
  cbn [cache set_cache set_free_list]. unfold mark_free. rewrite length_imap.
  exact L2.
Qed.

(** X7. After compaction of a well-formed arena a page is marked free
    exactly when it lies in an extent of the free list, and every page of
    the run of an entry is marked used with [block_start] the first page of
    the run; the flags the pages had before do not matter. *)
Theorem compactMemory_page_flags st order :
  arena_ok st → compaction_order st order →
  (∀ (i : nat) p, cache (compactMemory_with order st) !! i = Some p →
     (Page.is_free p = true
      ↔ covers (free_list_head (compactMemory_with order st)) (Z.of_nat i)))
  ∧ (∀ k e' (i : nat),
       entries (compactMemory_with order st) !! k = Some e' →
       CacheEntry.start_page e' ≤ Z.of_nat i
         < CacheEntry.start_page e' + CacheEntry.num_pages e' →
       ∃ p, cache (compactMemory_with order st) !! i = Some p
         ∧ Page.is_free p = false
         ∧ Page.block_start p = CacheEntry.start_page e').
Proof.
  intros Hok Hord.
  destruct (compactMemory_with_spec st order Hok Hord) as (Hle & _ & _ & Hfl & _).
  destruct (compaction_order_chained st order Hok Hord) as (Hch & _ & _).
  pose proof (chained_entries_ok _ _ Hch) as Hoks.
  pose proof (compactMemory_with_length st order Hok Hord) as Hlen.
  split.
  - intros i p Hp.
    destruct (lookup_lt_is_Some_2 (cache st) i) as [p0 Hp0].
    { rewrite <- Hlen. by eapply lookup_lt_Some. }
    destruct (compactMemory_with_cache st order i p0 Hok Hord Hp0)
      as (p' & Hp' & Hfree & Hused).
    rewrite Hp in Hp'. injection Hp' as <-.
    assert (Z.of_nat i < TOTAL_PAGES) as Hi.
    { apply lookup_lt_Some in Hp0. destruct Hok as (Hl & _).
      rewrite Hl, TOTAL_PAGES_value in *. lia. }
    rewrite Hfl. destruct (decide (sum_pages order ≤ Z.of_nat i)) as [Hge | Hlt].
    + rewrite (proj2 (Z.ltb_lt _ _)) by lia. rewrite covers_cons, covers_nil.
      unfold block_end. simpl. split; [intros _; left; lia | intros _; by apply Hfree].
    + destruct (sum_pages_locate order (Z.of_nat i) Hoks ltac:(lia))
        as (j & k & e & Hj & Hrange).
      destruct (Hused j k e Hj Hrange) as [Hnot _]. rewrite Hnot.
      split; [done |]. destruct (_ <? _).
      * rewrite covers_cons, covers_nil. simpl. lia.
      * by rewrite covers_nil.
  - intros k e' i Hk Hrange.
    destruct (compactMemory_with_entry st order k e' Hok Hord Hk) as (j & e & Hj & ->).
    simpl in Hrange.
    destruct (sum_pages_take_lookup order j k e Hoks Hj) as (H0 & HS & HT).
    destruct (lookup_lt_is_Some_2 (cache st) i) as [p0 Hp0].
    { destruct Hok as (Hl & _). rewrite Hl, TOTAL_PAGES_value in *. lia. }
    destruct (compactMemory_with_cache st order i p0 Hok Hord Hp0)
      as (p & Hp & _ & Hused).
    exists p. split; [done |]. simpl. apply (Hused j k e Hj). lia.
Qed.

(** Page 0 of the compacted [fragmented_state] belongs to B, page 1 is
    free. *)
Lemma compactMemory_page_flags_witness :
  (Page.is_free <$> cache (compactMemory fragmented_state) !! 0%nat = Some false)
  ∧ (Page.is_free <$> cache (compactMemory fragmented_state) !! 1%nat = Some true)
  ∧ (∀ p, cache (compactMemory fragmented_state) !! 1%nat = Some p →
       (Page.is_free p = true
        ↔ covers (free_list_head (compactMemory fragmented_state)) 1)).
Proof.
  split; [vm_compute; reflexivity |]. split; [vm_compute; reflexivity |].
  destruct (compactMemory_page_flags fragmented_state
              (merge_sort start_le (map_to_list (entries fragmented_state))))
    as (H1 & _); [by_compute | apply compactMemory_order |].
  intros p Hp. exact (H1 1%nat p Hp).
Defined.

(** Compaction keeps the arena well formed. *)
Lemma compactMemory_with_arena_ok st order :
  arena_ok st → compaction_order st order →
  arena_ok (compactMemory_with order st).
Proof.
  intros Hok Hord.
  destruct (compactMemory_with_spec st order Hok Hord) as (Hle & _).
  destruct (compaction_order_chained st order Hok Hord) as (Hch & Hnd & Hin).
  pose proof (chained_entries_ok _ _ Hch) as Hoks.
  split; [| split].
  - rewrite (compactMemory_with_length st order Hok Hord). by destruct Hok.
  - apply Forall_forall. intros [k e'] Hk%elem_of_map_to_list.
    destruct (compactMemory_with_entry st order k e' Hok Hord Hk) as (j & e & Hj & ->).
    destruct (sum_pages_take_lookup order j k e Hoks Hj) as (H0 & HS & HT).
    rewrite Forall_forall in Hoks.
    destruct (Hoks (k, e) (list_elem_of_lookup_2 _ _ _ Hj)) as (? & ? & ? & ?).
    unfold entry_ok. simpl in *. lia.
  - apply Forall_forall. intros [k1 e1'] Hk1%elem_of_map_to_list.
    apply Forall_forall. intros [k2 e2'] Hk2%elem_of_map_to_list.
    destruct (decide (k1 = k2)) as [-> | Hne]; [by left |]. right.
    destruct (compactMemory_with_entry st order k1 e1' Hok Hord Hk1)
      as (j1 & e1 & Hj1 & ->).
    destruct (compactMemory_with_entry st order k2 e2' Hok Hord Hk2)
      as (j2 & e2 & Hj2 & ->).
    destruct (sum_pages_take_lookup order j1 k1 e1 Hoks Hj1) as (_ & HS1 & _).
    destruct (sum_pages_take_lookup order j2 k2 e2 Hoks Hj2) as (_ & HS2 & _).
    simpl. destruct (decide (j1 < j2)%nat) as [Hlt | Hge].
    + left. pose proof (sum_pages_take_mono order (S j1) j2 Hoks ltac:(lia)). lia.
    + right. assert (j1 ≠ j2) by (intros ->; congruence).
      pose proof (sum_pages_take_mono order (S j2) j1 Hoks ltac:(lia)). lia.
Qed.

End CompactionInvariants.

(** ** Allocation from a block that fits *)

Section DirectFit.

Implicit Types (fl l : list FreeBlock.t) (a b : FreeBlock.t) (st : State).

(** A sorted and coalesced list of non-empty extents is determined by the
    pages it covers. *)
Lemma sorted_coalesced_unique l1 l2 :
  sorted_coalesced l1 → sorted_coalesced l2 →
  Forall extent_ok l1 → Forall extent_ok l2 →
  (∀ p, covers l1 p ↔ covers l2 p) →
  l1 = l2.
Proof.
  revert l2. induction l1 as [|a l1 IH]; intros [|b l2] Hs1 Hs2 Hok1 Hok2 Hcov.
  - done.
  - apply Forall_cons in Hok2 as [(? & ? & ?) _].
    exfalso. apply (covers_nil (FreeBlock.start_page b)), Hcov, covers_cons.
    left. unfold block_end. lia.
  - apply Forall_cons in Hok1 as [(? & ? & ?) _].
    exfalso. apply (covers_nil (FreeBlock.start_page a)), Hcov, covers_cons.
    left. unfold block_end. lia.
  - apply Forall_cons in Hok1 as [Ha Hok1]. apply Forall_cons in Hok2 as [Hb Hok2].
    pose proof Ha as (Ha0 & Ha1 & Ha2). pose proof Hb as (Hb0 & Hb1 & Hb2).
    pose proof (sorted_coalesced_above a l1 (block_end a) Hs1 Hok1 ltac:(lia)) as Hab1.
    pose proof (sorted_coalesced_above b l2 (block_end b) Hs2 Hok2 ltac:(lia)) as Hab2.
    rewrite Forall_forall in Hab1, Hab2.
    unfold block_end in *.
    (* a page covered by the tail lies above the head *)
    assert (∀ p, covers l1 p → FreeBlock.start_page a + FreeBlock.num_pages a < p) as Hup1.
    { intros p (x & Hx & Hp)%Exists_exists. specialize (Hab1 x Hx). simpl in *. lia. }
    assert (∀ p, covers l2 p → FreeBlock.start_page b + FreeBlock.num_pages b < p) as Hup2.
    { intros p (x & Hx & Hp)%Exists_exists. specialize (Hab2 x Hx). simpl in *. lia. }
    assert (FreeBlock.start_page a = FreeBlock.start_page b) as Hstart.
    { assert (covers (b :: l2) (FreeBlock.start_page a)) as H1
        by (apply Hcov, covers_cons; left; unfold block_end; lia).
      assert (covers (a :: l1) (FreeBlock.start_page b)) as H2
        by (apply Hcov, covers_cons; left; unfold block_end; lia).
      apply covers_cons in H1 as [H1 | H1%Hup2];
        apply covers_cons in H2 as [H2 | H2%Hup1]; unfold block_end in *; lia. }
    assert (FreeBlock.num_pages a = FreeBlock.num_pages b) as Hnum.
    { destruct (Z.lt_trichotomy (FreeBlock.num_pages a) (FreeBlock.num_pages b))
        as [Hlt | [Heq | Hgt]]; [| done |].
      - assert (covers (a :: l1) (FreeBlock.start_page a + FreeBlock.num_pages a)) as H1
          by (apply Hcov, covers_cons; left; unfold block_end; lia).
        apply covers_cons in H1 as [H1 | H1%Hup1]; unfold block_end in *; lia.
      - assert (covers (b :: l2) (FreeBlock.start_page b + FreeBlock.num_pages b)) as H1
          by (apply Hcov, covers_cons; left; unfold block_end; lia).
        apply covers_cons in H1 as [H1 | H1%Hup2]; unfold block_end in *; lia. }
    assert (a = b) as -> by (destruct a, b; simpl in *; congruence).
    f_equal. apply IH; [by eapply sorted_coalesced_tail | by eapply sorted_coalesced_tail
                        | done | done |].
    intros p. split; intros Hp.
    + assert (covers (b :: l2) p) as H1 by (apply Hcov, covers_cons; by right).
      apply covers_cons in H1 as [H1 | H1]; [| done].
      apply Hup1 in Hp. unfold block_end in *. lia.
    + assert (covers (b :: l1) p) as H1 by (apply Hcov, covers_cons; by right).
      apply covers_cons in H1 as [H1 | H1]; [| done].
      apply Hup2 in Hp. unfold block_end in *. lia.
Qed.

(** The state that [allocatePages] leaves when the first search finds a
    block. *)
Lemma allocatePages_fit (evict : Z → State → bool * State) key ds cid st block :
  findBestFitBlock (calculateRequiredPages ds) (free_list_head st) = Some block →
  allocatePages evict key ds cid st
  = (true, commit_allocation block key ds cid (calculateRequiredPages ds) st).
Proof. intros Hfind. unfold allocatePages. by rewrite Hfind. Qed.

(** X9. When the first best-fit search finds a block, [allocatePages]
    succeeds without calling [evict] and without compaction: the key maps
    to a fresh entry at the start of the block with the requested size and
    the current [fifo_counter], which is then incremented; the other keys
    keep their entries; the statistics are untouched; the free list is the
    one [splitBlock] leaves; and a page changes only if it lies in the new
    run, where it is marked used with [block_start] the start of the run
    and keeps its bytes. *)
Theorem allocatePages_direct_fit
    (evict : Z → State → bool * State) key ds cid st block b :
  findBestFitBlock (calculateRequiredPages ds) (free_list_head st) = Some block →
  free_list_head st !! block = Some b →
  0 ≤ FreeBlock.start_page b →
  0 ≤ FreeBlock.start_page b + calculateRequiredPages ds ≤ SIZE_MAX →
  (allocatePages evict key ds cid st).1 = true
  ∧ entries (allocatePages evict key ds cid st).2
    = <[key := CacheEntry.mk key cid (FreeBlock.start_page b)
                 (calculateRequiredPages ds) ds O (fifo_counter st) false false 0]>
        (entries st)
  ∧ fifo_counter (allocatePages evict key ds cid st).2 = wrap (fifo_counter st + 1)
  ∧ stats (allocatePages evict key ds cid st).2 = stats st
  ∧ free_list_head (allocatePages evict key ds cid st).2
    = free_list_head (splitBlock block (calculateRequiredPages ds) st)
  ∧ (∀ (i : nat) p, cache st !! i = Some p →
       cache (allocatePages evict key ds cid st).2 !! i
       = Some (if bool_decide
                    (FreeBlock.start_page b ≤ Z.of_nat i
                     < FreeBlock.start_page b + calculateRequiredPages ds)
               then Page.mk (Page.data p) false (FreeBlock.start_page b)
               else p)).
Proof.
  intros Hfind Hb Hs Hend. rewrite (allocatePages_fit evict _ _ _ _ _ Hfind).
  cbn [fst snd]. unfold commit_allocation. rewrite Hb.
  assert (∀ s, cache (splitBlock block (calculateRequiredPages ds) s) = cache s
               ∧ fifo_counter (splitBlock block (calculateRequiredPages ds) s)
                 = fifo_counter s
               ∧ stats (splitBlock block (calculateRequiredPages ds) s) = stats s)
    as Hframe.
  { intros s. unfold splitBlock, removeFromFreeList.
    destruct (free_list_head s !! block); [| done]. by destruct (_ =? _). }
  destruct (Hframe st) as (Hc & Hf & Hst).
  split; [done |].
  split; [cbn; by rewrite splitBlock_entries, Hf |].
  split; [cbn; by rewrite Hf |].
  split; [cbn; by rewrite Hst |].
  split; [reflexivity |].
  intros i p Hp. cbn [cache set_cache set_entries set_fifo_counter].
  rewrite mark_used_lookup, Hc, Hp. simpl. f_equal.
  rewrite wrap_small by lia.
  case_bool_decide as Hin.
  - rewrite (proj2 (Z.leb_le _ _)) by lia. rewrite (proj2 (Z.ltb_lt _ _)) by lia. done.
  - destruct (_ <=? _) eqn:H1; [| done]. destruct (_ <? _) eqn:H2; [| done].
    apply Z.leb_le in H1. apply Z.ltb_lt in H2. lia.
Qed.

(** A second value of two pages in [one_entry_state]. *)
Lemma allocatePages_direct_fit_witness :
  (allocatePages evict_model "j" 40961 "c" one_entry_state).1 = true
  ∧ entries (allocatePages evict_model "j" 40961 "c" one_entry_state).2
    = <[ "j" := CacheEntry.mk "j" "c" 1 2 40961 O 1 false false 0 ]>
        (entries one_entry_state)
  ∧ free_list_head (allocatePages evict_model "j" 40961 "c" one_entry_state).2
    = [FreeBlock.mk 3 2557].
Proof.
  destruct (allocatePages_direct_fit evict_model "j" 40961 "c" one_entry_state
              O (FreeBlock.mk 1 2559))
    as (H1 & H2 & _ & _ & H5 & _);
    [vm_compute; reflexivity | vm_compute; reflexivity | cbn; lia
     | vm_compute; split; discriminate |].
  split; [done |]. split; [exact H2 |]. rewrite H5. vm_compute. reflexivity.
Defined.

(** X10. For a value that needs at least one page, in a state whose free
    list is sorted and coalesced with non-empty extents and whose counter
    of free pages is the sum of the extent lengths (that sum plus the run
    being a [size_t]): allocating from a block that fits and then freeing
    the pages of the new entry gives back the free list as it was, the run
    being merged again with what [splitBlock] left of the block. The
    counter of free pages comes back to its old value only after an exact
    fit; after a split it has grown by the size of the run, because the
    split did not decrease it. *)
Theorem allocate_then_free_restores_free_list
    (evict : Z → State → bool * State) key ds cid st block b :
  sorted_coalesced (free_list_head st) → Forall extent_ok (free_list_head st) →
  findBestFitBlock (calculateRequiredPages ds) (free_list_head st) = Some block →
  free_list_head st !! block = Some b →
  1 ≤ calculateRequiredPages ds →
  counter_exact st →
  sum_extents (free_list_head st) + calculateRequiredPages ds ≤ SIZE_MAX →
  free_list_head (freePages key (allocatePages evict key ds cid st).2)
  = free_list_head st
  ∧ total_free_pages (freePages key (allocatePages evict key ds cid st).2)
    = total_free_pages st
      + (if FreeBlock.num_pages b =? calculateRequiredPages ds then 0
         else calculateRequiredPages ds).
Proof.
  intros Hsc Hok Hfind Hb Hn Hcount Hmax.
  set (n := calculateRequiredPages ds) in *.
  destruct (findBestFitBlock_Some _ _ _ Hfind) as (b' & Hb' & Hfit).
  rewrite Hb in Hb'. injection Hb' as <-.
  assert (extent_ok b) as (Hb0 & Hb1 & Hb2).
  { rewrite Forall_forall in Hok. apply Hok. by eapply list_elem_of_lookup_2. }
  unfold block_end in Hb2.
  rewrite (allocatePages_fit evict _ _ _ _ _ Hfind). cbn [snd]. fold n.
  (* the entry that was just created *)
  assert (∃ e, entries (commit_allocation block key ds cid n st) !! key = Some e
               ∧ CacheEntry.start_page e = FreeBlock.start_page b
               ∧ CacheEntry.num_pages e = n) as (e & He & Hes & Hen).
  { destruct (commit_allocation_entries block key ds cid n st b Hb)
      as (e & Hent & _ & ? & ? & _).
    exists e. by rewrite Hent, lookup_insert_eq. }
  assert (free_list_head (commit_allocation block key ds cid n st)
          = free_list_head (splitBlock block n st)
          ∧ total_free_pages (commit_allocation block key ds cid n st)
            = total_free_pages (splitBlock block n st)) as [Hfl1 Htot1].
  { unfold commit_allocation. by rewrite Hb. }
  unfold freePages. rewrite He, Hes, Hen.
  rewrite addToFreeList_free_list.
  change (total_free_pages (addToFreeList ?s ?len ?x))
    with (wrap (total_free_pages x + len)).
  cbn [free_list_head total_free_pages set_cache]. rewrite Hfl1, Htot1.
  rewrite (splitBlock_free_list st block n b Hb).
  destruct (split_list_ok _ _ _ n Hsc Hok Hb ltac:(lia)) as (Hsc1 & Hok1 & Hcov1 & Hsum1).
  set (fl1 := if FreeBlock.num_pages b =? n then _ else _) in *.
  (* the run meets nothing of what is left *)
  assert (run_disjoint (FreeBlock.start_page b) n fl1) as Hdis.
  { apply Forall_forall. intros x Hx.
    destruct (decide (FreeBlock.start_page b + n ≤ FreeBlock.start_page x)); [by left |].
    destruct (decide (block_end x ≤ FreeBlock.start_page b)); [by right |].
    exfalso.
    assert (extent_ok x) as (? & ? & ?) by (rewrite Forall_forall in Hok1; by apply Hok1).
    unfold block_end in *.
    apply (Hcov1 (Z.max (FreeBlock.start_page x) (FreeBlock.start_page b))); [| lia].
    apply Exists_exists. exists x. split; [done |]. unfold block_end. lia. }
  destruct (insert_free_ok (FreeBlock.start_page b) n fl1 Hsc1 Hok1
              ltac:(lia) ltac:(lia) ltac:(lia) Hdis) as (Hsc2 & Hok2 & Hcov2).
  split.
  - apply sorted_coalesced_unique; try done.
    intros p. rewrite Hcov2, Hcov1.
    destruct (decide (FreeBlock.start_page b ≤ p < FreeBlock.start_page b + n))
      as [Hin | Hout]; [| tauto].
    split; [| tauto]. intros _. apply Exists_exists. exists b.
    split; [by eapply list_elem_of_lookup_2 |]. unfold block_end. lia.
  - unfold splitBlock, removeFromFreeList. rewrite Hb.
    unfold counter_exact in Hcount.
    pose proof (sum_extents_nonneg _ Hok) as Hnn.
    assert (FreeBlock.num_pages b ≤ sum_extents (free_list_head st)) as Hle.
    { pose proof (take_drop_middle _ _ _ Hb) as Hsplit. rewrite <- Hsplit in Hok |- *.
      apply Forall_app in Hok as [Hp [_ Hq]%Forall_cons].
      pose proof (sum_extents_nonneg _ Hp). pose proof (sum_extents_nonneg _ Hq).
      rewrite sum_extents_app, sum_extents_cons. lia. }
    destruct (FreeBlock.num_pages b =? n) eqn:Hexact.
    + apply Z.eqb_eq in Hexact.
      cbn [total_free_pages set_free_list].
      rewrite (wrap_small (total_free_pages st - _)) by lia.
      rewrite wrap_small by lia. lia.
    + cbn [total_free_pages set_free_list]. rewrite wrap_small by lia. done.
Qed.

(** One byte and back in a fresh cache, and a second value and back in
    [one_entry_state]. *)
Lemma allocate_then_free_restores_free_list_witness :
  free_list_head
    (freePages "j" (allocatePages evict_model "j" 40961 "c" (initializeCache FIFO)).2)
  = free_list_head (initializeCache FIFO)
  ∧ total_free_pages
      (freePages "j" (allocatePages evict_model "j" 40961 "c" (initializeCache FIFO)).2)
    = total_free_pages (initializeCache FIFO) + 2.
Proof.
  apply (allocate_then_free_restores_free_list evict_model "j" 40961 "c"
           (initializeCache FIFO) O (FreeBlock.mk 0 TOTAL_PAGES));
    [by_compute | by_compute | vm_compute; reflexivity | reflexivity
     | by_compute | by_compute | by_compute].
Defined.

End DirectFit.

(** ** Well-formed states are kept *)

Section WellFormed.

Implicit Types (fl l : list FreeBlock.t) (a b : FreeBlock.t) (st s : State)
  (e : CacheEntry.t) (m : gmap string CacheEntry.t).

Lemma Forall_map_to_list (Q : CacheEntry.t → Prop) m :
  Forall (λ kv, Q kv.2) (map_to_list m) ↔ ∀ k e, m !! k = Some e → Q e.
Proof.
  rewrite Forall_forall. split.
  - intros H k e Hk. apply (H (k, e)). by apply elem_of_map_to_list.
  - intros H [k e] Hk%elem_of_map_to_list. by apply (H k).
Qed.

Lemma entries_disjoint_lookup m :
  entries_disjoint (map_to_list m) ↔
  ∀ k1 e1 k2 e2, m !! k1 = Some e1 → m !! k2 = Some e2 →
    k1 = k2
    ∨ CacheEntry.start_page e1 + CacheEntry.num_pages e1 ≤ CacheEntry.start_page e2
    ∨ CacheEntry.start_page e2 + CacheEntry.num_pages e2 ≤ CacheEntry.start_page e1.
Proof.
  unfold entries_disjoint. rewrite Forall_forall. split.
  - intros H k1 e1 k2 e2 H1 H2.
    specialize (H (k1, e1) ltac:(by apply elem_of_map_to_list)).
    rewrite Forall_forall in H.
    exact (H (k2, e2) ltac:(by apply elem_of_map_to_list)).
  - intros H [k1 e1] H1%elem_of_map_to_list. apply Forall_forall.
    intros [k2 e2] H2%elem_of_map_to_list. by apply (H k1 e1 k2 e2).
Qed.

Lemma covers_bound l T :
  Forall extent_ok l →
  (Forall (λ b, block_end b ≤ T) l ↔ ∀ p, covers l p → p < T).
Proof.
  intros Hok. rewrite Forall_forall in Hok. rewrite Forall_forall. split.
  - intros H p (x & Hx & Hp)%Exists_exists. specialize (H x Hx).
    unfold block_end in *. simpl in *. lia.
  - intros H x Hx. destruct (Hok x Hx) as (? & ? & ?). unfold block_end in *.
    specialize (H (FreeBlock.start_page x + FreeBlock.num_pages x - 1)).
    assert (covers l (FreeBlock.start_page x + FreeBlock.num_pages x - 1)) as Hc;
      [| specialize (H Hc); simpl; lia].
    apply Exists_exists. exists x. split; [done |]. unfold block_end. lia.
Qed.

Lemma run_disjoint_covers start len l :
  run_disjoint start len l → ∀ p, start ≤ p < start + len → ¬ covers l p.
Proof.
  intros Hdis p Hp (x & Hx & Hpx)%Exists_exists.
  unfold run_disjoint in Hdis. rewrite Forall_forall in Hdis.
  specialize (Hdis x Hx). unfold block_end in *. simpl in *. lia.
Qed.

Lemma covers_run_disjoint start len l :
  Forall extent_ok l → 1 ≤ len →
  (∀ p, start ≤ p < start + len → ¬ covers l p) → run_disjoint start len l.
Proof.
  intros Hok Hlen Hcov. apply Forall_forall. intros x Hx.
  destruct (decide (start + len ≤ FreeBlock.start_page x)); [by left |].
  destruct (decide (block_end x ≤ start)); [by right |].
  exfalso. rewrite Forall_forall in Hok. destruct (Hok x Hx) as (? & ? & ?).
  unfold block_end in *.
  apply (Hcov (Z.max (FreeBlock.start_page x) start)); [lia |].
  apply Exists_exists. exists x. split; [done |]. unfold block_end. lia.
Qed.

(** [well_formed] in terms of lookups and covered pages. *)
Lemma well_formed_alt st :
  well_formed st ↔
    length (cache st) = Z.to_nat TOTAL_PAGES
    ∧ (∀ k e, entries st !! k = Some e → entry_ok e)
    ∧ (∀ k1 e1 k2 e2, entries st !! k1 = Some e1 → entries st !! k2 = Some e2 →
         k1 = k2
         ∨ CacheEntry.start_page e1 + CacheEntry.num_pages e1 ≤ CacheEntry.start_page e2
         ∨ CacheEntry.start_page e2 + CacheEntry.num_pages e2 ≤ CacheEntry.start_page e1)
    ∧ sorted_coalesced (free_list_head st)
    ∧ Forall extent_ok (free_list_head st)
    ∧ (∀ p, covers (free_list_head st) p → p < TOTAL_PAGES)
    ∧ (∀ k e p, entries st !! k = Some e →
         CacheEntry.start_page e ≤ p < CacheEntry.start_page e + CacheEntry.num_pages e →
         ¬ covers (free_list_head st) p).
Proof.
  unfold well_formed, arena_ok.
  rewrite (Forall_map_to_list entry_ok), entries_disjoint_lookup.
  rewrite (Forall_map_to_list
             (λ e, run_disjoint (CacheEntry.start_page e) (CacheEntry.num_pages e)
                     (free_list_head st))).
  split.
  - intros ((Hlen & Hok & Hdis) & Hsc & Hext & Hin & Hapart).
    split; [done |]. split; [done |]. split; [done |]. split; [done |].
    split; [done |]. split; [by apply covers_bound |].
    intros k e p Hk. by apply run_disjoint_covers, (Hapart k).
  - intros (Hlen & Hok & Hdis & Hsc & Hext & Hin & Hapart).
    split; [done |]. split; [done |]. split; [done |].
    split; [by apply covers_bound |].
    intros k e Hk. destruct (Hok k e Hk) as (? & ? & ?).
    apply covers_run_disjoint; [done | done |]. intros p. by apply (Hapart k).
Qed.

Lemma calculateRequiredPages_fits ds :
  0 ≤ ds ≤ SIZE_MAX - (PAGE_SIZE - 1) →
  ds ≤ calculateRequiredPages ds * PAGE_SIZE < ds + PAGE_SIZE.
Proof.
  intros Hds. unfold calculateRequiredPages. rewrite PAGE_SIZE_value in *.
  rewrite wrap_small by (unfold SIZE_MAX in *; lia).
  Z.div_mod_to_equations. lia.
Qed.

Lemma commit_allocation_frame block key ds cid n s b :
  free_list_head s !! block = Some b →
  length (cache (commit_allocation block key ds cid n s)) = length (cache s)
  ∧ free_list_head (commit_allocation block key ds cid n s)
    = free_list_head (splitBlock block n s).
Proof.
  intros Hb. unfold commit_allocation. rewrite Hb.
  split; [| reflexivity].
  cbn [cache set_cache set_entries set_fifo_counter].
  unfold mark_used. rewrite length_imap.
  unfold splitBlock, removeFromFreeList. rewrite Hb. by destruct (_ =? _).
Qed.

(** Committing a block that fits keeps the state well formed. *)
Lemma commit_allocation_well_formed block key ds cid n s :
  well_formed s →
  findBestFitBlock n (free_list_head s) = Some block →
  1 ≤ n → 0 ≤ ds ≤ n * PAGE_SIZE →
  well_formed (commit_allocation block key ds cid n s).
Proof.
  intros Hwf Hfind Hn Hds.
  destruct (findBestFitBlock_Some _ _ _ Hfind) as (b & Hb & Hfit).
  apply well_formed_alt in Hwf
    as (Hlen & Hok & Hdis & Hsc & Hext & Hin & Hapart).
  destruct (commit_allocation_frame block key ds cid n s b Hb) as [Hlen1 Hfl1].
  destruct (commit_allocation_entries block key ds cid n s b Hb)
    as (enew & Hent & _ & Hes & Hen & Hed).
  destruct (split_list_ok _ _ _ n Hsc Hext Hb ltac:(lia))
    as (Hsc1 & Hext1 & Hcov1 & _).
  assert (extent_ok b) as (Hb0 & Hb1 & Hb2).
  { rewrite Forall_forall in Hext. apply Hext. by eapply list_elem_of_lookup_2. }
  assert (block_end b ≤ TOTAL_PAGES) as HbT.
  { assert (covers (free_list_head s) (block_end b - 1)) as Hc; [| apply Hin in Hc; lia].
    apply Exists_exists. exists b. split; [by eapply list_elem_of_lookup_2 |].
    unfold block_end. lia. }
  unfold block_end in *.
  (* the new run lies inside the block, which no old entry meets *)
  assert (∀ k e, entries s !! k = Some e →
            CacheEntry.start_page e + CacheEntry.num_pages e ≤ FreeBlock.start_page b
            ∨ FreeBlock.start_page b + FreeBlock.num_pages b ≤ CacheEntry.start_page e)
    as Hold.
  { intros k e Hk. destruct (Hok k e Hk) as (? & ? & ? & ?).
    destruct (decide (CacheEntry.start_page e + CacheEntry.num_pages e
                      ≤ FreeBlock.start_page b)); [by left |].
    destruct (decide (FreeBlock.start_page b + FreeBlock.num_pages b
                      ≤ CacheEntry.start_page e)); [by right |].
    exfalso.
    apply (Hapart k e (Z.max (CacheEntry.start_page e) (FreeBlock.start_page b)) Hk);
      [lia |].
    apply Exists_exists. exists b. split; [by eapply list_elem_of_lookup_2 |].
    unfold block_end. lia. }
  apply well_formed_alt. rewrite Hlen1, Hfl1, Hent.
  rewrite (splitBlock_free_list s block n b Hb).
  split; [done |]. split; [| split; [| split; [done | split; [done | split]]]].
  - intros k e [[<- <-] | [Hne Hk]]%lookup_insert_Some; [| by apply (Hok k)].
    unfold entry_ok. rewrite Hes, Hen, Hed. lia.
  - intros k1 e1 k2 e2 [[<- <-] | [Hne1 Hk1]]%lookup_insert_Some
      [[<- <-] | [Hne2 Hk2]]%lookup_insert_Some.
    + by left.
    + right. rewrite Hes, Hen. destruct (Hold k2 e2 Hk2); lia.
    + right. rewrite Hes, Hen. destruct (Hold k1 e1 Hk1); lia.
    + by apply (Hdis k1 e1 k2 e2).
  - intros p Hp. apply Hcov1 in Hp as [Hp _]. by apply Hin.
  - intros k e p [[<- <-] | [Hne Hk]]%lookup_insert_Some Hp Hc;
      apply Hcov1 in Hc as [Hc Hnot].
    + rewrite Hes, Hen in Hp. lia.
    + by apply (Hapart k e p Hk).
Qed.

(** The state that compaction leaves is well formed. *)
Lemma compactMemory_establishes_well_formed_aux st order :
  arena_ok st → compaction_order st order →
  well_formed (compactMemory_with order st).
Proof.
  intros Hok Hord.
  pose proof (compactMemory_with_arena_ok st order Hok Hord) as Hok'.
  destruct (compactMemory_with_spec st order Hok Hord) as (Hle & _ & _ & Hfl & _).
  destruct (compaction_order_chained st order Hok Hord) as (Hch & _ & _).
  pose proof (chained_entries_ok _ _ Hch) as Hoks.
  pose proof (sum_pages_nonneg _ Hoks) as Hnn.
  split; [done |]. rewrite Hfl.
  destruct (sum_pages order <? TOTAL_PAGES) eqn:Hlt;
    [apply Z.ltb_lt in Hlt | apply Z.ltb_ge in Hlt].
  - split; [done |].
    split; [repeat constructor; unfold block_end; simpl;
            rewrite ?TOTAL_PAGES_value in *; unfold SIZE_MAX; lia |].
    split; [repeat constructor; unfold block_end; simpl; lia |].
    apply (Forall_map_to_list
             (λ e, run_disjoint (CacheEntry.start_page e) (CacheEntry.num_pages e) _)).
    intros k e' Hk.
    destruct (compactMemory_with_entry st order k e' Hok Hord Hk) as (j & e & Hj & ->).
    destruct (sum_pages_take_lookup order j k e Hoks Hj) as (_ & HS & HT).
    repeat constructor. simpl. lia.
  - split; [done |]. split; [constructor |]. split; [constructor |].
    apply Forall_forall. intros kv _. constructor.
Qed.

(** X8. Compaction of an arena whose entries are well formed leaves a well
    formed state, whatever the free list was before: the runs are inside
    the arena and pairwise disjoint, and the free list is sorted,
    coalesced, inside the arena and meets no run. The same holds for the
    state that [defragment] returns. *)
Theorem compactMemory_establishes_well_formed st order :
  arena_ok st → compaction_order st order →
  well_formed (compactMemory_with order st)
  ∧ ∀ n, well_formed (defragment n st).2.
Proof.
  intros Hok Hord. split; [by apply compactMemory_establishes_well_formed_aux |].
  intros n. unfold defragment. cbn [snd].
  apply (compactMemory_establishes_well_formed_aux
           (set_stats st (CacheStats.incr_defragmentations (stats st)))
           (merge_sort start_le (map_to_list (entries st)))).
  - exact Hok.
  - apply (compactMemory_order
             (set_stats st (CacheStats.incr_defragmentations (stats st)))).
Qed.

(** Compaction and defragmentation of [fragmented_state]. *)
Lemma compactMemory_establishes_well_formed_witness :
  arena_ok fragmented_state
  ∧ well_formed (compactMemory fragmented_state)
  ∧ well_formed (defragment 5 fragmented_state).2.
Proof.
  assert (arena_ok fragmented_state) as Hok by by_compute.
  destruct (compactMemory_establishes_well_formed fragmented_state
              (merge_sort start_le (map_to_list (entries fragmented_state))))
    as [H1 H2]; [done | apply compactMemory_order |].
  split; [done |]. split; [exact H1 | exact (H2 5)].
Defined.

(** Freeing the pages of an entry and taking it out of the table keeps the
    state well formed. *)
Lemma freePages_erase_well_formed key st e :
  well_formed st → entries st !! key = Some e →
  well_formed (set_entries (freePages key st) (delete key (entries st))).
Proof.
  intros Hwf Hk.
  pose proof Hwf as (_ & _ & _ & _ & Hruns).
  apply well_formed_alt in Hwf
    as (Hlen & Hok & Hdis & Hsc & Hext & Hin & Hapart).
  destruct (Hok key e Hk) as (He0 & He1 & He2 & He3).
  assert (run_disjoint (CacheEntry.start_page e) (CacheEntry.num_pages e)
            (free_list_head st)) as Hrun.
  { rewrite Forall_forall in Hruns.
    exact (Hruns (key, e) ltac:(by apply elem_of_map_to_list)). }
  destruct (insert_free_ok (CacheEntry.start_page e) (CacheEntry.num_pages e)
              (free_list_head st) Hsc Hext He0 He1
              ltac:(rewrite TOTAL_PAGES_value in *; unfold SIZE_MAX; lia) Hrun)
    as (Hsc2 & Hext2 & Hcov2).
  assert (free_list_head (set_entries (freePages key st) (delete key (entries st)))
          = free_list_head
              (addToFreeList (CacheEntry.start_page e) (CacheEntry.num_pages e) st))
    as Hfl2 by (unfold freePages; rewrite Hk; reflexivity).
  assert (length (cache (set_entries (freePages key st) (delete key (entries st))))
          = length (cache st)) as Hlen2.
  { unfold freePages. rewrite Hk. cbn. unfold mark_free. by rewrite length_imap. }
  apply well_formed_alt. rewrite Hfl2, Hlen2, addToFreeList_free_list.
  cbn [entries set_entries].
  split; [done |].
  split; [| split; [| split; [done | split; [done | split]]]].
  - intros k e' [Hne Hk']%lookup_delete_Some. by apply (Hok k).
  - intros k1 e1 k2 e2 [_ H1]%lookup_delete_Some [_ H2]%lookup_delete_Some.
    by apply (Hdis k1 e1 k2 e2).
  - intros p [Hp | Hp]%Hcov2; [by apply Hin | lia].
  - intros k e' p [Hne Hk']%lookup_delete_Some Hp [Hc | Hc]%Hcov2.
    + by apply (Hapart k e' p Hk').
    + destruct (Hdis key e k e' Hk Hk') as [? | ?]; [done | lia].
Qed.

Lemma freePages_entries key st : entries (freePages key st) = entries st.
Proof. unfold freePages. by destruct (entries st !! key). Qed.

(** The extents of a sorted list inside the arena hold no more pages than
    lie between the first extent and the end of the arena. *)
Lemma sorted_coalesced_sum_bound l lo :
  sorted_coalesced l → Forall extent_ok l →
  Forall (λ b, block_end b ≤ TOTAL_PAGES) l →
  Forall (λ b, lo ≤ FreeBlock.start_page b) l → lo ≤ TOTAL_PAGES →
  sum_extents l ≤ TOTAL_PAGES - lo.
Proof.
  revert lo. induction l as [|a l IH]; intros lo Hsc Hok Hin Hlo HT.
  - change (sum_extents []) with 0. lia.
  - apply Forall_cons in Hok as [(? & ? & ?) Hok].
    apply Forall_cons in Hin as [Ha Hin]. apply Forall_cons in Hlo as [Hlo _].
    pose proof (sorted_coalesced_above a l (block_end a) Hsc Hok ltac:(lia)) as Habove.
    rewrite sum_extents_cons. unfold block_end in *. simpl in *.
    specialize (IH (FreeBlock.start_page a + FreeBlock.num_pages a)
                  (sorted_coalesced_tail _ _ Hsc) Hok Hin).
    assert (sum_extents l
            ≤ TOTAL_PAGES - (FreeBlock.start_page a + FreeBlock.num_pages a)); [| lia].
    apply IH; [| lia]. eapply Forall_impl; [exact Habove |]. simpl. lia.
Qed.

(** X11. [freePages] in a well-formed state gives back exactly the run of
    the entry: the free list afterwards covers the pages it covered before
    and the pages of the run, the counter stays the sum of the extent
    lengths if it was, and once the entry is taken out of the table the
    state is well formed again. *)
Theorem freePages_returns_run key st e :
  well_formed st → entries st !! key = Some e →
  (∀ p, covers (free_list_head (freePages key st)) p
        ↔ covers (free_list_head st) p
          ∨ CacheEntry.start_page e ≤ p
            < CacheEntry.start_page e + CacheEntry.num_pages e)
  ∧ (counter_exact st → counter_exact (freePages key st))
  ∧ well_formed (set_entries (freePages key st) (delete key (entries st))).
Proof.
  intros Hwf Hk.
  split; [| split; [| by eapply freePages_erase_well_formed]].
  - destruct Hwf as ((_ & Hok & _) & Hsc & Hext & _ & Hruns).
    pose proof (proj1 (Forall_map_to_list entry_ok _) Hok key e Hk)
      as (He0 & He1 & He2 & _).
    rewrite Forall_forall in Hruns.
    pose proof (Hruns (key, e) ltac:(by apply elem_of_map_to_list)) as Hrun.
    unfold freePages. rewrite Hk. rewrite addToFreeList_free_list.
    apply insert_free_ok; try done.
    rewrite TOTAL_PAGES_value in *. unfold SIZE_MAX. lia.
  - intros Hcount.
    destruct Hwf as ((_ & Hok & _) & Hsc & Hext & Hin & Hruns).
    pose proof (proj1 (Forall_map_to_list entry_ok _) Hok key e Hk)
      as (He0 & He1 & He2 & _).
    rewrite Forall_forall in Hruns.
    pose proof (Hruns (key, e) ltac:(by apply elem_of_map_to_list)) as Hrun.
    assert (sum_extents (free_list_head st) ≤ TOTAL_PAGES) as Hsum.
    { pose proof (sorted_coalesced_sum_bound _ 0 Hsc Hext Hin) as H. 
      rewrite Z.sub_0_r in H. apply H; [| by rewrite TOTAL_PAGES_value].
      eapply Forall_impl; [exact Hext |]. by intros b (? & _). }
    pose proof (sum_extents_nonneg _ Hext) as Hnn.
    unfold counter_exact in *. unfold freePages. rewrite Hk.
    rewrite addToFreeList_free_list.
    change (total_free_pages (addToFreeList ?s ?len ?x))
      with (wrap (total_free_pages x + len)).
    cbn [free_list_head total_free_pages set_cache].
    rewrite insert_free_sum; try done;
      [| rewrite TOTAL_PAGES_value in *; unfold SIZE_MAX; lia].
    rewrite Hcount, wrap_small; [done |].
    rewrite TOTAL_PAGES_value in *. unfold SIZE_MAX. lia.
Qed.

(** Freeing the one entry of [one_entry_state]. *)
Lemma freePages_returns_run_witness :
  well_formed one_entry_state
  ∧ (covers (free_list_head (freePages "k" one_entry_state)) 0
     ↔ covers (free_list_head one_entry_state) 0 ∨ 0 ≤ 0 < 0 + 1)
  ∧ well_formed
      (set_entries (freePages "k" one_entry_state) (delete "k" (entries one_entry_state))).
Proof.
  assert (well_formed one_entry_state) as Hwf by by_compute.
  destruct (freePages_returns_run "k" one_entry_state
              (CacheEntry.mk "k" "c" 0 1 1 O 0 false false 0) Hwf)
    as (H1 & _ & H3); [vm_compute; reflexivity |].
  split; [done |]. split; [exact (H1 0) | exact H3].
Defined.

Lemma fifo_victim_Some m k : fifo_victim m = Some k → is_Some (m !! k).
Proof.
  unfold fifo_victim.
  destruct (head (merge_sort insertion_le (map_to_list m))) as [[k' e]|] eqn:Hhd;
    [| done].
  intros [= <-]. apply head_Some_elem_of in Hhd.
  rewrite merge_sort_Permutation in Hhd. apply elem_of_map_to_list in Hhd. by exists e.
Qed.

(** The model of eviction keeps states well formed. *)
Lemma evict_fifo_well_formed fuel n s :
  well_formed s → well_formed (evict_fifo fuel n s).2.
Proof.
  revert s. induction fuel as [|fuel IH]; intros s Hs; simpl.
  - by destruct (_ <=? _).
  - destruct (_ <=? _); [done |].
    destruct (fifo_victim (entries s)) as [k|] eqn:Hv; [| done].
    apply IH. destruct (fifo_victim_Some _ _ Hv) as [e He].
    pose proof (freePages_erase_well_formed k s e Hs He) as Hwf.
    unfold release_entry. rewrite freePages_entries. exact Hwf.
Qed.

Lemma allocate_retry_well_formed key ds cid s :
  well_formed s → 1 ≤ calculateRequiredPages ds →
  0 ≤ ds ≤ SIZE_MAX - (PAGE_SIZE - 1) →
  well_formed (allocate_retry key ds cid (calculateRequiredPages ds) s).2.
Proof.
  intros Hs Hn Hds. unfold allocate_retry.
  destruct (findBestFitBlock _ _) as [block|] eqn:Hfind; [| done].
  apply commit_allocation_well_formed; try done.
  pose proof (calculateRequiredPages_fits ds Hds). lia.
Qed.

(** X12. [allocatePages] for a value of at least one byte keeps the state
    well formed, through every path (direct fit, defragmentation,
    eviction), for any [evict] that keeps states well formed: runs stay
    inside the arena and pairwise disjoint, the free list stays sorted and
    coalesced, and no free extent meets a run. *)
Theorem allocatePages_keeps_well_formed
    (evict : Z → State → bool * State) key ds cid st :
  well_formed st →
  1 ≤ ds ≤ SIZE_MAX - (PAGE_SIZE - 1) →
  (∀ n s, well_formed s → well_formed (evict n s).2) →
  well_formed (allocatePages evict key ds cid st).2.
Proof.
  intros Hst Hds Hev.
  assert (1 ≤ calculateRequiredPages ds) as Hn
    by (apply calculateRequiredPages_ceil; lia).
  assert (∀ s, well_formed s →
            well_formed (allocate_retry key ds cid (calculateRequiredPages ds) s).2)
    as Hretry by (intros s Hs; apply allocate_retry_well_formed; [done | done | lia]).
  unfold allocatePages.
  destruct (findBestFitBlock _ (free_list_head st)) as [block|] eqn:Hfind.
  - specialize (Hretry st Hst). unfold allocate_retry in Hretry.
    by rewrite Hfind in Hretry.
  - destruct (_ <=? total_free_pages st).
    + assert (well_formed (defragment (calculateRequiredPages ds) st).2) as Hd.
      { unfold defragment. cbn [snd].
        apply (compactMemory_establishes_well_formed_aux _ _);
          [by destruct Hst | apply compactMemory_order]. }
      destruct (defragment _ st).1; [by apply Hretry |].
      specialize (Hev (calculateRequiredPages ds) _ Hd).
      destruct (evict _ _).1; [by apply Hretry | done].
    + specialize (Hev (calculateRequiredPages ds) _ Hst).
      destruct (evict _ _).1; [by apply Hretry | done].
Qed.

(** A second value in [one_entry_state], with the model of eviction. *)
Lemma allocatePages_keeps_well_formed_witness :
  well_formed one_entry_state
  ∧ well_formed (allocatePages evict_model "j" 40961 "c" one_entry_state).2.
Proof.
  assert (well_formed one_entry_state) as Hwf by by_compute.
  split; [done |].
  apply allocatePages_keeps_well_formed; [done | by_compute |].
  intros n s Hs. by apply evict_fifo_well_formed.
Defined.

End WellFormed.
(** ** Capacity after compaction *)
(** ** Capacity, statistics and repeated compaction *)

Section Capacity.

Implicit Types (fl l : list FreeBlock.t) (st s : State) (e : CacheEntry.t)
  (order : list (string * CacheEntry.t)).

(** X13. For sizes within [PAGE_SIZE - 1] of [SIZE_MAX] the sum
    [data_size + PAGE_SIZE - 1] wraps around and [calculateRequiredPages]
    returns 0: such a size is given no page at all. *)
Theorem calculateRequiredPages_wraps ds :
  SIZE_MAX - (PAGE_SIZE - 1) < ds ≤ SIZE_MAX →
  calculateRequiredPages ds = 0.
Proof.
  intros Hds. unfold calculateRequiredPages, wrap.
  rewrite PAGE_SIZE_value in *. unfold SIZE_MAX in *.
  Z.div_mod_to_equations. lia.
Qed.

Lemma calculateRequiredPages_wraps_witness :
  calculateRequiredPages SIZE_MAX = 0.
Proof. apply calculateRequiredPages_wraps. by_compute. Defined.

(** The free list that [defragment] leaves in a well-formed arena. *)
Lemma defragment_free_list n st :
  arena_ok st →
  0 ≤ sum_entry_pages (entries st) ≤ TOTAL_PAGES
  ∧ free_list_head (defragment n st).2
    = (if sum_entry_pages (entries st) <? TOTAL_PAGES
       then [FreeBlock.mk (sum_entry_pages (entries st))
               (TOTAL_PAGES - sum_entry_pages (entries st))]
       else []).
Proof.
  intros Hok. unfold defragment. cbn [snd].
  set (s0 := set_stats st (CacheStats.incr_defragmentations (stats st))).
  assert (arena_ok s0) as Hok0 by exact Hok.
  pose proof (compactMemory_order s0) as Hord.
  destruct (compactMemory_with_spec s0 _ Hok0 Hord) as (Hle & _ & _ & Hfl & _).
  rewrite (sum_entry_pages_order s0 _ Hord) in Hle, Hfl.
  split; [split; [| exact Hle] | exact Hfl].
  destruct Hok as (_ & Hoks & _). exact (sum_pages_nonneg _ Hoks).
Qed.

(** X14. In a well-formed arena [defragment n] returns true exactly when
    the pages not owned by any entry are at least [n]: fragmentation never
    makes it fail, and the counter of free pages plays no part. *)
Theorem defragment_succeeds_iff_capacity n st :
  arena_ok st →
  ((defragment n st).1 = true ↔ n ≤ TOTAL_PAGES - sum_entry_pages (entries st)).
Proof.
  intros Hok. destruct (defragment_free_list n st Hok) as [Hle Hfl].
  unfold defragment in *. cbn [fst snd] in *.
  rewrite getFragmentationStats_largest, Hfl, Z.leb_le.
  destruct (_ <? _) eqn:Hlt; [apply Z.ltb_lt in Hlt | apply Z.ltb_ge in Hlt].
  - rewrite largest_extent_cons. change (largest_extent []) with 0. simpl. lia.
  - change (largest_extent []) with 0. lia.
Qed.

(** [scenario_state] has 2559 pages that no entry owns. *)
Lemma defragment_succeeds_iff_capacity_witness :
  (defragment 2559 scenario_state).1 = true
  ∧ (defragment 2560 scenario_state).1 = false.
Proof.
  assert (arena_ok scenario_state) as Hok by by_compute.
  split.
  - apply (defragment_succeeds_iff_capacity 2559 scenario_state Hok). by_compute.
  - destruct ((defragment 2560 scenario_state).1) eqn:Hd; [| done].
    apply (defragment_succeeds_iff_capacity 2560 scenario_state Hok) in Hd.
    exfalso. revert Hd. by_compute.
Defined.

(** X15. When no extent fits but the counter allows defragmentation and
    the pages not owned by any entry are enough, [allocatePages] succeeds
    after compaction without calling [evict]: the new entry starts right
    after the packed entries, at the page whose number is the sum of their
    page counts. *)
Theorem allocatePages_succeeds_after_defragment
    (evict : Z → State → bool * State) key ds cid st :
  arena_ok st →
  1 ≤ calculateRequiredPages ds →
  findBestFitBlock (calculateRequiredPages ds) (free_list_head st) = None →
  calculateRequiredPages ds ≤ total_free_pages st →
  calculateRequiredPages ds ≤ TOTAL_PAGES - sum_entry_pages (entries st) →
  (allocatePages evict key ds cid st).1 = true
  ∧ (∃ e, entries (allocatePages evict key ds cid st).2 !! key = Some e
        ∧ CacheEntry.start_page e = sum_entry_pages (entries st)
        ∧ CacheEntry.num_pages e = calculateRequiredPages ds)
  ∧ (∀ evict', allocatePages evict' key ds cid st = allocatePages evict key ds cid st).
Proof.
  intros Hok Hn Hnone Hcount Hcap.
  destruct (defragment_free_list (calculateRequiredPages ds) st Hok) as [Hle Hfl].
  assert ((defragment (calculateRequiredPages ds) st).1 = true) as Hd.
  { unfold defragment in *. cbn [fst snd] in *.
    rewrite getFragmentationStats_largest, Hfl, Z.leb_le.
    rewrite (proj2 (Z.ltb_lt _ _)) by lia.
    rewrite largest_extent_cons. change (largest_extent []) with 0. simpl. lia. }
  rewrite (proj2 (Z.ltb_lt _ _)) in Hfl by lia.
  assert (∀ ev, allocatePages ev key ds cid st
                = (true, commit_allocation O key ds cid (calculateRequiredPages ds)
                           (defragment (calculateRequiredPages ds) st).2)) as Hrun.
  { intros ev. unfold allocatePages. rewrite Hnone.
    rewrite (proj2 (Z.leb_le _ _) Hcount), Hd. unfold allocate_retry.
    rewrite Hfl, findBestFitBlock_single
      by (cbn; rewrite TOTAL_PAGES_value in *; unfold SIZE_MAX; lia).
    cbn [FreeBlock.num_pages]. by rewrite (proj2 (Z.leb_le _ _)) by lia. }
  rewrite Hrun. cbn [fst snd]. split; [done |]. split.
  - destruct (commit_allocation_entries O key ds cid (calculateRequiredPages ds)
                (defragment (calculateRequiredPages ds) st).2
                (FreeBlock.mk (sum_entry_pages (entries st))
                   (TOTAL_PAGES - sum_entry_pages (entries st))))
      as (e & Hent & _ & Hs & Hnp & _); [by rewrite Hfl |].
    exists e. by rewrite Hent, lookup_insert_eq.
  - intros ev. by rewrite Hrun.
Qed.

(** The request for 2558 pages in [scenario_state]. *)
Lemma allocatePages_succeeds_after_defragment_witness :
  (allocatePages evict_model "D" (2558 * PAGE_SIZE) "c" scenario_state).1 = true
  ∧ ∃ e, entries (allocatePages evict_model "D" (2558 * PAGE_SIZE) "c"
                    scenario_state).2 !! "D" = Some e
       ∧ CacheEntry.start_page e = sum_entry_pages (entries scenario_state)
       ∧ CacheEntry.num_pages e = calculateRequiredPages (2558 * PAGE_SIZE).
Proof.
  destruct (allocatePages_succeeds_after_defragment evict_model "D" (2558 * PAGE_SIZE)
              "c" scenario_state) as (H1 & H2 & _);
    [by_compute | by_compute | vm_compute; reflexivity | by_compute | by_compute |].
  by split.
Defined.

End Capacity.
(** ** Repeated compaction and statistics *)

Section Idempotence.

Implicit Types (st s : State) (order l : list (string * CacheEntry.t)).

(** Some entry of a non-empty chained sequence ends at or after the sum of
    the page counts. *)
Lemma chained_reach lo l :
  chained lo l → l ≠ [] →
  ∃ kv, kv ∈ l
    ∧ lo + sum_pages l ≤ CacheEntry.start_page kv.2 + CacheEntry.num_pages kv.2.
Proof.
  revert lo. induction l as [|kv l IH]; intros lo Hch Hne; [done |].
  destruct Hch as (Hlo & Hok & Hch). rewrite sum_pages_cons.
  destruct l as [|kv' l].
  - exists kv. split; [by left |]. change (sum_pages []) with 0. lia.
  - destruct (IH _ Hch ltac:(done)) as (x & Hx & Hle).
    exists x. split; [by right |]. lia.
Qed.

(** A chained sequence whose entries all end within the sum of the page
    counts is packed: each entry starts where the one before ends. *)
Lemma chained_tight lo l :
  chained lo l →
  (∀ kv, kv ∈ l →
     CacheEntry.start_page kv.2 + CacheEntry.num_pages kv.2 ≤ lo + sum_pages l) →
  ∀ i kv, l !! i = Some kv →
    CacheEntry.start_page kv.2 = lo + sum_pages (take i l).
Proof.
  revert lo. induction l as [|kv l IH]; intros lo Hch Hend i x Hi;
    [by rewrite lookup_nil in Hi |].
  pose proof Hch as (Hlo & Hok & Hch').
  assert (CacheEntry.start_page kv.2 = lo) as Hkv.
  { destruct (chained_reach (CacheEntry.start_page kv.2) (kv :: l))
      as (y & Hy & Hle); [by split | done |].
    specialize (Hend y Hy). lia. }
  destruct i as [|i]; simpl in Hi.
  - injection Hi as <-. change (sum_pages (take 0 (kv :: l))) with 0. lia.
  - cbn [take]. rewrite sum_pages_cons.
    assert (∀ y, y ∈ l →
              CacheEntry.start_page y.2 + CacheEntry.num_pages y.2
              ≤ CacheEntry.start_page kv.2 + CacheEntry.num_pages kv.2 + sum_pages l)
      as Hend'.
    { intros y Hy. specialize (Hend y ltac:(by right)).
      rewrite sum_pages_cons in Hend. lia. }
    rewrite (IH _ Hch' Hend' i x Hi). lia.
Qed.

Lemma set_cache_same s : set_cache s (cache s) = s.
Proof. by destruct s. Qed.

Lemma mark_used_same first limit (c : list Page.t) :
  (∀ (i : nat) p, c !! i = Some p → first ≤ Z.of_nat i < limit →
     Page.is_free p = false ∧ Page.block_start p = first) →
  mark_used first limit c = c.
Proof.
  intros H. apply list_eq. intros i. rewrite mark_used_lookup.
  destruct (c !! i) as [p|] eqn:Hp; [| done]. simpl. f_equal.
  destruct (first <=? Z.of_nat i) eqn:H1; [| done].
  destruct (Z.of_nat i <? limit) eqn:H2; [| done]. simpl.
  apply Z.leb_le in H1. apply Z.ltb_lt in H2.
  destruct (H i p Hp ltac:(lia)) as [Hf Hb]. destruct p; simpl in *. by subst.
Qed.

Lemma mark_free_same first limit (c : list Page.t) :
  (∀ (i : nat) p, c !! i = Some p → first ≤ Z.of_nat i < limit →
     Page.is_free p = true) →
  mark_free first limit c = c.
Proof.
  intros H. apply list_eq. intros i. rewrite mark_free_lookup.
  destruct (c !! i) as [p|] eqn:Hp; [| done]. simpl. f_equal.
  destruct (first <=? Z.of_nat i) eqn:H1; [| done].
  destruct (Z.of_nat i <? limit) eqn:H2; [| done]. simpl.
  apply Z.leb_le in H1. apply Z.ltb_lt in H2.
  pose proof (H i p Hp ltac:(lia)) as Hf. destruct p; simpl in *. by subst.
Qed.

(** On a packed sequence whose pages carry the flags of their runs the
    relocation loop changes nothing. *)
Lemma compact_loop_packed l s cur :
  0 ≤ cur → chained cur l →
  (∀ i kv, l !! i = Some kv →
     CacheEntry.start_page kv.2 = cur + sum_pages (take i l)) →
  (∀ j kv (i : nat) p, l !! j = Some kv → cache s !! i = Some p →
     cur + sum_pages (take j l) ≤ Z.of_nat i < cur + sum_pages (take (S j) l) →
     Page.is_free p = false ∧ Page.block_start p = cur + sum_pages (take j l)) →
  compact_loop l s cur = (s, cur + sum_pages l).
Proof.
  revert cur. induction l as [|[k e] l IH]; intros cur Hcur Hch Htight Hflags.
  - simpl. change (sum_pages []) with 0. by rewrite Z.add_0_r.
  - destruct Hch as (Hlo & Hok & Hch). simpl in Hlo, Hok, Hch.
    pose proof Hok as (He0 & He1 & He2 & He3).
    assert (CacheEntry.start_page e = cur) as Hs.
    { specialize (Htight 0%nat (k, e) eq_refl). simpl in Htight.
      change (sum_pages []) with 0 in Htight. lia. }
    assert (compact_step s cur (k, e) = (s, cur + CacheEntry.num_pages e)) as Hstep.
    { unfold compact_step. cbn [fst snd]. rewrite Hs, Z.eqb_refl, wrap_arena by lia.
      rewrite mark_used_same, set_cache_same; [done |].
      intros i p Hp Hi.
      specialize (Hflags 0%nat (k, e) i p eq_refl Hp).
      change (sum_pages (take 0 ((k, e) :: l))) with 0 in Hflags.
      change (sum_pages (take 1 ((k, e) :: l)))
        with (CacheEntry.num_pages e + 0) in Hflags.
      rewrite !Z.add_0_r in Hflags. apply Hflags. lia. }
    change (compact_loop ((k, e) :: l) s cur)
      with (compact_loop l (compact_step s cur (k, e)).1 (compact_step s cur (k, e)).2).
    rewrite Hstep. cbn [fst snd]. rewrite Hs in Hch.
    rewrite IH; [rewrite sum_pages_cons; f_equal; simpl; lia | lia | done | |].
    + intros i kv Hi. specialize (Htight (S i) kv Hi).
      cbn [take] in Htight. rewrite sum_pages_cons in Htight. simpl in Htight. lia.
    + intros j kv i p Hj Hp Hi.
      specialize (Hflags (S j) kv i p Hj Hp).
      cbn [take] in Hflags. rewrite !sum_pages_cons in Hflags. simpl in Hflags.
      rewrite Z.add_assoc in Hflags.
      replace (cur + (CacheEntry.num_pages e + sum_pages (take j l)))
        with (cur + CacheEntry.num_pages e + sum_pages (take j l)) in Hflags by lia.
      apply Hflags. lia.
Qed.

Lemma state_refresh s fl n :
  free_list_head s = fl → total_free_pages s = n →
  set_free_list
    (set_cache (set_free_list s [] 0) (cache (set_free_list s [] 0))) fl n = s.
Proof. destruct s; simpl. by intros -> ->. Qed.

Lemma state_refresh_empty s :
  free_list_head s = [] → total_free_pages s = 0 → set_free_list s [] 0 = s.
Proof. destruct s; simpl. by intros -> ->. Qed.

(** X16. Compaction is idempotent: compacting a compacted arena again, in
    any order the sort may produce, moves no entry and leaves the whole
    state as it was (pages, flags, entry table, free list and counter). *)
Theorem compactMemory_idempotent st order order' :
  arena_ok st → compaction_order st order →
  compaction_order (compactMemory_with order st) order' →
  compactMemory_with order' (compactMemory_with order st)
  = compactMemory_with order st.
Proof.
  intros Hok Hord Hord'.
  pose proof (compactMemory_with_arena_ok st order Hok Hord) as Hok1.
  destruct (compactMemory_with_spec st order Hok Hord)
    as (Hle & Hent & Hnew & Hfl & Htot).
  destruct (compaction_order_chained st order Hok Hord) as (Hch & Hnd & Hin).
  destruct (compaction_order_chained _ order' Hok1 Hord') as (Hch' & Hnd' & Hin').
  pose proof (chained_entries_ok _ _ Hch) as Hoks.
  pose proof (chained_entries_ok _ _ Hch') as Hoks'.
  pose proof (compactMemory_with_length st order Hok Hord) as Hlen.
  assert (sum_pages order' = sum_pages order) as Hsum.
  { rewrite (sum_entry_pages_order _ _ Hord'), (sum_entry_pages_order _ _ Hord).
    apply sum_entry_pages_ext. intros k.
    destruct (entries st !! k) as [e|] eqn:Hk.
    - apply Hin in Hk. apply list_elem_of_lookup in Hk as [i Hi].
      destruct (Hent i k e Hi) as (_ & -> & _). done.
    - by rewrite (Hnew k Hk). }
  assert (∀ i kv, order' !! i = Some kv →
            CacheEntry.start_page kv.2 = sum_pages (take i order')) as Htight.
  { assert (∀ kv, kv ∈ order' →
              CacheEntry.start_page kv.2 + CacheEntry.num_pages kv.2
              ≤ 0 + sum_pages order') as Hend.
    { intros [k e'] Hk. simpl. apply Hin' in Hk.
      destruct (compactMemory_with_entry st order k e' Hok Hord Hk)
        as (j & e & Hj & ->). simpl.
      destruct (sum_pages_take_lookup order j k e Hoks Hj) as (_ & HS & HT). lia. }
    intros i kv Hi. rewrite (chained_tight 0 order' Hch' Hend i kv Hi). lia. }
  assert (∀ j kv (i : nat) p, order' !! j = Some kv →
            cache (compactMemory_with order st) !! i = Some p →
            sum_pages (take j order') ≤ Z.of_nat i < sum_pages (take (S j) order') →
            Page.is_free p = false
            ∧ Page.block_start p = sum_pages (take j order')) as Hflags.
  { intros j [k e'] i p Hj Hp Hi.
    pose proof (Htight j _ Hj) as Hstart. simpl in Hstart.
    destruct (sum_pages_take_lookup order' j k e' Hoks' Hj) as (_ & HS' & _).
    assert ((k, e') ∈ order') as Hk by (by eapply list_elem_of_lookup_2).
    apply Hin' in Hk.
    destruct (compactMemory_with_entry st order k e' Hok Hord Hk)
      as (j0 & e & Hj0 & ->). simpl in Hstart, HS'.
    destruct (sum_pages_take_lookup order j0 k e Hoks Hj0) as (_ & HS & _).
    destruct (lookup_lt_is_Some_2 (cache st) i) as [p0 Hp0].
    { rewrite <- Hlen. by eapply lookup_lt_Some. }
    destruct (compactMemory_with_cache st order i p0 Hok Hord Hp0)
      as (p' & Hp' & _ & Hused).
    rewrite Hp in Hp'. injection Hp' as <-.
    rewrite <- Hstart. apply (Hused j0 k e Hj0). lia. }
  assert (∀ (i : nat) p, cache (compactMemory_with order st) !! i = Some p →
            sum_pages order ≤ Z.of_nat i → Page.is_free p = true) as Hfree.
  { intros i p Hp Hi.
    destruct (lookup_lt_is_Some_2 (cache st) i) as [p0 Hp0].
    { rewrite <- Hlen. by eapply lookup_lt_Some. }
    destruct (compactMemory_with_cache st order i p0 Hok Hord Hp0)
      as (p' & Hp' & Hf & _).
    rewrite Hp in Hp'. injection Hp' as <-. by apply Hf. }
  clear Hent Hnew Hin Hin' Hlen Hok1 Hord' Hch Hnd Hoks.
  remember (compactMemory_with order st) as s1 eqn:E. clear E.
  unfold compactMemory_with.
  rewrite (compact_loop_packed order' (set_free_list s1 [] 0) 0);
    [| lia | done
     | intros i kv Hi; rewrite Z.add_0_l; by apply Htight
     | intros j kv i p Hj Hp Hi; rewrite !Z.add_0_l in *; by eapply Hflags].
  cbn [fst snd]. rewrite Z.add_0_l, Hsum. unfold compact_finish.
  destruct (sum_pages order <? TOTAL_PAGES) eqn:Hlt;
    [apply Z.ltb_lt in Hlt | apply Z.ltb_ge in Hlt].
  - rewrite mark_free_same.
    + by apply state_refresh.
    + intros i p Hp Hi. apply (Hfree i p Hp). lia.
  - apply state_refresh_empty; [done | lia].
Qed.

(** Compacting the compacted [fragmented_state] once more. *)
Lemma compactMemory_idempotent_witness :
  compactMemory (compactMemory fragmented_state) = compactMemory fragmented_state.
Proof.
  apply (compactMemory_idempotent fragmented_state
           (merge_sort start_le (map_to_list (entries fragmented_state)))).
  - by_compute.
  - apply compactMemory_order.
  - apply compactMemory_order.
Defined.

End Idempotence.

Section Statistics.

Implicit Types (l : list FreeBlock.t) (st : State).

(** The block counter of the walk over the free list. *)
Lemma fragStats_scan_count l count largest :
  0 ≤ count → count + Z.of_nat (length l) ≤ SIZE_MAX →
  (fragStats_scan l count largest).1 = count + Z.of_nat (length l).
Proof.
  revert count largest. induction l as [|b l IH]; intros count largest H0 Hle.
  - simpl. lia.
  - cbn [fragStats_scan length] in *. rewrite wrap_small by lia.
    rewrite IH by lia. lia.
Qed.

(** Extents that are apart need two pages each but the first. *)
Lemma sorted_coalesced_length_bound l lo :
  sorted_coalesced l → Forall extent_ok l →
  Forall (λ b, block_end b ≤ TOTAL_PAGES) l →
  Forall (λ b, lo ≤ FreeBlock.start_page b) l →
  l = [] ∨ 2 * Z.of_nat (length l) ≤ TOTAL_PAGES - lo + 1.
Proof.
  revert lo. induction l as [|a l IH]; intros lo Hsc Hok Hin Hlo; [by left |].
  right.
  apply Forall_cons in Hok as [(? & ? & ?) Hok].
  apply Forall_cons in Hin as [Ha Hin]. apply Forall_cons in Hlo as [Hlo _].
  pose proof (sorted_coalesced_above a l (block_end a) Hsc Hok ltac:(lia)) as Habove.
  destruct (IH (block_end a + 1) (sorted_coalesced_tail _ _ Hsc) Hok Hin)
    as [-> | IH'].
  { eapply Forall_impl; [exact Habove |]. simpl. lia. }
  - unfold block_end in *. simpl in *. lia.
  - unfold block_end in *. cbn [length] in *. lia.
Qed.

Lemma length_le_sum_extents l :
  Forall extent_ok l → Z.of_nat (length l) ≤ sum_extents l.
Proof.
  induction 1 as [|b l (? & ? & ?) _ IH]; [done |].
  rewrite sum_extents_cons. cbn [length]. lia.
Qed.

Lemma largest_le_sum_extents l :
  Forall extent_ok l → largest_extent l ≤ sum_extents l.
Proof.
  induction 1 as [|b l (? & ? & ?) Hl IH]; [done |].
  rewrite sum_extents_cons, largest_extent_cons.
  pose proof (sum_extents_nonneg l Hl). lia.
Qed.

(** X17. In a well-formed state [getFragmentationStats] counts the extents
    of the free list without wrapping, at most one for every two pages of
    the arena; the largest block it reports is the length of an extent of
    the list, or 0 for the empty list; and when the counter of free pages
    is exact, neither the number of blocks nor the largest block exceeds
    the total it reports. *)
Theorem getFragmentationStats_well_formed st :
  well_formed st →
  let fs := getFragmentationStats st in
  FragmentationStats.num_free_blocks fs = Z.of_nat (length (free_list_head st))
  ∧ 2 * FragmentationStats.num_free_blocks fs ≤ TOTAL_PAGES + 1
  ∧ (free_list_head st = [] → FragmentationStats.largest_free_block fs = 0)
  ∧ (free_list_head st ≠ [] →
     1 ≤ FragmentationStats.largest_free_block fs
     ∧ ∃ b, b ∈ free_list_head st
         ∧ FreeBlock.num_pages b = FragmentationStats.largest_free_block fs)
  ∧ (counter_exact st →
     FragmentationStats.num_free_blocks fs ≤ FragmentationStats.total_free_pages fs
     ∧ FragmentationStats.largest_free_block fs
       ≤ FragmentationStats.total_free_pages fs).
Proof.
  intros (_ & Hsc & Hext & Hin & _) fs. subst fs.
  rewrite getFragmentationStats_largest.
  assert (2 * Z.of_nat (length (free_list_head st)) ≤ TOTAL_PAGES + 1) as Hlen.
  { destruct (sorted_coalesced_length_bound (free_list_head st) 0 Hsc Hext Hin)
      as [-> | H]; [| by rewrite TOTAL_PAGES_value | lia].
    eapply Forall_impl; [exact Hext |]. by intros b (? & _). }
  assert (FragmentationStats.num_free_blocks (getFragmentationStats st)
          = Z.of_nat (length (free_list_head st))) as Hcount.
  { unfold getFragmentationStats. cbn [FragmentationStats.num_free_blocks].
    rewrite fragStats_scan_count; [lia | lia |].
    rewrite TOTAL_PAGES_value in Hlen. unfold SIZE_MAX. lia. }
  rewrite Hcount. split; [done |]. split; [done |]. split; [by intros -> |]. split.
  - intros Hne.
    destruct (free_list_head st) as [|b l] eqn:Hl; [done |].
    apply Forall_cons in Hext as [(? & ? & ?) _].
    pose proof (largest_extent_upper (b :: l) b ltac:(by left)) as Hup.
    split; [lia |].
    destruct (largest_extent_attained (b :: l)) as [Hz | Hb]; [lia | done].
  - unfold counter_exact, getFragmentationStats.
    cbn [FragmentationStats.total_free_pages]. intros ->.
    split; [by apply length_le_sum_extents | by apply largest_le_sum_extents].
Qed.

(** [hole_state] has two extents, of 2 and 3 pages. *)
Lemma getFragmentationStats_well_formed_witness :
  well_formed hole_state
  ∧ FragmentationStats.num_free_blocks (getFragmentationStats hole_state) = 2
  ∧ 1 ≤ FragmentationStats.largest_free_block (getFragmentationStats hole_state).
Proof.
  split; [by_compute |].
  destruct (getFragmentationStats_well_formed hole_state) as (H1 & _ & _ & H4 & _);
    [by_compute |].
  split; [exact H1 |]. by apply H4.
Defined.

End Statistics.
(** ** The fresh cache *)

Section FreshCache.

(** X18. For every policy the state [initializeCache] builds is well
    formed with an exact counter, and the first allocation of a size that
    needs between 1 and [TOTAL_PAGES] pages succeeds without eviction: the
    entry table holds the new entry alone, at page 0, and the free list is
    the rest of the arena as one extent (empty when the request takes the
    whole arena). *)
Theorem initializeCache_first_allocation
    (evict : Z → State → bool * State) p key ds cid :
  1 ≤ calculateRequiredPages ds ≤ TOTAL_PAGES →
  well_formed (initializeCache p)
  ∧ counter_exact (initializeCache p)
  ∧ (allocatePages evict key ds cid (initializeCache p)).1 = true
  ∧ (∃ e, entries (allocatePages evict key ds cid (initializeCache p)).2
          = {[key := e]}
        ∧ CacheEntry.start_page e = 0
        ∧ CacheEntry.num_pages e = calculateRequiredPages ds)
  ∧ free_list_head (allocatePages evict key ds cid (initializeCache p)).2
    = (if calculateRequiredPages ds =? TOTAL_PAGES then []
       else [FreeBlock.mk (calculateRequiredPages ds)
               (TOTAL_PAGES - calculateRequiredPages ds)]).
Proof.
  intros Hn.
  split; [destruct p; by_compute |]. split; [done |].
  assert (free_list_head (initializeCache p) !! O = Some (FreeBlock.mk 0 TOTAL_PAGES))
    as Hb by done.
  assert (findBestFitBlock (calculateRequiredPages ds)
            (free_list_head (initializeCache p)) = Some O) as Hfind.
  { change (free_list_head (initializeCache p)) with [FreeBlock.mk 0 TOTAL_PAGES].
    rewrite findBestFitBlock_single by (cbn; by rewrite TOTAL_PAGES_value).
    cbn [FreeBlock.num_pages]. by rewrite (proj2 (Z.leb_le _ _)) by lia. }
  rewrite (allocatePages_fit evict _ _ _ _ _ Hfind). cbn [fst snd].
  split; [done |]. split.
  - destruct (commit_allocation_entries O key ds cid (calculateRequiredPages ds)
                (initializeCache p) _ Hb) as (e & Hent & _ & Hs & Hnp & _).
    change (entries (initializeCache p)) with (∅ : gmap string CacheEntry.t) in Hent.
    exists e. by rewrite Hent, insert_empty.
  - destruct (commit_allocation_frame O key ds cid (calculateRequiredPages ds)
                (initializeCache p) _ Hb) as [_ ->].
    rewrite (splitBlock_free_list _ _ _ _ Hb). cbn [FreeBlock.num_pages FreeBlock.start_page].
    rewrite Z.eqb_sym. destruct (_ =? _); [done |].
    change (free_list_head (initializeCache p)) with [FreeBlock.mk 0 TOTAL_PAGES].
    cbn [insert list_insert]. rewrite Z.add_0_l, !wrap_arena by lia. done.
Qed.

(** A first request of three pages under the FIFO policy. *)
Lemma initializeCache_first_allocation_witness :
  (allocatePages evict_model "k" (3 * PAGE_SIZE) "c" (initializeCache FIFO)).1 = true
  ∧ free_list_head
      (allocatePages evict_model "k" (3 * PAGE_SIZE) "c" (initializeCache FIFO)).2
    = [FreeBlock.mk 3 (TOTAL_PAGES - 3)].
Proof.
  destruct (initializeCache_first_allocation evict_model FIFO "k" (3 * PAGE_SIZE) "c")
    as (_ & _ & H3 & _ & H5); [by_compute |].
  split; [exact H3 | exact H5].
Defined.

End FreshCache.

(** ** The admission sequence *)

Section AdmissionSequence.

Implicit Types (st s : State).

Lemma calculateRequiredPages_nonneg ds : 0 ≤ calculateRequiredPages ds.
Proof.
  unfold calculateRequiredPages.
  pose proof (wrap_range (ds + PAGE_SIZE - 1)) as H.
  apply Z.div_pos; [lia | by rewrite PAGE_SIZE_value].
Qed.

(** What the code does once a block has been found is the split and the
    commit of the specification. *)
Lemma commit_allocation_committed ext key ds cid n s b :
  free_list_head s !! ext = Some b → extent_representable b →
  0 ≤ n ≤ FreeBlock.num_pages b →
  committed_by_spec ext key ds cid n s (commit_allocation ext key ds cid n s).
Proof.
  intros Hb (Hb0 & Hb1 & Hb2) Hn. unfold block_end in Hb2.
  exists b. split; [done |].
  assert (cache (splitBlock ext n s) = cache s
          ∧ fifo_counter (splitBlock ext n s) = fifo_counter s) as (Hc & Hf).
  { unfold splitBlock, removeFromFreeList. rewrite Hb. by destruct (_ =? _). }
  split.
  { destruct (commit_allocation_frame ext key ds cid n s b Hb) as [_ ->].
    rewrite (splitBlock_free_list _ _ _ _ Hb). unfold split_by_spec. rewrite Hb.
    destruct (_ =? _); [done |]. by rewrite !wrap_small by lia. }
  unfold commit_allocation. rewrite Hb.
  split; [cbn; by rewrite splitBlock_entries, Hf |].
  split; [cbn; by rewrite Hf |].
  split.
  { cbn [cache set_cache set_entries set_fifo_counter].
    unfold mark_used. by rewrite length_imap, Hc. }
  intros i p Hp. cbn [cache set_cache set_entries set_fifo_counter].
  rewrite mark_used_lookup, Hc, Hp. simpl. f_equal.
  rewrite wrap_small by lia.
  case_bool_decide as Hin.
  - rewrite (proj2 (Z.leb_le _ _)) by lia. rewrite (proj2 (Z.ltb_lt _ _)) by lia. done.
  - destruct (_ <=? _) eqn:H1; [| done]. destruct (_ <? _) eqn:H2; [| done].
    apply Z.leb_le in H1. apply Z.ltb_lt in H2. lia.
Qed.

(** The second search of the code with its commit is the retry of the
    specification. *)
Lemma allocate_retry_by_spec key ds cid n s :
  0 ≤ n → Forall extent_representable (free_list_head s) →
  retry_by_spec key ds cid n s (allocate_retry key ds cid n s).
Proof.
  intros Hn Hfl. unfold retry_by_spec, allocate_retry.
  destruct (findBestFitBlock n (free_list_head s)) as [ext|] eqn:Hfind; [| done].
  destruct (findBestFitBlock_Some _ _ _ Hfind) as (b & Hb & Hfit).
  split; [done |]. cbn [snd].
  apply (commit_allocation_committed ext key ds cid n s b Hb); [| lia].
  rewrite Forall_forall in Hfl. apply Hfl. by eapply list_elem_of_lookup_2.
Qed.

Lemma defragment_representable n s :
  Forall extent_representable (free_list_head (defragment n s).2).
Proof.
  unfold defragment. cbn [snd]. set (s0 := set_stats s _).
  destruct (compactMemory_shape s0) as [[-> _] | (c & Hc & -> & _)]; [constructor |].
  repeat constructor; unfold block_end; cbn;
    rewrite ?TOTAL_PAGES_value in *; unfold SIZE_MAX; lia.
Qed.

(** C4. [allocatePages] runs the sequence of section 4.F, for a request
    that needs at least one page, and for any request when [evict] returns
    a state as it is with success whenever that state already has enough
    free pages. When the best-fit search finds an extent, the call
    succeeds, the extent is split by [n] and the entry is committed: the
    free list, the entry table and the pages are those that [split] and
    the commit of the specification give. Else, with
    [total_free_pages ≥ n], the state is defragmented for [n] and searched
    again, with the same split and commit on success and the fall-through
    to eviction when the search still finds nothing; else eviction. When
    [evict] fails the result is [false] with the state [evict] left; after
    a successful eviction the search is repeated, and the result is the
    split and commit, or [false] when there is still no extent. The free
    lists at hand hold [size_t] values. *)
Theorem allocatePages_admission_sequence
    (evict : Z → State → bool * State) key ds cid st :
  (1 ≤ calculateRequiredPages ds
   ∨ ∀ s, calculateRequiredPages ds ≤ total_free_pages s →
          evict (calculateRequiredPages ds) s = (true, s)) →
  Forall extent_representable (free_list_head st) →
  Forall extent_representable
    (free_list_head
       (evict (calculateRequiredPages ds)
          (state_before_eviction (calculateRequiredPages ds) st)).2) →
  admission_by_spec evict key ds cid (calculateRequiredPages ds) st
    (allocatePages evict key ds cid st).
Proof.
  intros Hn Hfl Hev. pose proof (calculateRequiredPages_nonneg ds) as H0.
  unfold allocatePages, admission_by_spec, state_before_eviction in *.
  set (n := calculateRequiredPages ds) in *. clearbody n.
  destruct (findBestFitBlock n (free_list_head st)) as [block|] eqn:Hfind.
  { destruct (findBestFitBlock_Some _ _ _ Hfind) as (b & Hb & Hfit).
    split; [done |]. cbn [snd].
    apply (commit_allocation_committed block key ds cid n st b Hb); [| lia].
    rewrite Forall_forall in Hfl. apply Hfl. by eapply list_elem_of_lookup_2. }
  destruct (n <=? total_free_pages st) eqn:Hcnt.
  - destruct (defragment_search n st) as (Htot & Hfalse & Htrue & _ & _).
    pose proof (defragment_representable n st) as Hd_ok.
    destruct (defragment n st).1 eqn:Hd.
    + pose proof (allocate_retry_by_spec key ds cid n (defragment n st).2 H0 Hd_ok)
        as Hr.
      unfold retry_by_spec in Hr.
      destruct (findBestFitBlock n (free_list_head (defragment n st).2))
        as [block|] eqn:Hf2; [exact Hr |].
      specialize (Htrue eq_refl eq_refl).
      destruct Hn as [Hn | Hevn]; [lia |].
      unfold admission_step4. rewrite Hevn by lia. cbn [fst snd].
      unfold retry_by_spec. rewrite Hf2. exact Hr.
    + rewrite (Hfalse eq_refl). unfold admission_step4.
      destruct (evict n (defragment n st).2).1; [| done].
      by apply allocate_retry_by_spec.
  - unfold admission_step4. destruct (evict n st).1; [| done].
    by apply allocate_retry_by_spec.
Qed.

(** The five ways through the sequence, with the eviction model of section
    4.D under FIFO: a direct fit in [fragmented_state]; a fit after
    defragmentation in [scenario_state]; in [one_entry_state] a request for
    the whole arena, for which defragmentation is not enough and [k] is
    evicted; in [full_state], where the counter of free pages is 0, a
    request that goes to eviction at once; and in a fresh cache a request
    for more than the arena, for which eviction fails. *)
Lemma allocatePages_admission_sequence_witness :
  (is_Some (findBestFitBlock (calculateRequiredPages 40961)
              (free_list_head fragmented_state))
   ∧ admission_by_spec evict_model "C" 40961 "c" (calculateRequiredPages 40961)
       fragmented_state (allocatePages evict_model "C" 40961 "c" fragmented_state))
  ∧ (findBestFitBlock (calculateRequiredPages (2558 * PAGE_SIZE))
       (free_list_head scenario_state) = None
     ∧ (defragment (calculateRequiredPages (2558 * PAGE_SIZE)) scenario_state).1 = true
     ∧ (allocatePages evict_model "D" (2558 * PAGE_SIZE) "c" scenario_state).1 = true
     ∧ admission_by_spec evict_model "D" (2558 * PAGE_SIZE) "c"
         (calculateRequiredPages (2558 * PAGE_SIZE)) scenario_state
         (allocatePages evict_model "D" (2558 * PAGE_SIZE) "c" scenario_state))
  ∧ (findBestFitBlock (calculateRequiredPages (TOTAL_PAGES * PAGE_SIZE))
       (free_list_head one_entry_state) = None
     ∧ (defragment (calculateRequiredPages (TOTAL_PAGES * PAGE_SIZE))
          one_entry_state).1 = false
     ∧ (evict_model (calculateRequiredPages (TOTAL_PAGES * PAGE_SIZE))
          (state_before_eviction (calculateRequiredPages (TOTAL_PAGES * PAGE_SIZE))
             one_entry_state)).1 = true
     ∧ (allocatePages evict_model "big" (TOTAL_PAGES * PAGE_SIZE) "c"
          one_entry_state).1 = true
     ∧ admission_by_spec evict_model "big" (TOTAL_PAGES * PAGE_SIZE) "c"
         (calculateRequiredPages (TOTAL_PAGES * PAGE_SIZE)) one_entry_state
         (allocatePages evict_model "big" (TOTAL_PAGES * PAGE_SIZE) "c"
            one_entry_state))
  ∧ (findBestFitBlock (calculateRequiredPages 1) (free_list_head full_state) = None
     ∧ total_free_pages full_state < calculateRequiredPages 1
     ∧ (evict_model (calculateRequiredPages 1) full_state).1 = true
     ∧ (allocatePages evict_model "x" 1 "c" full_state).1 = true
     ∧ admission_by_spec evict_model "x" 1 "c" (calculateRequiredPages 1) full_state
         (allocatePages evict_model "x" 1 "c" full_state))
  ∧ (findBestFitBlock (calculateRequiredPages ((TOTAL_PAGES + 1) * PAGE_SIZE))
       (free_list_head (initializeCache FIFO)) = None
     ∧ (evict_model (calculateRequiredPages ((TOTAL_PAGES + 1) * PAGE_SIZE))
          (initializeCache FIFO)).1 = false
     ∧ (allocatePages evict_model "h" ((TOTAL_PAGES + 1) * PAGE_SIZE) "c"
          (initializeCache FIFO)).1 = false
     ∧ admission_by_spec evict_model "h" ((TOTAL_PAGES + 1) * PAGE_SIZE) "c"
         (calculateRequiredPages ((TOTAL_PAGES + 1) * PAGE_SIZE))
         (initializeCache FIFO)
         (allocatePages evict_model "h" ((TOTAL_PAGES + 1) * PAGE_SIZE) "c"
            (initializeCache FIFO))).
Proof.
  split; [| split; [| split; [| split]]].
  - split; [eexists; vm_compute; reflexivity |].
    apply allocatePages_admission_sequence; [left |..]; by_compute.
  - split; [vm_compute; reflexivity |]. split; [vm_compute; reflexivity |].
    split; [vm_compute; reflexivity |].
    apply allocatePages_admission_sequence; [left |..]; by_compute.
  - split; [vm_compute; reflexivity |]. split; [vm_compute; reflexivity |].
    split; [vm_compute; reflexivity |]. split; [vm_compute; reflexivity |].
    apply allocatePages_admission_sequence; [left |..]; by_compute.
  - split; [vm_compute; reflexivity |]. split; [by_compute |].
    split; [vm_compute; reflexivity |]. split; [vm_compute; reflexivity |].
    apply allocatePages_admission_sequence; [left |..]; by_compute.
  - split; [vm_compute; reflexivity |]. split; [vm_compute; reflexivity |].
    split; [vm_compute; reflexivity |].
    apply allocatePages_admission_sequence; [left |..]; by_compute.
Defined.

End AdmissionSequence.
